(** * pymoku: the IIR Filter Box instrument model

    A shallow embedding of [pymoku/_iirfilterbox.py]: the staged register
    file, the user settings remembered until commit, the coefficient
    reshape and bulk upload of [set_filter], the commit-time register
    recomputation and the frame scales.

    Python floats are IEEE binary64 values, here Rocq's primitive floats.
    Python lists are mutable objects: a coefficient array is a list of
    references to row objects, so two rows may be the same object. *)

From Stdlib Require Import ZArith List Lia Bool String Ascii.
From Stdlib Require Import Floats.PrimFloat Floats.FloatOps Floats.SpecFloat.
From stdpp Require Import base option list gmap strings pretty.

Local Open Scope string_scope.
Local Open Scope Z_scope.

(** ** Python primitives *)

Module Py.

(** Exceptions that the modelled code paths can raise.  The names of the
    library's own exceptions follow the error taxonomy of the
    specification. *)
Inductive exn : Type :=
| ValidationError (desc : string)
| RangeOverflowError
| TransportError
| IndexError
| KeyError
| AttributeError
| OverflowError
| ValueError
| StructError
| ZeroDivisionError.

#[global] Instance exn_eq_dec : EqDecision exn.
Proof. solve_decision. Defined.

(** [round] on a finite binary64 value [m * 2^e] (Python 3: the nearest
    integer, ties to the even one). *)
Definition round_half_even (m : positive) (e : Z) : Z :=
  if 0 <=? e then Z.pos m * 2 ^ e
  else
    let d := 2 ^ (- e) in
    let q := Z.pos m / d in
    let r := Z.pos m mod d in
    match 2 * r ?= d with
    | Lt => q
    | Gt => q + 1
    | Eq => if Z.even q then q else q + 1
    end.

(** [int(round(x))]: infinities and NaN cannot be converted. *)
Definition int_round (x : float) : exn + Z :=
  match Prim2SF x with
  | S754_zero _ => inr 0
  | S754_finite s m e =>
      let n := round_half_even m e in inr (if s then - n else n)
  | S754_infinity _ => inl OverflowError
  | S754_nan => inl ValueError
  end.

(** A float divisor: zero, of either sign, is refused. *)
Definition nonzero (y : float) : exn + unit :=
  if (y =? 0)%float then inl ZeroDivisionError else inr tt.

(** [x / y] on floats: [ZeroDivisionError] on a zero divisor, the IEEE
    quotient otherwise. *)
Definition truediv (x y : float) : exn + float :=
  match nonzero y with
  | inl e => inl e
  | inr _ => inr (x / y)%float
  end.

(** Little-endian bytes of a non-negative integer; a byte is a [Z] in
    [0, 256). *)
Fixpoint le_bytes (n : nat) (v : Z) : list Z :=
  match n with
  | O => []
  | S n' => (v mod 256) :: le_bytes n' (v / 256)
  end.

Fixpoint of_le_bytes (bs : list Z) : Z :=
  match bs with
  | [] => 0
  | b :: bs' => b + 256 * of_le_bytes bs'
  end.

(** [struct.pack('<q', v)]: eight bytes, two's complement, little endian;
    [struct.error] outside the signed 64-bit range. *)
Definition pack_q (v : Z) : option (list Z) :=
  if (- 2 ^ 63 <=? v) && (v <? 2 ^ 63)
  then Some (le_bytes 8 (v mod 2 ^ 64))
  else None.

(** [struct.unpack('<q', bs)]. *)
Definition unpack_q (bs : list Z) : Z :=
  let u := of_le_bytes bs in
  if u <? 2 ^ 63 then u else u - 2 ^ 64.

End Py.
Export Py.

(** ** Coefficient arrays as Python objects *)

(** The outer list holds references into a store of row objects.  Rows
    [m] and [m'] with the same reference are one object: an in-place
    update through one is seen through the other. *)
Record CoeffArray : Type := mkCoeffArray {
  heap : list (list float);
  rows : list nat
}.

(** [a[m]] *)
Definition getrow (a : CoeffArray) (m : nat) : option (list float) :=
  r ← rows a !! m; heap a !! r.

(** [a[m][n]] *)
Definition getitem (a : CoeffArray) (m n : nat) : option float :=
  l ← getrow a m; l !! n.

(** [copy.deepcopy] copies every row object once and keeps the sharing
    between the rows of the copy.  The copy lives in a store of its own, so
    later updates of the copy leave the caller's array as it was. *)
Definition deepcopy (a : CoeffArray) : CoeffArray := a.

(** [l[i] = v] on a row object. *)
Definition setitem (l : list float) (i : nat) (v : float) : option (list float) :=
  if decide (i < length l)%nat then Some (<[i := v]> l) else None.

(** [l[i] *= l[j]] on a row object. *)
Definition imul_item (l : list float) (i j : nat) : option (list float) :=
  x ← l !! i; y ← l !! j; setitem l i (x * y)%float.

(** An in-place update of the row object behind [a[m]]. *)
Definition update_row (a : CoeffArray) (m : nat)
    (f : list float → option (list float)) : option CoeffArray :=
  r ← rows a !! m;
  l ← heap a !! r;
  l' ← f l;
  Some (mkCoeffArray (<[r := l']> (heap a)) (rows a)).

(** ** Instrument state *)

(** [get_frontend(ch)] returns [[fiftyr, atten, ac]]. *)
Record Frontend : Type := mkFrontend {
  fiftyr : bool;
  atten : bool;
  ac : bool
}.

(** What the instrument reads from its base classes and from the device
    calibration; none of the modelled methods writes it. *)
Record Env : Type := mkEnv {
  frontend1 : Frontend;
  frontend2 : Frontend;
  _adc_gains : float * float;
  _dac_gains : float * float;
  is_precision_mode : bool;
  _deci_gain : float
}.

(** The user settings remembered prior to the on-commit register
    calculations ([__init__] sets all of them to 0). *)
Record Settings : Type := mkSettings {
  _matrixscale_ch1_ch1 : float;
  _matrixscale_ch1_ch2 : float;
  _matrixscale_ch2_ch1 : float;
  _matrixscale_ch2_ch2 : float;
  _input_scale1 : float;
  _output_scale1 : float;
  _input_offset1 : float;
  _output_offset1 : float;
  _input_scale2 : float;
  _output_scale2 : float;
  _input_offset2 : float;
  _output_offset2 : float
}.

Record IIR : Type := mkIIR {
  (** registers staged since the last commit, and the device's registers *)
  localregs : gmap Z Z;
  remoteregs : gmap Z Z;
  user : Settings;
  (** [None]: the attribute does not exist yet (before [set_defaults]) *)
  filter_ch1 : option CoeffArray;
  filter_ch2 : option CoeffArray;
  (** decimation factor last staged on each channel's [DecFilter] *)
  _decfilter1 : option Z;
  _decfilter2 : option Z;
  mmap_access : bool;
  (** the scratch file [.data.dat], when it exists *)
  data_dat : option (list Z);
  (** bulk uploads received by the device: tag and payload *)
  sent_files : list (string * list Z);
  (** outcomes of the coming transport operations, in order ([false]: the
      operation fails); an exhausted list means the link stays up *)
  link : list bool;
  env : Env
}.

Definition with_localregs (s : IIR) (r : gmap Z Z) : IIR :=
  mkIIR r (remoteregs s) (user s) (filter_ch1 s) (filter_ch2 s)
        (_decfilter1 s) (_decfilter2 s) (mmap_access s) (data_dat s)
        (sent_files s) (link s) (env s).
Definition with_remoteregs (s : IIR) (r : gmap Z Z) : IIR :=
  mkIIR (localregs s) r (user s) (filter_ch1 s) (filter_ch2 s)
        (_decfilter1 s) (_decfilter2 s) (mmap_access s) (data_dat s)
        (sent_files s) (link s) (env s).
Definition with_user (s : IIR) (u : Settings) : IIR :=
  mkIIR (localregs s) (remoteregs s) u (filter_ch1 s) (filter_ch2 s)
        (_decfilter1 s) (_decfilter2 s) (mmap_access s) (data_dat s)
        (sent_files s) (link s) (env s).
Definition with_filter_ch1 (s : IIR) (f : option CoeffArray) : IIR :=
  mkIIR (localregs s) (remoteregs s) (user s) f (filter_ch2 s)
        (_decfilter1 s) (_decfilter2 s) (mmap_access s) (data_dat s)
        (sent_files s) (link s) (env s).
Definition with_filter_ch2 (s : IIR) (f : option CoeffArray) : IIR :=
  mkIIR (localregs s) (remoteregs s) (user s) (filter_ch1 s) f
        (_decfilter1 s) (_decfilter2 s) (mmap_access s) (data_dat s)
        (sent_files s) (link s) (env s).
Definition with_decfilter1 (s : IIR) (d : option Z) : IIR :=
  mkIIR (localregs s) (remoteregs s) (user s) (filter_ch1 s) (filter_ch2 s)
        d (_decfilter2 s) (mmap_access s) (data_dat s)
        (sent_files s) (link s) (env s).
Definition with_decfilter2 (s : IIR) (d : option Z) : IIR :=
  mkIIR (localregs s) (remoteregs s) (user s) (filter_ch1 s) (filter_ch2 s)
        (_decfilter1 s) d (mmap_access s) (data_dat s)
        (sent_files s) (link s) (env s).
Definition with_mmap_access (s : IIR) (b : bool) : IIR :=
  mkIIR (localregs s) (remoteregs s) (user s) (filter_ch1 s) (filter_ch2 s)
        (_decfilter1 s) (_decfilter2 s) b (data_dat s)
        (sent_files s) (link s) (env s).
Definition with_data_dat (s : IIR) (f : option (list Z)) : IIR :=
  mkIIR (localregs s) (remoteregs s) (user s) (filter_ch1 s) (filter_ch2 s)
        (_decfilter1 s) (_decfilter2 s) (mmap_access s) f
        (sent_files s) (link s) (env s).
Definition with_sent_files (s : IIR) (l : list (string * list Z)) : IIR :=
  mkIIR (localregs s) (remoteregs s) (user s) (filter_ch1 s) (filter_ch2 s)
        (_decfilter1 s) (_decfilter2 s) (mmap_access s) (data_dat s)
        l (link s) (env s).
Definition with_link (s : IIR) (l : list bool) : IIR :=
  mkIIR (localregs s) (remoteregs s) (user s) (filter_ch1 s) (filter_ch2 s)
        (_decfilter1 s) (_decfilter2 s) (mmap_access s) (data_dat s)
        (sent_files s) l (env s).

(** ** Instrument methods: state passing with exceptions *)

(** A method call takes the instrument to a new state and either returns
    or raises; what was assigned before a [raise] stays assigned. *)
Definition M (A : Type) : Type := IIR → IIR * (exn + A).

Definition ret {A} (a : A) : M A := λ s, (s, inr a).
Definition raise {A} (e : exn) : M A := λ s, (s, inl e).
Definition bind {A B} (m : M A) (k : A → M B) : M B :=
  λ s, match m s with
       | (s', inr a) => k a s'
       | (s', inl e) => (s', inl e)
       end.
Definition gets {A} (f : IIR → A) : M A := λ s, (s, inr (f s)).
Definition modify (f : IIR → IIR) : M unit := λ s, (f s, inr tt).

Declare Scope iir_scope.
Delimit Scope iir_scope with iir.
Notation "'do' x <- m ; k" := (bind m (λ x, k))
  (at level 10, x name, m at level 100, k at level 200) : iir_scope.
Notation "m >> k" := (bind m (λ _, k))
  (at level 100, k at level 200, right associativity) : iir_scope.
Local Open Scope iir_scope.

(** A Python lookup that raises [e] where the model has no value. *)
Definition lift {A} (e : exn) (o : option A) : M A :=
  match o with Some a => ret a | None => raise e end.

(** A conversion that may raise. *)
Definition lift_sum {A} (r : exn + A) : M A :=
  match r with inr a => ret a | inl e => raise e end.

(** Code that reads no instrument state either returns or raises. *)
Definition E (A : Type) : Type := (exn + A)%type.

Definition ebind {A B} (m : E A) (k : A → E B) : E B :=
  match m with inr a => k a | inl e => inl e end.

Notation "'doE' x <- m ; k" := (ebind m (λ x, k))
  (at level 10, x name, m at level 100, k at level 200) : iir_scope.
Notation "m >>? k" := (ebind m (λ _, k))
  (at level 100, k at level 200, right associativity) : iir_scope.

Definition elift {A} (e : exn) (o : option A) : E A :=
  match o with Some a => inr a | None => inl e end.

(** [for a in l: body(a)] *)
Fixpoint for_E {A} (l : list A) (body : A → E unit) : E unit :=
  match l with
  | [] => inr tt
  | a :: l' => body a >>? for_E l' body
  end.

(** [for a in l: acc = body(a, acc)] *)
Fixpoint fold_E {A S} (l : list A) (body : A → S → E S) (acc : S) : E S :=
  match l with
  | [] => inr acc
  | a :: l' => doE acc' <- body a acc; fold_E l' body acc'
  end.

Fixpoint for_M {A} (l : list A) (body : A → M unit) : M unit :=
  match l with
  | [] => ret tt
  | a :: l' => body a >> for_M l' body
  end.

(** Modelled from the spec: [_utils.check_parameter_valid] (the module
    [pymoku/_utils.py] is not in src).  An invalid value fails at once
    with a validation error naming the offending field; a range is the
    closed interval between its two bounds. *)
Definition check_parameter_valid_set {A} `{EqDecision A}
    (v : A) (allowed : list A) (desc : string) : E unit :=
  if decide (v ∈ allowed) then inr tt else inl (ValidationError desc).

Definition in_range (v lo hi : float) : bool :=
  ((lo <=? v) && (v <=? hi))%float.

Definition check_parameter_valid_range
    (v lo hi : float) (desc : string) : E unit :=
  if in_range v lo hi then inr tt else inl (ValidationError desc).

(** ** Value codec and register accessors *)

Module Codec.

Definition field_mask (offset len : Z) : Z := Z.shiftl (Z.ones len) offset.

Definition put_field (offset len val old : Z) : Z :=
  Z.lor (Z.land old (Z.lnot (field_mask offset len))) (Z.shiftl val offset).

(** Modelled from the spec: [to_reg_unsigned] of [pymoku/_instrument.py]
    (not in src).  The raw integer is validated against
    [0 <= raw < 2^width] and packed at [offset]; the other bits of the
    register are kept. *)
Definition to_reg_unsigned (offset len : Z) (val old : Z) : option Z :=
  if (0 <=? val) && (val <? 2 ^ len)
  then Some (put_field offset len val old)
  else None.

(** Modelled from the spec: [to_reg_signed] of [pymoku/_instrument.py]
    (not in src).  The raw integer is validated against
    [-2^(width-1) <= raw < 2^(width-1)] and stored as a two's-complement
    bit pattern at [offset]. *)
Definition to_reg_signed (offset len : Z) (val old : Z) : option Z :=
  if (- 2 ^ (len - 1) <=? val) && (val <? 2 ^ (len - 1))
  then Some (put_field offset len (if val <? 0 then val + 2 ^ len else val) old)
  else None.

(** Modelled from the spec: [to_reg_bool], a one-bit unsigned field. *)
Definition to_reg_bool (offset : Z) (val : bool) (old : Z) : option Z :=
  to_reg_unsigned offset 1 (if val then 1 else 0) old.

(** Modelled from the spec: [from_reg_unsigned], the bits of the field. *)
Definition from_reg_unsigned (offset len : Z) (reg : Z) : Z :=
  Z.land (Z.shiftr reg offset) (Z.ones len).

(** Modelled from the spec: [from_reg_signed], the bits of the field,
    sign-extended. *)
Definition from_reg_signed (offset len : Z) (reg : Z) : Z :=
  let v := from_reg_unsigned offset len reg in
  if v <? 2 ^ (len - 1) then v else v - 2 ^ len.

End Codec.
Export Codec.

Definition REG_ENABLE : Z := 96.
Definition REG_MONSELECT : Z := 111.
Definition REG_INPUTOFFSET_CH0 : Z := 112.
Definition REG_INPUTOFFSET_CH1 : Z := 113.
Definition REG_OUTPUTOFFSET_CH0 : Z := 114.
Definition REG_OUTPUTOFFSET_CH1 : Z := 115.
Definition REG_CH0_CH0GAIN : Z := 116.
Definition REG_CH0_CH1GAIN : Z := 117.
Definition REG_CH1_CH0GAIN : Z := 118.
Definition REG_CH1_CH1GAIN : Z := 119.
Definition REG_INPUTSCALE_CH0 : Z := 120.
Definition REG_INPUTSCALE_CH1 : Z := 121.
Definition REG_OUTPUTSCALE_CH0 : Z := 122.
Definition REG_OUTPUTSCALE_CH1 : Z := 123.

Definition _IIR_MON_NONE : Z := 0.
Definition _IIR_MON_ADC1 : Z := 1.
Definition _IIR_MON_IN1 : Z := 2.
Definition _IIR_MON_OUT1 : Z := 3.
Definition _IIR_MON_ADC2 : Z := 4.
Definition _IIR_MON_IN2 : Z := 5.
Definition _IIR_MON_OUT2 : Z := 6.
Definition _IIR_COEFFWIDTH : Z := 48.

(** Bits/V (no attenuation) *)
Definition _ADC_DEFAULT_CALIBRATION : float := 3750%float.

(** The current value of a register: the staged one, else the device's,
    else 0. *)
Definition reg_value (s : IIR) (reg : Z) : Z :=
  match localregs s !! reg with
  | Some v => v
  | None => default 0 (remoteregs s !! reg)
  end.

(** Modelled from the spec: the attribute write of the register map.  The
    encoded field is merged into the register's current value and staged;
    a value that does not fit its field raises and stages nothing. *)
Definition _accessor_set (reg : Z) (set_xform : Z → option Z) : M unit :=
  λ s, match set_xform (reg_value s reg) with
       | Some new => (with_localregs s (<[reg := new]> (localregs s)), inr tt)
       | None => (s, inl RangeOverflowError)
       end.

(** Assignment to an attribute bound to a signed field whose transform
    [xform obj x] reads the instrument.  Modelled from the spec: the codec
    rounds the transformed value to the nearest integer. *)
Definition set_signed (reg offset len : Z)
    (xform : IIR → float → float) (x : float) : M unit :=
  do obj <- gets id;
  do raw <- lift_sum (int_round (xform obj x));
  _accessor_set reg (to_reg_signed offset len raw).

(** Assignment to a signed field whose transform divides by [den obj]:
    the division raises on a zero divisor, before anything is rounded;
    otherwise [xform obj x] is the transformed value. *)
Definition set_signed_div (reg offset len : Z) (den : IIR → float)
    (xform : IIR → float → float) (x : float) : M unit :=
  do obj <- gets id;
  lift_sum (nonzero (den obj)) >>
  set_signed reg offset len xform x.

Definition atten_div (f : Frontend) : float :=
  if atten f then 10%float else 1%float.

(** The transforms of [_iir_reg_handlers].  Those written with
    [int(round(...))] in the source are rounded by [set_signed]. *)
Definition xform_matrixscale (fe : Env → Frontend) (g : Env → float)
    (obj : IIR) (x : float) : float :=
  (x * (_ADC_DEFAULT_CALIBRATION / atten_div (fe (env obj)))
     * g (env obj) * 1024)%float.

Definition xform_input_scale (obj : IIR) (x : float) : float :=
  (x * 512)%float.

(** The divisor of the output scale transform. *)
Definition output_scale_divisor (g : Env → float) (obj : IIR) : float :=
  (_ADC_DEFAULT_CALIBRATION * 8 * g (env obj))%float.

Definition xform_output_scale (g : Env → float) (obj : IIR) (x : float) : float :=
  (x * 512 / (_ADC_DEFAULT_CALIBRATION * 8 * g (env obj)))%float.

Definition xform_input_offset (fe : Env → Frontend) (obj : IIR) (x : float) : float :=
  (2 * x * _ADC_DEFAULT_CALIBRATION / atten_div (fe (env obj)))%float.

(** The divisor of the output offset transform. *)
Definition output_offset_divisor (g : Env → float) (obj : IIR) : float :=
  g (env obj).

Definition xform_output_offset (g : Env → float) (obj : IIR) (x : float) : float :=
  (x / g (env obj))%float.

Definition adc_gain1 (e : Env) : float := fst (_adc_gains e).
Definition adc_gain2 (e : Env) : float := snd (_adc_gains e).
Definition dac_gain1 (e : Env) : float := fst (_dac_gains e).
Definition dac_gain2 (e : Env) : float := snd (_dac_gains e).

Definition set_matrixscale_ch1_ch1 : float → M unit :=
  set_signed REG_CH0_CH0GAIN 0 16 (xform_matrixscale frontend1 adc_gain1).
Definition set_matrixscale_ch1_ch2 : float → M unit :=
  set_signed REG_CH0_CH1GAIN 0 16 (xform_matrixscale frontend2 adc_gain2).
Definition set_matrixscale_ch2_ch1 : float → M unit :=
  set_signed REG_CH1_CH0GAIN 0 16 (xform_matrixscale frontend1 adc_gain1).
Definition set_matrixscale_ch2_ch2 : float → M unit :=
  set_signed REG_CH1_CH1GAIN 0 16 (xform_matrixscale frontend2 adc_gain2).

Definition set_input_scale1 : float → M unit :=
  set_signed REG_INPUTSCALE_CH0 0 18 xform_input_scale.
Definition set_input_scale2 : float → M unit :=
  set_signed REG_INPUTSCALE_CH1 0 18 xform_input_scale.
Definition set_output_scale1 : float → M unit :=
  set_signed_div REG_OUTPUTSCALE_CH0 0 18 (output_scale_divisor dac_gain1)
    (xform_output_scale dac_gain1).
Definition set_output_scale2 : float → M unit :=
  set_signed_div REG_OUTPUTSCALE_CH1 0 18 (output_scale_divisor dac_gain2)
    (xform_output_scale dac_gain2).
Definition set_input_offset1 : float → M unit :=
  set_signed REG_INPUTOFFSET_CH0 0 14 (xform_input_offset frontend1).
Definition set_input_offset2 : float → M unit :=
  set_signed REG_INPUTOFFSET_CH1 0 14 (xform_input_offset frontend2).
Definition set_output_offset1 : float → M unit :=
  set_signed_div REG_OUTPUTOFFSET_CH0 0 17 (output_offset_divisor dac_gain1)
    (xform_output_offset dac_gain1).
Definition set_output_offset2 : float → M unit :=
  set_signed_div REG_OUTPUTOFFSET_CH1 0 17 (output_offset_divisor dac_gain2)
    (xform_output_offset dac_gain2).

Definition set_input_en1 (b : bool) : M unit :=
  _accessor_set REG_ENABLE (to_reg_bool 0 b).
Definition set_input_en2 (b : bool) : M unit :=
  _accessor_set REG_ENABLE (to_reg_bool 1 b).
Definition set_output_en1 (b : bool) : M unit :=
  _accessor_set REG_ENABLE (to_reg_bool 2 b).
Definition set_output_en2 (b : bool) : M unit :=
  _accessor_set REG_ENABLE (to_reg_bool 3 b).

Definition set_mon1_source (v : Z) : M unit :=
  _accessor_set REG_MONSELECT (to_reg_unsigned 0 3 v).
Definition set_mon2_source (v : Z) : M unit :=
  _accessor_set REG_MONSELECT (to_reg_unsigned 3 3 v).
Definition mon1_source (s : IIR) : Z :=
  from_reg_unsigned 0 3 (reg_value s REG_MONSELECT).
Definition mon2_source (s : IIR) : Z :=
  from_reg_unsigned 3 3 (reg_value s REG_MONSELECT).

(** ** Coefficient array checks and reshape of [set_filter] *)

Definition row_desc (m : nat) : string :=
  "number of columns in coefficient array row " +:+ pretty m.

(** The array dimension check: [for m in range(4)]. *)
Definition check_dimensions (filter_coefficients : CoeffArray) : E unit :=
  let len := length (rows filter_coefficients) in
  (if decide (len ≠ 5%nat)
   then check_parameter_valid_set len [5%nat] "number of coefficient array rows"
   else inr tt) >>?
  for_E (seq 0 4) (λ m,
    doE row <- elift IndexError (getrow filter_coefficients m);
    if decide (m = 0%nat)
    then if decide (length row ≠ 1%nat)
         then check_parameter_valid_set (length row) [1%nat] (row_desc 0)
         else inr tt
    else if decide (length row ≠ 6%nat)
         then check_parameter_valid_set (length row) [6%nat] (row_desc m)
         else inr tt).

Definition gain_lo : float := (-8e6)%float.
Definition gain_hi : float := (8e6 - 0x1p-24)%float.
Definition coeff_lo : float := (-4)%float.
Definition coeff_hi : float := (4 - 0x1p-45)%float.

(** The source formats this description with [(0, 0)] for every entry. *)
Definition entry_desc : string := "coefficient array entry m = 0, n = 0".

(** The array values check: the gain, then [for m in range(1, 5)],
    [for n in range(6)]. *)
Definition check_values (filter_coefficients : CoeffArray) : E unit :=
  doE g <- elift IndexError (getitem filter_coefficients 0 0);
  check_parameter_valid_range g gain_lo gain_hi entry_desc >>?
  for_E (seq 1 4) (λ m,
    for_E (seq 0 6) (λ n,
      doE c <- elift IndexError (getitem filter_coefficients m n);
      check_parameter_valid_range c coeff_lo coeff_hi entry_desc)).

(** One pass of the loop that multiplies S into B and replaces S by 1.0,
    on the row object itself. *)
Definition fold_gain_into_b (l : list float) : option (list float) :=
  l1 ← imul_item l 1 0;
  l2 ← imul_item l1 2 0;
  l3 ← imul_item l2 3 0;
  setitem l3 0 1%float.

(** Conversion of the input array to the HDL memory map format. *)
Definition reshape (intermediate_filter : CoeffArray) : E CoeffArray :=
  doE a <- fold_E (seq 1 4)
             (λ n a, elift IndexError (update_row a n fold_gain_into_b))
             intermediate_filter;
  doE g <- elift IndexError (getitem a 0 0);
  doE a' <- elift IndexError (update_row a 4 (λ l, setitem l 0 g));
  inr (mkCoeffArray (heap a') (take 4 (drop 1 (rows a')))).

(** ** Coefficient table and payload of [set_filter] *)

(** [coeff_list[x][y][k] = v] *)
Definition coeff_list_set (t : list (list (list Z))) (x y k : nat) (v : Z)
    : list (list (list Z)) :=
  alter (alter (<[k := v]>) y) x t.

Definition coeff_list_get (t : list (list (list Z))) (x y k : nat) : option Z :=
  l ← t !! x; c ← l !! y; c !! k.

(** Loop nests in iteration order. *)
Definition loop_kxy : list (nat * nat * nat) :=
  k ← seq 0 2; x ← seq 0 4; y ← seq 0 6; [(k, x, y)].
Definition loop_kyx : list (nat * nat * nat) :=
  k ← seq 0 2; y ← seq 0 6; x ← seq 0 4; [(k, y, x)].

(** [2**(_IIR_COEFFWIDTH - 24)] and [2**(_IIR_COEFFWIDTH - 3)] as floats. *)
Definition gain_unit : float := 0x1p24%float.
Definition coeff_unit : float := 0x1p45%float.

Definition quantise (y : nat) (c : float) : E Z :=
  if decide (y = 0%nat)
  then int_round (gain_unit * c)%float
  else int_round (coeff_unit * c)%float.

(** [filter_coeffs[n] = self.filter_ch1[n] + self.filter_ch2[n]] *)
Definition filter_coeffs (s : IIR) : E (list (list float)) :=
  fold_E (seq 0 4)
    (λ n acc,
       doE f1 <- elift AttributeError (filter_ch1 s);
       doE r1 <- elift IndexError (getrow f1 n);
       doE f2 <- elift AttributeError (filter_ch2 s);
       doE r2 <- elift IndexError (getrow f2 n);
       inr (<[n := (r1 ++ r2)%list]> acc))
    (replicate 4 (replicate 6 0%float)).

Definition coeff_list (fc : list (list float)) : E (list (list (list Z))) :=
  fold_E loop_kxy
    (λ '(k, x, y) t,
       doE c <- elift IndexError (r ← fc !! x; r !! (y + k * 6)%nat);
       doE v <- quantise y c;
       inr (coeff_list_set t x y k v))
    (replicate 8 (replicate 6 (replicate 2 0))).

(** [f.write(struct.pack('<q', v))] *)
Definition write_q (v : Z) : M unit :=
  do bytes <- lift StructError (pack_q v);
  modify (λ s, with_data_dat s (Some (default [] (data_dat s) ++ bytes)%list)).

(** [with open('.data.dat', 'wb') as f: ...] *)
Definition write_data_dat (t : list (list (list Z))) : M unit :=
  modify (λ s, with_data_dat s (Some [])) >>
  for_M loop_kyx (λ '(k, y, x),
    do v <- lift IndexError (coeff_list_get t x y k);
    write_q v).

(** ** Scale state and frames *)

(** The entries of the scales dictionary that the instrument reads or
    writes. *)
Record Scales : Type := mkScales {
  atten_ch1 : bool;
  atten_ch2 : bool;
  gain_adc1 : float;
  gain_adc2 : float;
  gain_dac1 : float;
  gain_dac2 : float;
  scale_ch1 : float;
  scale_ch2 : float
}.

Fixpoint dict_get {V} (d : list (Z * V)) (k : Z) : option V :=
  match d with
  | [] => None
  | (k', v) :: d' => if decide (k = k') then Some v else dict_get d' k
  end.

(** Modelled from the spec: the Frame Decoder (the frame classes of
    [pymoku/_oscilloscope.py] are not in src).  Each raw sample of a
    channel is multiplied by the channel's scale of the Scale State
    captured with the frame. *)
Definition decode_channel (scale : float) (raw : list float) : list float :=
  map (λ x, (x * scale)%float) raw.

Definition ascii_lower (c : ascii) : ascii :=
  let n := nat_of_ascii c in
  if ((65 <=? n) && (n <=? 90))%nat then ascii_of_nat (n + 32) else c.

(** [str.lower] *)
Fixpoint lower (s : string) : string :=
  match s with
  | EmptyString => EmptyString
  | String c s' => String (ascii_lower c) (lower s')
  end.

Definition str_dict_get {V} (d : list (string * V)) (k : string) : option V :=
  snd <$> find (λ kv, bool_decide (kv.1 = k)) d.

Section Instrument.

(** The two base-class methods that the instrument extends with [super]
    are not in src.  [core_calculate_scales] returns the base scales
    dictionary; [core_update_dependent_regs] stages the base class's own
    dependent registers, or fails when a value does not fit its field. *)
Variable core_calculate_scales : IIR → Scales.
Variable core_update_dependent_regs : Scales → IIR → option (gmap Z Z).

(** *** Scales *)

Definition monitor_source_gains (g_adc1 g_adc2 g_dac1 g_dac2 : float)
    : list (Z * float) :=
  [ (_IIR_MON_NONE, 1%float);
    (_IIR_MON_ADC1, g_adc1);
    (_IIR_MON_IN1, (1 / _ADC_DEFAULT_CALIBRATION)%float);
    (_IIR_MON_OUT1, (g_dac1 * 16)%float);
    (_IIR_MON_ADC2, g_adc2);
    (_IIR_MON_IN2, (1 / _ADC_DEFAULT_CALIBRATION)%float);
    (_IIR_MON_OUT2, (g_dac2 * 16)%float) ].

Definition _calculate_scales (s : IIR) : E Scales :=
  let scales := core_calculate_scales s in
  let g_adc1 := (gain_adc1 scales / (if atten_ch1 scales then 10 else 1))%float in
  let g_adc2 := (gain_adc2 scales / (if atten_ch2 scales then 10 else 1))%float in
  let g_dac1 := gain_dac1 scales in
  let g_dac2 := gain_dac2 scales in
  let gains := monitor_source_gains g_adc1 g_adc2 g_dac1 g_dac2 in
  doE s1 <- elift KeyError (dict_get gains (mon1_source s));
  doE s2 <- elift KeyError (dict_get gains (mon2_source s));
  (* Account for decimation gain in precision mode *)
  doE s1 <- (if is_precision_mode (env s)
             then truediv s1 (_deci_gain (env s)) else inr s1);
  doE s2 <- (if is_precision_mode (env s)
             then truediv s2 (_deci_gain (env s)) else inr s2);
  inr (mkScales (atten_ch1 scales) (atten_ch2 scales)
                (gain_adc1 scales) (gain_adc2 scales)
                (gain_dac1 scales) (gain_dac2 scales) s1 s2).

(** *** Registers recomputed at commit time *)

Definition _update_control_matrix_regs : M unit :=
  do u <- gets user;
  set_matrixscale_ch1_ch1 (_matrixscale_ch1_ch1 u) >>
  set_matrixscale_ch1_ch2 (_matrixscale_ch1_ch2 u) >>
  set_matrixscale_ch2_ch1 (_matrixscale_ch2_ch1 u) >>
  set_matrixscale_ch2_ch2 (_matrixscale_ch2_ch2 u).

Definition _update_gains_offsets_regs : M unit :=
  do u <- gets user;
  set_input_scale1 (_input_scale1 u) >>
  set_output_scale1 (_output_scale1 u) >>
  set_input_offset1 (_input_offset1 u) >>
  set_output_offset1 (_output_offset1 u) >>
  set_input_scale2 (_input_scale2 u) >>
  set_output_scale2 (_output_scale2 u) >>
  set_input_offset2 (_input_offset2 u) >>
  set_output_offset2 (_output_offset2 u).

Definition super_update_dependent_regs (scales : Scales) : M unit :=
  λ s, match core_update_dependent_regs scales s with
       | Some r => (with_localregs s r, inr tt)
       | None => (s, inl RangeOverflowError)
       end.

Definition _update_dependent_regs (scales : Scales) : M unit :=
  super_update_dependent_regs scales >>
  _update_control_matrix_regs >>
  _update_gains_offsets_regs.

(** *** Commit *)

(** One operation of the transport collaborator. *)
Definition transport : M unit :=
  λ s, match link s with
       | [] => (s, inr tt)
       | true :: l => (with_link s l, inr tt)
       | false :: l => (with_link s l, inl TransportError)
       end.

(** Modelled from the spec: [commit] (the commit engine of
    [pymoku/_instrument.py] is not in src).  It snapshots the Scale State,
    recomputes the dependent registers, and hands the staged registers to
    the transport; on success the staged set is cleared, on failure it is
    kept. *)
Definition commit : M unit :=
  do scales <- (λ s, lift_sum (_calculate_scales s) s);
  _update_dependent_regs scales >>
  transport >>
  modify (λ s, with_remoteregs (with_localregs s ∅)
                               (localregs s ∪ remoteregs s)).

(** Modelled from the spec: the [@needs_commit] decorator; the setter
    runs, then the instrument commits.  A setter that raises commits
    nothing. *)
Definition needs_commit {A} (m : M A) : M A :=
  do res <- m; commit >> ret res.

(** Modelled from the spec: [_set_mmap_access], the access-mode flag of
    the exclusive device-memory access, committed at once. *)
Definition _set_mmap_access (access : bool) : M unit :=
  modify (λ s, with_mmap_access s access) >> commit.

(** Modelled from the spec: [_moku._send_file], the bulk binary upload of
    the scratch file. *)
Definition _send_file (tag : string) : M unit :=
  do content <- gets (λ s, default [] (data_dat s));
  transport >>
  modify (λ s, with_sent_files s (sent_files s ++ [(tag, content)])%list).

(** [os.remove('.data.dat')] *)
Definition os_remove : M unit := modify (λ s, with_data_dat s None).

(** [DecFilter.set_samplerate] ([pymoku/_dec_filter.py] is not in src)
    stages the sample-rate setting of a channel; the model keeps the
    factor it was called with. *)
Definition _decfilter1_set_samplerate (factor : Z) : M unit :=
  modify (λ s, with_decfilter1 s (Some factor)).
Definition _decfilter2_set_samplerate (factor : Z) : M unit :=
  modify (λ s, with_decfilter2 s (Some factor)).

(** *** Public setters *)

Definition set_control_matrix (ch : Z) (scale_in1 scale_in2 : float) : M unit :=
  needs_commit (
    lift_sum (check_parameter_valid_set ch [1; 2] "filter channel") >>
    lift_sum (check_parameter_valid_range scale_in1 (-20) 20 "control matrix scale (ch1)") >>
    lift_sum (check_parameter_valid_range scale_in2 (-20) 20 "control matrix scale (ch2)") >>
    (* the quantisation warning is logged, nothing else *)
    if decide (ch = 1)
    then modify (λ s, with_user s
           (let u := user s in
            mkSettings scale_in1 scale_in2
                       (_matrixscale_ch2_ch1 u) (_matrixscale_ch2_ch2 u)
                       (_input_scale1 u) (_output_scale1 u)
                       (_input_offset1 u) (_output_offset1 u)
                       (_input_scale2 u) (_output_scale2 u)
                       (_input_offset2 u) (_output_offset2 u)))
    else modify (λ s, with_user s
           (let u := user s in
            mkSettings (_matrixscale_ch1_ch1 u) (_matrixscale_ch1_ch2 u)
                       scale_in1 scale_in2
                       (_input_scale1 u) (_output_scale1 u)
                       (_input_offset1 u) (_output_offset1 u)
                       (_input_scale2 u) (_output_scale2 u)
                       (_input_offset2 u) (_output_offset2 u)))).

Definition set_filter (ch : Z) (sample_rate : string)
    (filter_coefficients : option CoeffArray) : M unit :=
  lift_sum (check_parameter_valid_set ch [1; 2] "filter channel") >>
  lift_sum (check_parameter_valid_set sample_rate ["high"; "low"] "filter sample rate") >>
  (* Set the filter input samplerate *)
  (let factor := if decide (sample_rate = "high") then 8 else 1024 in
   if decide (ch = 1)
   then _decfilter1_set_samplerate factor
   else _decfilter2_set_samplerate factor) >>
  (* Conversion of input array to HDL memory map format *)
  (match filter_coefficients with
   | Some fc =>
       let intermediate_filter := deepcopy fc in
       lift_sum (check_dimensions fc) >>
       lift_sum (check_values fc) >>
       do intermediate_filter <- lift_sum (reshape intermediate_filter);
       if decide (ch = 1)
       then modify (λ s, with_filter_ch1 s (Some intermediate_filter))
       else modify (λ s, with_filter_ch2 s (Some intermediate_filter))
   | None => ret tt
   end) >>
  (* combine both filter arrays *)
  do fcs <- (λ s, lift_sum (filter_coeffs s) s);
  do t <- lift_sum (coeff_list fcs);
  write_data_dat t >>
  _set_mmap_access true >>
  _send_file "j" >>
  _set_mmap_access false >>
  os_remove >>
  (* Enable the output and input of the set channel *)
  (if decide (ch = 1)
   then set_output_en1 true >> set_input_en1 true
   else set_output_en2 true >> set_input_en2 true) >>
  commit.

Definition disable_output (ch : Z) : M unit :=
  needs_commit (
    if decide (ch = 1) then set_output_en1 false else set_output_en2 false).

Definition set_gains_offsets (ch : Z)
    (input_gain output_gain input_offset output_offset : float) : M unit :=
  needs_commit (
    lift_sum (check_parameter_valid_set ch [1; 2] "filter channel") >>
    lift_sum (check_parameter_valid_range input_gain (-100) 100 "input scale") >>
    lift_sum (check_parameter_valid_range output_gain (-100) 100 "output scale") >>
    lift_sum (check_parameter_valid_range input_offset (-1) 1 "input offset") >>
    lift_sum (check_parameter_valid_range output_offset (-2) 2 "output offset") >>
    if decide (ch = 1)
    then modify (λ s, with_user s
           (let u := user s in
            mkSettings (_matrixscale_ch1_ch1 u) (_matrixscale_ch1_ch2 u)
                       (_matrixscale_ch2_ch1 u) (_matrixscale_ch2_ch2 u)
                       input_gain output_gain input_offset output_offset
                       (_input_scale2 u) (_output_scale2 u)
                       (_input_offset2 u) (_output_offset2 u)))
    else modify (λ s, with_user s
           (let u := user s in
            mkSettings (_matrixscale_ch1_ch1 u) (_matrixscale_ch1_ch2 u)
                       (_matrixscale_ch2_ch1 u) (_matrixscale_ch2_ch2 u)
                       (_input_scale1 u) (_output_scale1 u)
                       (_input_offset1 u) (_output_offset1 u)
                       input_gain output_gain input_offset output_offset))).

Definition sources : list (string * Z) :=
  [ ("none", _IIR_MON_NONE); ("adc1", _IIR_MON_ADC1); ("in1", _IIR_MON_IN1);
    ("out1", _IIR_MON_OUT1); ("adc2", _IIR_MON_ADC2); ("in2", _IIR_MON_IN2);
    ("out2", _IIR_MON_OUT2) ].

Definition set_monitor (ch source : string) : M unit :=
  needs_commit (
    lift_sum (check_parameter_valid_set ch ["a"; "b"] "monitor channel") >>
    lift_sum (check_parameter_valid_set source
                ["adc1"; "in1"; "out1"; "adc2"; "in2"; "out2"] "monitor source") >>
    let ch := lower ch in
    let source := lower source in
    do code <- lift KeyError (str_dict_get sources source);
    if decide (ch = "a") then set_mon1_source code else set_mon2_source code).

(** *** The phases of [set_filter] *)

(** The sample-rate factor goes to the channel's decimation filter. *)
Definition stage_samplerate (ch : Z) (sample_rate : string) : M unit :=
  let factor := if decide (sample_rate = "high") then 8 else 1024 in
  if decide (ch = 1)
  then _decfilter1_set_samplerate factor
  else _decfilter2_set_samplerate factor.

(** The array is checked, reshaped and stored as the channel's filter. *)
Definition convert_and_store (ch : Z) (fc : CoeffArray) : M unit :=
  lift_sum (check_dimensions fc) >>
  lift_sum (check_values fc) >>
  do intermediate_filter <- lift_sum (reshape (deepcopy fc));
  if decide (ch = 1)
  then modify (λ s, with_filter_ch1 s (Some intermediate_filter))
  else modify (λ s, with_filter_ch2 s (Some intermediate_filter)).

(** Both filters are packed, uploaded, and the channel is enabled. *)
Definition upload_and_enable (ch : Z) : M unit :=
  do fcs <- (λ s, lift_sum (filter_coeffs s) s);
  do t <- lift_sum (coeff_list fcs);
  write_data_dat t >>
  _set_mmap_access true >>
  _send_file "j" >>
  _set_mmap_access false >>
  os_remove >>
  (if decide (ch = 1)
   then set_output_en1 true >> set_input_en1 true
   else set_output_en2 true >> set_input_en2 true) >>
  commit.

(** The instrument once the sample rate is staged. *)
Definition staged (ch : Z) (sample_rate : string) (s : IIR) : IIR :=
  (stage_samplerate ch sample_rate s).1.

(** What follows the upload in [set_filter]. *)
Definition after_upload (ch : Z) : M unit :=
  _set_mmap_access false >>
  os_remove >>
  (if decide (ch = 1)
   then set_output_en1 true >> set_input_en1 true
   else set_output_en2 true >> set_input_en2 true) >>
  commit.

End Instrument.

(** ** Concrete instruments *)

(** A base class whose scales dictionary reports the frontend
    attenuation and the calibration gains, and which has no dependent
    registers of its own. *)
Definition plain_scales (s : IIR) : Scales :=
  mkScales (atten (frontend1 (env s))) (atten (frontend2 (env s)))
           (adc_gain1 (env s)) (adc_gain2 (env s))
           (dac_gain1 (env s)) (dac_gain2 (env s)) 1 1.

Definition plain_hook (_ : Scales) (s : IIR) : option (gmap Z Z) :=
  Some (localregs s).

Definition bench_env : Env :=
  mkEnv (mkFrontend true false false) (mkFrontend true false false)
        (0x1p-12, 0x1p-12)%float (0x1p-15, 0x1p-15)%float false 1%float.

(** The instrument as [__init__] leaves it. *)
Definition fresh : IIR :=
  mkIIR ∅ ∅ (mkSettings 0 0 0 0 0 0 0 0 0 0 0 0)
        None None None None false None [] [] bench_env.

(** [b = [1.0,1.0,0.0,0.0,0.0,0.0]; [b,b,b,b]]: four references to one
    row object. *)
Definition allpass : CoeffArray :=
  mkCoeffArray [[1; 1; 0; 0; 0; 0]%float] [0; 0; 0; 0]%nat.

(** The settings that [set_defaults] assigns: all-pass filters, identity
    control matrix, unity gains and zero offsets. *)
Definition after_defaults : IIR :=
  mkIIR ∅ ∅ (mkSettings 1 0 0 1 1 1 0 0 1 1 0 0)
        (Some allpass) (Some allpass) None None false None [] [] bench_env.

(** ** The remaining attributes and methods *)

Definition REG_SAMPLINGFREQ : Z := 124.
Definition REG_FILT_RESET : Z := 62.

(** The readers of the enable bits ([from_reg_unsigned(0,1)] to
    [from_reg_unsigned(3,1)] on the enable register). *)
Definition input_en1 (s : IIR) : Z := from_reg_unsigned 0 1 (reg_value s REG_ENABLE).
Definition input_en2 (s : IIR) : Z := from_reg_unsigned 1 1 (reg_value s REG_ENABLE).
Definition output_en1 (s : IIR) : Z := from_reg_unsigned 2 1 (reg_value s REG_ENABLE).
Definition output_en2 (s : IIR) : Z := from_reg_unsigned 3 1 (reg_value s REG_ENABLE).

Definition set_ch1_sampling_freq (v : Z) : M unit :=
  _accessor_set REG_SAMPLINGFREQ (to_reg_unsigned 0 1 v).
Definition set_ch2_sampling_freq (v : Z) : M unit :=
  _accessor_set REG_SAMPLINGFREQ (to_reg_unsigned 1 1 v).
Definition set_filter_reset (v : bool) : M unit :=
  _accessor_set REG_FILT_RESET (to_reg_bool 0 v).

(** The readers of the signed fields that are recomputed at commit time,
    before their inverse transform. *)
Definition raw_matrixscale_ch1_ch1 (s : IIR) : Z :=
  from_reg_signed 0 16 (reg_value s REG_CH0_CH0GAIN).
Definition raw_matrixscale_ch1_ch2 (s : IIR) : Z :=
  from_reg_signed 0 16 (reg_value s REG_CH0_CH1GAIN).
Definition raw_matrixscale_ch2_ch1 (s : IIR) : Z :=
  from_reg_signed 0 16 (reg_value s REG_CH1_CH0GAIN).
Definition raw_matrixscale_ch2_ch2 (s : IIR) : Z :=
  from_reg_signed 0 16 (reg_value s REG_CH1_CH1GAIN).
Definition raw_input_scale1 (s : IIR) : Z :=
  from_reg_signed 0 18 (reg_value s REG_INPUTSCALE_CH0).
Definition raw_input_scale2 (s : IIR) : Z :=
  from_reg_signed 0 18 (reg_value s REG_INPUTSCALE_CH1).
Definition raw_output_scale1 (s : IIR) : Z :=
  from_reg_signed 0 18 (reg_value s REG_OUTPUTSCALE_CH0).
Definition raw_output_scale2 (s : IIR) : Z :=
  from_reg_signed 0 18 (reg_value s REG_OUTPUTSCALE_CH1).
Definition raw_input_offset1 (s : IIR) : Z :=
  from_reg_signed 0 14 (reg_value s REG_INPUTOFFSET_CH0).
Definition raw_input_offset2 (s : IIR) : Z :=
  from_reg_signed 0 14 (reg_value s REG_INPUTOFFSET_CH1).
Definition raw_output_offset1 (s : IIR) : Z :=
  from_reg_signed 0 17 (reg_value s REG_OUTPUTOFFSET_CH0).
Definition raw_output_offset2 (s : IIR) : Z :=
  from_reg_signed 0 17 (reg_value s REG_OUTPUTOFFSET_CH1).

Definition with_env (s : IIR) (e : Env) : IIR :=
  mkIIR (localregs s) (remoteregs s) (user s) (filter_ch1 s) (filter_ch2 s)
        (_decfilter1 s) (_decfilter2 s) (mmap_access s) (data_dat s)
        (sent_files s) (link s) e.

(** Translation of the IIR trigger sources to oscilloscope sources. *)
Definition _str_to_osc_trig_source : list (string * string) :=
  [ ("a", "in1"); ("b", "in2"); ("in1", "out1"); ("in2", "out2");
    ("ext", "ext") ].

(** [_utils.str_to_val] ([pymoku/_utils.py] is not in src): the value of a
    key of the dictionary; a key that the dictionary lacks is an invalid
    value of the described parameter. *)
Definition str_to_val (valdict : list (string * string)) (key desc : string)
    : E string :=
  elift (ValidationError desc) (str_dict_get valdict key).

Section Base.

(** The base class is a parameter: its scales dictionary and dependent
    registers as before, and the three methods that [set_defaults] and
    [set_trigger] reach through [super] or inherit ([set_frontend]). *)
Variable core_calculate_scales : IIR → Scales.
Variable core_update_dependent_regs : Scales → IIR → option (gmap Z Z).
Variable core_set_defaults : M unit.
Variable set_frontend : Z → bool → bool → bool → M unit.
Variable core_set_trigger :
  string → string → float → bool → bool → string → M unit.

(** Reset the IIR to sane defaults.  The two filters are lists of four
    references to the one row object [b]; no method updates a stored
    filter in place, so the model keeps a store for each. *)
Definition set_defaults : M unit :=
  needs_commit core_calculate_scales core_update_dependent_regs (
    core_set_defaults >>
    set_input_en1 true >>
    set_output_en1 false >>
    set_input_en2 true >>
    set_output_en2 false >>
    set_control_matrix core_calculate_scales core_update_dependent_regs 1 1 0 >>
    set_control_matrix core_calculate_scales core_update_dependent_regs 2 0 1 >>
    set_ch1_sampling_freq 0 >>
    set_ch2_sampling_freq 0 >>
    set_filter_reset false >>
    modify (λ s, with_filter_ch1 s (Some allpass)) >>
    modify (λ s, with_filter_ch2 s (Some allpass)) >>
    set_frontend 1 true false false >>
    set_frontend 2 true false false >>
    set_gains_offsets core_calculate_scales core_update_dependent_regs 1 1 1 0 0 >>
    set_gains_offsets core_calculate_scales core_update_dependent_regs 2 1 1 0 0).

Definition set_trigger (source edge : string) (level : float)
    (hysteresis hf_reject : bool) (mode : string) : M unit :=
  needs_commit core_calculate_scales core_update_dependent_regs (
    let source := lower source in
    lift_sum (check_parameter_valid_set source ["in1"; "in2"; "a"; "b"; "ext"]
                "trigger source") >>
    do source <- lift_sum (str_to_val _str_to_osc_trig_source source
                             "trigger source");
    core_set_trigger source edge level hysteresis hf_reject mode).

End Base.

(** A [set_frontend] that records the frontend of the channel and stages
    nothing else, and a base class with no defaults and no trigger of its
    own. *)
Definition plain_set_frontend (ch : Z) (fiftyr atten ac : bool) : M unit :=
  modify (λ s,
    let e := env s in
    with_env s
      (if decide (ch = 1)
       then mkEnv (mkFrontend fiftyr atten ac) (frontend2 e) (_adc_gains e)
                  (_dac_gains e) (is_precision_mode e) (_deci_gain e)
       else mkEnv (frontend1 e) (mkFrontend fiftyr atten ac) (_adc_gains e)
                  (_dac_gains e) (is_precision_mode e) (_deci_gain e))).

(** ** The arbitrary waveform example *)

Module ArbWaveGenExample.

(** 32bit words *)
Definition LENGTH : nat := Z.to_nat 8192.

(** [struct.pack('<i', v)]: four bytes, two's complement, little endian;
    [struct.error] outside the signed 32-bit range. *)
Definition pack_i (v : Z) : option (list Z) :=
  if (- 2 ^ 31 <=? v) && (v <? 2 ^ 31)
  then Some (le_bytes 4 (v mod 2 ^ 32))
  else None.

(** The words of one channel: [for n in range(8)], the table and then
    [LENGTH - len(table)] zeros (none when the table is longer). *)
Definition channel_words (table : list Z) : list Z :=
  flat_map (λ n : nat,
    (flat_map (λ d, [d]) table
     ++ flat_map (λ i : nat, [0]) (seq 0 (LENGTH - length table)))%list)
    (seq 0 8).

(** The words written to [data.dat], channel 1 then channel 2. *)
Definition data_dat_words (xdata ydata : list Z) : list Z :=
  (channel_words xdata ++ channel_words ydata)%list.

(** The file once every word is packed; [None] when [struct.pack]
    raises. *)
Definition write_file (xdata ydata : list Z) : option (list Z) :=
  mjoin <$> mapM pack_i (data_dat_words xdata ydata).

End ArbWaveGenExample.

(** ** Vocabulary of the statements *)

(** The gain of a monitored signal, by the signal's code: unity for no
    signal, the ADC gain corrected by 10 under frontend attenuation for an
    ADC input, one over the calibration constant for a filter input, and
    sixteen DAC gains for a filter output. *)
Definition source_gain (base : Scales) (source : Z) : option float :=
  match source with
  | 0 => Some 1%float
  | 1 => Some (gain_adc1 base / (if atten_ch1 base then 10 else 1))%float
  | 2 => Some (1 / 3750)%float
  | 3 => Some (gain_dac1 base * 16)%float
  | 4 => Some (gain_adc2 base / (if atten_ch2 base then 10 else 1))%float
  | 5 => Some (1 / 3750)%float
  | 6 => Some (gain_dac2 base * 16)%float
  | _ => None
  end.

Definition coeff_ok (c : float) : bool := in_range c coeff_lo coeff_hi.

Definition gain_ok (g : float) : bool := in_range g gain_lo gain_hi.

(** The inner loop of the values check on one row object, entry by
    entry: a missing entry is an out-of-bounds access, an entry out of
    range a validation error. *)
Fixpoint scan_row (k : nat) (l : list float) : E unit :=
  match k with
  | O => inr tt
  | S k' =>
      match l with
      | [] => inl IndexError
      | c :: l' =>
          check_parameter_valid_range c coeff_lo coeff_hi entry_desc >>?
          scan_row k' l'
      end
  end.

(** The shape of an array: five rows, the first with the single entry
    [G], then the four section rows. *)
Definition has_rows (fc : CoeffArray) (G : float) (r1 r2 r3 r4 : list float) : Prop :=
  length (rows fc) = 5%nat
  ∧ getrow fc 0 = Some [G]
  ∧ getrow fc 1 = Some r1 ∧ getrow fc 2 = Some r2
  ∧ getrow fc 3 = Some r3 ∧ getrow fc 4 = Some r4.

Definition values_ok (G : float) (r1 r2 r3 r4 : list float) : bool :=
  gain_ok G && forallb coeff_ok r1 && forallb coeff_ok r2
            && forallb coeff_ok r3 && forallb coeff_ok r4.

(** [quiet r]: the result is not a validation error. *)
Definition quiet {A} (r : E A) : Prop := ∀ d, r ≠ inl (ValidationError d).

(** The filter stored for a channel. *)
Definition filter_of (ch : Z) (s : IIR) : option CoeffArray :=
  if decide (ch = 1) then filter_ch1 s else filter_ch2 s.

Definition store_filter (ch : Z) (a : CoeffArray) (s : IIR) : IIR :=
  if decide (ch = 1) then with_filter_ch1 s (Some a) else with_filter_ch2 s (Some a).

(** A section row in the memory map format, in the words of the class
    documentation: [b0], [b1] and [b2] are multiplied by the section's
    [s], and the slot of [s] holds [g]. *)
Definition scaled_section (g : float) (l : list float) : option (list float) :=
  match l with
  | s :: b0 :: b1 :: b2 :: rest =>
      Some (g :: b0 * s :: b1 * s :: b2 * s :: rest)%float
  | _ => None
  end.

(** The length of row [m], when the row exists. *)
Definition row_len (a : CoeffArray) (m : nat) : option nat :=
  length <$> getrow a m.

(** The source entry of a table position: component [y] of section [x]
    of channel [k] in the combined rows. *)
Definition source_entry (fcs : list (list float)) (k x y : nat) : option float :=
  r ← fcs !! x; r !! (y + k * 6)%nat.

Definition coeff_step (fcs : list (list float))
    (i : nat * nat * nat) (t : list (list (list Z))) : E (list (list (list Z))) :=
  let '(k, x, y) := i in
  doE c <- elift IndexError (source_entry fcs k x y);
  doE v <- quantise y c;
  inr (coeff_list_set t x y k v).

Definition int64 (v : Z) : Prop := - 2 ^ 63 ≤ v < 2 ^ 63.

(** The eight bytes that [struct.pack('<q', v)] writes. *)
Definition le64 (v : Z) : list Z := le_bytes 8 (v mod 2 ^ 64).

Definition write_entry (t : list (list (list Z))) (i : nat * nat * nat) : M unit :=
  let '(k, y, x) := i in
  do v <- lift IndexError (coeff_list_get t x y k);
  write_q v.

(** The sequence of integers in the payload: position [24 k + 4 y + x]
    holds the fixed-point value of component [y] of section [x] of
    channel [k]. *)
Definition channel_major (fcs : list (list float)) (vs : list Z) : Prop :=
  length vs = 48%nat
  ∧ Forall int64 vs
  ∧ ∀ k y x, (k < 2)%nat → (y < 6)%nat → (x < 4)%nat →
      ∃ c v, source_entry fcs k x y = Some c ∧ quantise y c = inr v
             ∧ vs !! (24 * k + 4 * y + x)%nat = Some v.

(** The bytes of the coefficients of the combined rows, packed in a given
    order of (channel, component, row). *)
Definition payload_in_order (order : list (nat * nat * nat))
    (fcs : list (list float)) : option (list Z) :=
  mjoin <$> mapM (λ '(k, y, x),
    c ← source_entry fcs k x y;
    match quantise y c with
    | inr v => pack_q v
    | inl _ => None
    end) order.

(** Component-major, then channel, then row, as C5 first states the
    order. *)
Definition component_major_order : list (nat * nat * nat) :=
  y ← seq 0 6; k ← seq 0 2; x ← seq 0 4; [(k, y, x)].

(** A gain just below 8e6, with all-pass sections on row objects of their
    own. *)
Definition gain_near_8e6 : CoeffArray :=
  mkCoeffArray [ [8e6 - 0x1p-25]; [1; 1; 0; 0; 0; 0]; [1; 1; 0; 0; 0; 0];
                 [1; 1; 0; 0; 0; 0]; [1; 1; 0; 0; 0; 0] ]%float
               [0; 1; 2; 3; 4]%nat.

(** All-pass sections on row objects of their own, with an overall gain
    of 2. *)
Definition allpass_gain2 : CoeffArray :=
  mkCoeffArray [ [2]; [1; 1; 0; 0; 0; 0]; [1; 1; 0; 0; 0; 0];
                 [1; 1; 0; 0; 0; 0]; [1; 1; 0; 0; 0; 0] ]%float
               [0; 1; 2; 3; 4]%nat.

(** A gain of 9e6 and a fourth section row with no entries. *)
Definition big_gain_empty_row4 : CoeffArray :=
  mkCoeffArray [ [9e6]; [1; 1; 0; 0; 0; 0]; [1; 1; 0; 0; 0; 0];
                 [1; 1; 0; 0; 0; 0]; [] ]%float
               [0; 1; 2; 3; 4]%nat.

(** A gain of 2 and a fourth section row of three entries. *)
Definition three_entry_row4 : CoeffArray :=
  mkCoeffArray [ [2]; [1; 1; 0; 0; 0; 0]; [1; 1; 0; 0; 0; 0];
                 [1; 1; 0; 0; 0; 0]; [1; 1; 0] ]%float
               [0; 1; 2; 3; 4]%nat.

(** All-pass sections given as one row object, with an overall gain of
    2: [b = [1.0, 1.0, 0.0, 0.0, 0.0, 0.0]], [[[2.0], b, b, b, b]]. *)
Definition shared_rows_gain2 : CoeffArray :=
  mkCoeffArray [ [2]; [1; 1; 0; 0; 0; 0] ]%float [0; 1; 1; 1; 1]%nat.

(** The base-class hook leaves the staged value of a register. *)
Definition hook_keeps (core_update_dependent_regs : Scales → IIR → option (gmap Z Z))
    (reg : Z) : Prop :=
  ∀ scales s r, core_update_dependent_regs scales s = Some r →
                r !! reg = localregs s !! reg.

(** The channel of a request: 1, and everything else is taken for 2. *)
Definition output_en (ch : Z) (s : IIR) : Z :=
  if decide (ch = 1) then output_en1 s else output_en2 s.
Definition input_en (ch : Z) (s : IIR) : Z :=
  if decide (ch = 1) then input_en1 s else input_en2 s.
Definition other (ch : Z) : Z := if decide (ch = 1) then 2 else 1.

Definition decfilter_of (ch : Z) (s : IIR) : option Z :=
  if decide (ch = 1) then _decfilter1 s else _decfilter2 s.

Definition int32 (v : Z) : Prop := - 2 ^ 31 ≤ v < 2 ^ 31.

(** The settings with the control matrix row of a channel replaced. *)
Definition with_matrix_row (ch : Z) (scale_in1 scale_in2 : float) (u : Settings)
    : Settings :=
  if decide (ch = 1)
  then mkSettings scale_in1 scale_in2
                  (_matrixscale_ch2_ch1 u) (_matrixscale_ch2_ch2 u)
                  (_input_scale1 u) (_output_scale1 u)
                  (_input_offset1 u) (_output_offset1 u)
                  (_input_scale2 u) (_output_scale2 u)
                  (_input_offset2 u) (_output_offset2 u)
  else mkSettings (_matrixscale_ch1_ch1 u) (_matrixscale_ch1_ch2 u)
                  scale_in1 scale_in2
                  (_input_scale1 u) (_output_scale1 u)
                  (_input_offset1 u) (_output_offset1 u)
                  (_input_scale2 u) (_output_scale2 u)
                  (_input_offset2 u) (_output_offset2 u).

(** The settings with the gains and offsets of a channel replaced. *)
Definition with_gains_offsets (ch : Z)
    (input_gain output_gain input_offset output_offset : float) (u : Settings)
    : Settings :=
  if decide (ch = 1)
  then mkSettings (_matrixscale_ch1_ch1 u) (_matrixscale_ch1_ch2 u)
                  (_matrixscale_ch2_ch1 u) (_matrixscale_ch2_ch2 u)
                  input_gain output_gain input_offset output_offset
                  (_input_scale2 u) (_output_scale2 u)
                  (_input_offset2 u) (_output_offset2 u)
  else mkSettings (_matrixscale_ch1_ch1 u) (_matrixscale_ch1_ch2 u)
                  (_matrixscale_ch2_ch1 u) (_matrixscale_ch2_ch2 u)
                  (_input_scale1 u) (_output_scale1 u)
                  (_input_offset1 u) (_output_offset1 u)
                  input_gain output_gain input_offset output_offset.

(** The checks of the two scalar setters, as one condition each. *)
Definition matrix_request_ok (ch : Z) (scale_in1 scale_in2 : float) : bool :=
  bool_decide (ch ∈ [1; 2]) && in_range scale_in1 (-20) 20
                            && in_range scale_in2 (-20) 20.

Definition gains_request_ok (ch : Z)
    (input_gain output_gain input_offset output_offset : float) : bool :=
  bool_decide (ch ∈ [1; 2]) && in_range input_gain (-100) 100
    && in_range output_gain (-100) 100 && in_range input_offset (-1) 1
    && in_range output_offset (-2) 2.

(** Every error of a result satisfies [P]. *)
Definition errors_in {A} (P : exn → Prop) (r : E A) : Prop :=
  ∀ e, r = inl e → P e.

(** Every stored filter has four rows of at least six entries. *)
Definition filter_wf (o : option CoeffArray) : Prop :=
  match o with
  | None => True
  | Some a =>
      length (rows a) = 4%nat
      ∧ ∀ m, (m < 4)%nat → ∃ l, getrow a m = Some l ∧ (6 ≤ length l)%nat
  end.

Definition sample_rate_factor (sample_rate : string) : Z :=
  if decide (sample_rate = "high") then 8 else 1024.

(** The checks of [set_monitor], as one condition. *)
Definition monitor_request_ok (ch source : string) : bool :=
  bool_decide (ch ∈ ["a"; "b"])
  && bool_decide (source ∈ ["adc1"; "in1"; "out1"; "adc2"; "in2"; "out2"]).

(** The source selected for a monitor channel: [mon1_source] for a,
    [mon2_source] for every other name. *)
Definition mon_source (ch : string) (s : IIR) : Z :=
  if decide (ch = "a") then mon1_source s else mon2_source s.

Definition other_monitor (ch : string) : string :=
  if decide (ch = "a") then "b" else "a".

(** ** Properties *)

(** *** What a method leaves alone *)

(** [Keeps f m]: whether [m] returns or raises, the observation [f] of the
    instrument is the same after as before. *)
Definition Keeps {A X} (f : IIR → X) (m : M A) : Prop :=
  ∀ s, f (m s).1 = f s.

(** [Quiet m]: [m] raises no validation error. *)
Definition Quiet {A} (m : M A) : Prop :=
  ∀ s d, (m s).2 ≠ inl (ValidationError d).

Section Frames.
Context {X : Type} (f : IIR → X).

Lemma keeps_ret {A} (a : A) : Keeps f (ret a).
Proof. by intros s. Qed.

Lemma keeps_raise {A} e : Keeps f (raise (A := A) e).
Proof. by intros s. Qed.

Lemma keeps_gets {A} (g : IIR → A) : Keeps f (gets g).
Proof. by intros s. Qed.

Lemma keeps_lift {A} e (o : option A) : Keeps f (lift e o).
Proof. by destruct o. Qed.

Lemma keeps_lift_sum {A} (r : E A) : Keeps f (lift_sum r).
Proof. by destruct r. Qed.

Lemma keeps_read {A} (g : IIR → E A) : Keeps f (λ s, lift_sum (g s) s).
Proof. intros s. by destruct (g s). Qed.

Lemma keeps_modify (g : IIR → IIR) : (∀ s, f (g s) = f s) → Keeps f (modify g).
Proof. intros H s. apply H. Qed.

Lemma keeps_bind {A B} (m : M A) (k : A → M B) :
  Keeps f m → (∀ a, Keeps f (k a)) → Keeps f (bind m k).
Proof.
  intros Hm Hk s. unfold bind.
  destruct (m s) as [s1 [e | a]] eqn:Hs; simpl.
  - by rewrite <- (Hm s), Hs.
  - rewrite (Hk a s1). by rewrite <- (Hm s), Hs.
Qed.

Lemma keeps_for_M {A} (l : list A) (body : A → M unit) :
  (∀ a, Keeps f (body a)) → Keeps f (for_M l body).
Proof.
  intros Hb. induction l as [| a l IH]; simpl.
  - apply keeps_ret.
  - apply keeps_bind; auto.
Qed.

Hypothesis f_localregs : ∀ s r, f (with_localregs s r) = f s.

Lemma keeps_accessor_set reg xf : Keeps f (_accessor_set reg xf).
Proof.
  intros s. unfold _accessor_set.
  destruct (xf (reg_value s reg)); simpl; auto.
Qed.

Lemma keeps_set_signed reg offset len xf x :
  Keeps f (set_signed reg offset len xf x).
Proof.
  unfold set_signed. apply keeps_bind; [apply keeps_gets |]. intros obj.
  apply keeps_bind; [apply keeps_lift_sum |]. intros raw.
  apply keeps_accessor_set.
Qed.

Lemma keeps_set_signed_div reg offset len den xf x :
  Keeps f (set_signed_div reg offset len den xf x).
Proof.
  unfold set_signed_div. apply keeps_bind; [apply keeps_gets |]. intros obj.
  apply keeps_bind; [apply keeps_lift_sum | intros _].
  apply keeps_set_signed.
Qed.

Lemma keeps_update_control_matrix_regs : Keeps f _update_control_matrix_regs.
Proof.
  unfold _update_control_matrix_regs.
  apply keeps_bind; [apply keeps_gets | intros u].
  repeat (apply keeps_bind; [apply keeps_set_signed | intros _]).
  apply keeps_set_signed.
Qed.

Lemma keeps_update_gains_offsets_regs : Keeps f _update_gains_offsets_regs.
Proof.
  unfold _update_gains_offsets_regs.
  apply keeps_bind; [apply keeps_gets | intros u].
  repeat (apply keeps_bind;
            [first [apply keeps_set_signed | apply keeps_set_signed_div]
            | intros _]).
  apply keeps_set_signed_div.
Qed.

Hypothesis f_remoteregs : ∀ s r, f (with_remoteregs s r) = f s.
Hypothesis f_link : ∀ s l, f (with_link s l) = f s.

Variable core_calculate_scales : IIR → Scales.
Variable core_update_dependent_regs : Scales → IIR → option (gmap Z Z).

Lemma keeps_transport : Keeps f transport.
Proof.
  intros s. unfold transport. destruct (link s) as [| [] l]; simpl; auto.
Qed.

Lemma keeps_update_dependent_regs scales :
  Keeps f (_update_dependent_regs core_update_dependent_regs scales).
Proof.
  unfold _update_dependent_regs.
  apply keeps_bind; [| intros; apply keeps_bind; intros].
  - intros s. unfold super_update_dependent_regs.
    destruct (core_update_dependent_regs scales s); simpl; auto.
  - apply keeps_update_control_matrix_regs.
  - apply keeps_update_gains_offsets_regs.
Qed.

Lemma keeps_commit :
  Keeps f (commit core_calculate_scales core_update_dependent_regs).
Proof.
  unfold commit.
  apply keeps_bind; [apply keeps_read | intros scales].
  apply keeps_bind; [apply keeps_update_dependent_regs | intros].
  apply keeps_bind; [apply keeps_transport | intros].
  apply keeps_modify. intros s. by rewrite f_remoteregs, f_localregs.
Qed.

End Frames.

(** *** Validation of the scalar setters *)

Section Setters.
Variable core_calculate_scales : IIR → Scales.
Variable core_update_dependent_regs : Scales → IIR → option (gmap Z Z).

Abbreviation set_control_matrix' :=
  (set_control_matrix core_calculate_scales core_update_dependent_regs).
Abbreviation set_gains_offsets' :=
  (set_gains_offsets core_calculate_scales core_update_dependent_regs).
Abbreviation set_filter' :=
  (set_filter core_calculate_scales core_update_dependent_regs).

(** A control-matrix request with a bad channel or a scale outside
    [-20, 20] raises the validation error of the first failing check and
    assigns nothing. *)
Lemma set_control_matrix_invalid ch scale_in1 scale_in2 s :
  ch ∉ [1; 2] ∨ in_range scale_in1 (-20) 20 = false
              ∨ in_range scale_in2 (-20) 20 = false →
  ∃ desc, set_control_matrix' ch scale_in1 scale_in2 s
          = (s, inl (ValidationError desc)).
Proof.
  intros H.
  unfold set_control_matrix, needs_commit, bind, lift_sum,
    check_parameter_valid_set, check_parameter_valid_range.
  destruct (decide (ch ∈ [1; 2])) as [Hch | Hch]; simpl; [| eauto].
  destruct (in_range scale_in1 (-20) 20) eqn:H1; simpl; [| eauto].
  destruct (in_range scale_in2 (-20) 20) eqn:H2; simpl; [| eauto].
  destruct H as [H | [H | H]]; [contradiction | discriminate | discriminate].
Qed.

(** A gains-and-offsets request with a bad channel or a value outside its
    range raises a validation error and assigns nothing. *)
Lemma set_gains_offsets_invalid ch input_gain output_gain input_offset output_offset s :
  ch ∉ [1; 2] ∨ in_range input_gain (-100) 100 = false
              ∨ in_range output_gain (-100) 100 = false
              ∨ in_range input_offset (-1) 1 = false
              ∨ in_range output_offset (-2) 2 = false →
  ∃ desc, set_gains_offsets' ch input_gain output_gain input_offset output_offset s
          = (s, inl (ValidationError desc)).
Proof.
  intros H.
  unfold set_gains_offsets, needs_commit, bind, lift_sum,
    check_parameter_valid_set, check_parameter_valid_range.
  destruct (decide (ch ∈ [1; 2])) as [Hch | Hch]; simpl; [| eauto].
  destruct (in_range input_gain (-100) 100) eqn:H1; simpl; [| eauto].
  destruct (in_range output_gain (-100) 100) eqn:H2; simpl; [| eauto].
  destruct (in_range input_offset (-1) 1) eqn:H3; simpl; [| eauto].
  destruct (in_range output_offset (-2) 2) eqn:H4; simpl; [| eauto].
  destruct H as [H | [H | [H | [H | H]]]]; try contradiction; discriminate.
Qed.

(** C9: [set_control_matrix(1, 25, 0)] raises the validation error of the
    channel-1 scale, 25 being outside [-20, 20], and the instrument -- its
    four stored matrix scales included -- is as it was before the call. *)
Theorem set_control_matrix_25_rejected (s : IIR) :
  set_control_matrix' 1 25 0 s
    = (s, inl (ValidationError "control matrix scale (ch1)"))
  ∧ in_range 25 (-20) 20 = false
  ∧ let s' := (set_control_matrix' 1 25 0 s).1 in
    _matrixscale_ch1_ch1 (user s') = _matrixscale_ch1_ch1 (user s)
    ∧ _matrixscale_ch1_ch2 (user s') = _matrixscale_ch1_ch2 (user s)
    ∧ _matrixscale_ch2_ch1 (user s') = _matrixscale_ch2_ch1 (user s)
    ∧ _matrixscale_ch2_ch2 (user s') = _matrixscale_ch2_ch2 (user s).
Proof.
  assert (Hcall : set_control_matrix' 1 25 0 s
                  = (s, inl (ValidationError "control matrix scale (ch1)"))).
  { unfold set_control_matrix, needs_commit, bind, lift_sum,
      check_parameter_valid_set, check_parameter_valid_range.
    reflexivity. }
  split; [exact Hcall |]. split; [reflexivity |].
  rewrite Hcall. done.
Qed.

(** C2, at the failing input: a one-row coefficient array is rejected by
    the dimension check, yet the call has already staged the sample-rate
    factor on the channel's decimation filter, so the instrument is not
    as it was before the call. *)
Theorem set_filter_invalid_array_stages_samplerate :
  let one_row := mkCoeffArray [[1%float]] [0%nat] in
  (∀ s, set_filter' 1 "high" (Some one_row) s
        = (with_decfilter1 s (Some 8),
           inl (ValidationError "number of coefficient array rows")))
  ∧ _decfilter1 fresh = None
  ∧ _decfilter1 (set_filter' 1 "high" (Some one_row) fresh).1 = Some 8
  ∧ (set_filter' 1 "high" (Some one_row) fresh).1 ≠ fresh.
Proof.
  intros one_row.
  assert (Hcall : ∀ s, set_filter' 1 "high" (Some one_row) s
                  = (with_decfilter1 s (Some 8),
                     inl (ValidationError "number of coefficient array rows"))).
  { reflexivity. }
  split; [exact Hcall |]. rewrite Hcall. simpl.
  repeat split. intros Heq. apply (f_equal _decfilter1) in Heq. discriminate.
Qed.

(** [disable_output] validates nothing: a channel outside [{1, 2}] is
    taken for channel 2. *)
Lemma disable_output_unchecked ch s :
  ch ≠ 1 →
  disable_output core_calculate_scales core_update_dependent_regs ch s
  = disable_output core_calculate_scales core_update_dependent_regs 2 s.
Proof.
  intros Hch. unfold disable_output. by destruct (decide (ch = 1)).
Qed.

End Setters.

(** C6, at the failing input: the link carries the commit that enables
    the exclusive memory access and then drops the upload.  [set_filter]
    raises the transport error and the access mode is still enabled. *)
Theorem set_filter_upload_failure_keeps_mmap_access :
  let s := with_link after_defaults [true; false] in
  let r := set_filter plain_scales plain_hook 1 "high" None s in
  mmap_access s = false
  ∧ r.2 = inl TransportError
  ∧ mmap_access r.1 = true
  ∧ sent_files r.1 = [].
Proof. vm_compute. repeat split; reflexivity. Qed.

(** *** The value codec *)

Lemma testbit_small u len n : 0 ≤ u < 2 ^ len → len ≤ n → Z.testbit u n = false.
Proof.
  intros Hu Hn.
  assert (0 ≤ len).
  { destruct (Z_lt_le_dec len 0) as [Hneg | ?]; [| done].
    rewrite (Z.pow_neg_r 2 len Hneg) in Hu. lia. }
  rewrite <- (Z.mod_small u (2 ^ len)) by lia.
  apply Z.mod_pow2_bits_high. lia.
Qed.

(** A field that was packed reads back, whatever the register held. *)
Lemma from_reg_unsigned_put_field offset len u old :
  0 ≤ offset → 0 ≤ len → 0 ≤ u < 2 ^ len →
  from_reg_unsigned offset len (put_field offset len u old) = u.
Proof.
  intros Hoff Hlen Hu. unfold from_reg_unsigned, put_field, field_mask.
  apply Z.bits_inj'. intros n Hn.
  rewrite Z.land_spec, Z.shiftr_spec, Z.lor_spec, Z.land_spec, Z.lnot_spec,
    !Z.shiftl_spec by lia.
  replace (n + offset - offset) with n by lia.
  destruct (Z_lt_le_dec n len) as [Hlt | Hge].
  - rewrite Z.ones_spec_low by lia. simpl.
    rewrite andb_false_r, andb_true_r. reflexivity.
  - rewrite Z.ones_spec_high by lia. rewrite andb_false_r.
    symmetry. eapply testbit_small; eauto.
Qed.

Lemma from_reg_unsigned_nonneg offset len reg :
  0 ≤ len → 0 ≤ from_reg_unsigned offset len reg.
Proof.
  intros Hlen. unfold from_reg_unsigned. apply Z.land_nonneg. right.
  rewrite Z.ones_equiv. pose proof (Z.pow_pos_nonneg 2 len). lia.
Qed.

(** Signed encode, then decode, is the identity on the field's range. *)
Lemma from_reg_signed_to_reg_signed offset len v old :
  0 ≤ offset → 0 < len → - 2 ^ (len - 1) ≤ v < 2 ^ (len - 1) →
  ∃ new, to_reg_signed offset len v old = Some new
         ∧ from_reg_signed offset len new = v
         ∧ from_reg_unsigned offset len new = v mod 2 ^ len.
Proof.
  intros Hoff Hlen Hv.
  assert (Hpow : 2 ^ len = 2 * 2 ^ (len - 1)).
  { replace len with (Z.succ (len - 1)) at 1 by lia.
    rewrite Z.pow_succ_r by lia. reflexivity. }
  assert (Hpos : 0 < 2 ^ (len - 1)) by (apply Z.pow_pos_nonneg; lia).
  unfold to_reg_signed.
  destruct (Z.leb_spec (- 2 ^ (len - 1)) v); [| lia].
  destruct (Z.ltb_spec v (2 ^ (len - 1))); [| lia]. simpl.
  eexists. split; [reflexivity |].
  unfold from_reg_signed.
  destruct (Z.ltb_spec v 0).
  - rewrite from_reg_unsigned_put_field by lia.
    destruct (Z.ltb_spec (v + 2 ^ len) (2 ^ (len - 1))); [lia |].
    split; [lia |].
    apply Z.mod_unique with (q := -1); lia.
  - rewrite from_reg_unsigned_put_field by lia.
    destruct (Z.ltb_spec v (2 ^ (len - 1))); [| lia].
    split; [reflexivity |]. symmetry. apply Z.mod_small. lia.
Qed.

(** *** Calling conventions of the state-passing style *)

Lemma bind_inr {A B} (m : M A) (k : A → M B) s s' a :
  m s = (s', inr a) → bind m k s = k a s'.
Proof. intros H. unfold bind. by rewrite H. Qed.

Lemma bind_assoc {A B C} (m : M A) (k : A → M B) (h : B → M C) s :
  bind (bind m k) h s = bind m (λ a, bind (k a) h) s.
Proof. unfold bind. by destruct (m s) as [s1 [e | a]]. Qed.

Lemma bind_inl {A B} (m : M A) (k : A → M B) s s' e :
  m s = (s', inl e) → bind m k s = (s', inl e).
Proof. intros H. unfold bind. by rewrite H. Qed.

Lemma reg_value_staged s reg v :
  reg_value (with_localregs s (<[reg := v]> (localregs s))) reg = v.
Proof. unfold reg_value. simpl. by rewrite lookup_insert_eq. Qed.

Lemma reg_value_staged_ne s reg reg' v :
  reg' ≠ reg →
  reg_value (with_localregs s (<[reg' := v]> (localregs s))) reg = reg_value s reg.
Proof. intros H. unfold reg_value. simpl. by rewrite lookup_insert_ne. Qed.

(** A write to one register leaves the value of every other register. *)
Lemma keeps_reg_accessor_set r0 reg xf :
  reg ≠ r0 → Keeps (λ s, reg_value s r0) (_accessor_set reg xf).
Proof.
  intros Hne s. unfold _accessor_set.
  destruct (xf (reg_value s reg)); simpl; [| done].
  by apply reg_value_staged_ne.
Qed.

Lemma keeps_reg_set_signed r0 reg offset len xf x :
  reg ≠ r0 → Keeps (λ s, reg_value s r0) (set_signed reg offset len xf x).
Proof.
  intros Hne. unfold set_signed.
  apply keeps_bind; [apply keeps_gets | intros obj].
  apply keeps_bind; [apply keeps_lift_sum | intros raw].
  by apply keeps_reg_accessor_set.
Qed.

Lemma keeps_reg_set_signed_div r0 reg offset len den xf x :
  reg ≠ r0 → Keeps (λ s, reg_value s r0) (set_signed_div reg offset len den xf x).
Proof.
  intros Hne. unfold set_signed_div.
  apply keeps_bind; [apply keeps_gets | intros obj].
  apply keeps_bind; [apply keeps_lift_sum | intros _].
  by apply keeps_reg_set_signed.
Qed.


(** *** Registers recomputed at commit time *)

Section DependentRegs.
Variable core_update_dependent_regs : Scales → IIR → option (gmap Z Z).


End DependentRegs.


(** *** Frame scales *)

Lemma monitor_source_cases (v : Z) :
  0 ≤ v ≤ 6 → v = 0 ∨ v = 1 ∨ v = 2 ∨ v = 3 ∨ v = 4 ∨ v = 5 ∨ v = 6.
Proof. lia. Qed.

Lemma mon1_source_nonneg s : 0 ≤ mon1_source s.
Proof. by apply from_reg_unsigned_nonneg. Qed.

Lemma mon2_source_nonneg s : 0 ≤ mon2_source s.
Proof. by apply from_reg_unsigned_nonneg. Qed.

Section FrameScales.
Variable core_calculate_scales : IIR → Scales.

(** The lookup of [_calculate_scales] finds the gain of every signal
    code. *)
Lemma monitor_source_gains_lookup base v :
  0 ≤ v ≤ 6 →
  ∃ g, source_gain base v = Some g
       ∧ dict_get (monitor_source_gains
                     (gain_adc1 base / (if atten_ch1 base then 10 else 1))
                     (gain_adc2 base / (if atten_ch2 base then 10 else 1))
                     (gain_dac1 base) (gain_dac2 base)) v = Some g.
Proof.
  intros Hv.
  destruct (monitor_source_cases v Hv) as [-> | [-> | [-> | [-> | [-> | [-> | ->]]]]]];
    eexists; split; reflexivity.
Qed.

(** C8: for every monitor source selected on the two monitor channels, the
    channel scales of the frame are the gains that the lookup table holds
    for the monitored signals -- the ADC entries corrected by a factor of
    10 when the frontend attenuation is enabled -- and in precision mode
    each channel scale is further divided by the decimation gain; that
    division raises on a decimation gain of zero, and then no scale is
    returned. *)
Theorem calculate_scales_per_source (s : IIR) :
  mon1_source s ≤ 6 → mon2_source s ≤ 6 →
  let base := core_calculate_scales s in
  ∃ g1 g2,
    source_gain base (mon1_source s) = Some g1
    ∧ source_gain base (mon2_source s) = Some g2
    ∧ if is_precision_mode (env s)
      then if (_deci_gain (env s) =? 0)%float
           then _calculate_scales core_calculate_scales s = inl ZeroDivisionError
           else ∃ scales,
                  _calculate_scales core_calculate_scales s = inr scales
                  ∧ scale_ch1 scales = (g1 / _deci_gain (env s))%float
                  ∧ scale_ch2 scales = (g2 / _deci_gain (env s))%float
      else ∃ scales,
             _calculate_scales core_calculate_scales s = inr scales
             ∧ scale_ch1 scales = g1 ∧ scale_ch2 scales = g2.
Proof.
  intros H1 H2 base.
  destruct (monitor_source_gains_lookup base (mon1_source s))
    as (g1 & Hg1 & Hd1); [pose proof (mon1_source_nonneg s); lia |].
  destruct (monitor_source_gains_lookup base (mon2_source s))
    as (g2 & Hg2 & Hd2); [pose proof (mon2_source_nonneg s); lia |].
  exists g1, g2. split; [done |]. split; [done |].
  unfold _calculate_scales. fold base. rewrite Hd1, Hd2.
  cbn [elift ebind]. unfold truediv, nonzero.
  destruct (is_precision_mode (env s)).
  - destruct (_deci_gain (env s) =? 0)%float; [done |].
    cbn [ebind]. eexists. repeat split; done.
  - cbn [ebind]. eexists. repeat split; done.
Qed.

(** C3: with the filter output 1 monitored on channel a and precision
    mode off, the channel scale is gain_dac1 * 2^4, so every decoded
    sample of channel a is its raw sample times gain_dac1 * 16.  The
    frontend impedance does not enter the computation: the statement
    holds with fiftyr set as with fiftyr clear. *)
Theorem decode_channel_a_out1 (s : IIR) (raw : list float) :
  mon1_source s = _IIR_MON_OUT1 → mon2_source s ≤ 6 →
  is_precision_mode (env s) = false →
  ∃ scales,
    _calculate_scales core_calculate_scales s = inr scales
    ∧ scale_ch1 scales = (gain_dac1 (core_calculate_scales s) * 16)%float
    ∧ decode_channel (scale_ch1 scales) raw
      = map (λ x, x * (gain_dac1 (core_calculate_scales s) * 16))%float raw.
Proof.
  intros H1 H2 Hprec.
  destruct (monitor_source_gains_lookup (core_calculate_scales s) (mon2_source s))
    as (g2 & _ & Hd2); [pose proof (mon2_source_nonneg s); lia |].
  unfold _calculate_scales. rewrite H1, Hd2, Hprec. simpl.
  eexists. repeat split; reflexivity.
Qed.

End FrameScales.

(** The theorem on a frame of three raw samples, with the monitor select
    register holding out1 for channel a and adc1 for channel b. *)
Lemma decode_channel_a_out1_witness :
  let s := with_localregs after_defaults {[ REG_MONSELECT := 11 ]} in
  ∃ scales,
    _calculate_scales plain_scales s = inr scales
    ∧ scale_ch1 scales = (gain_dac1 (plain_scales s) * 16)%float
    ∧ decode_channel (scale_ch1 scales) [1; -2; 2047]%float
      = map (λ x, x * (gain_dac1 (plain_scales s) * 16))%float [1; -2; 2047]%float.
Proof.
  apply (decode_channel_a_out1 plain_scales
           (with_localregs after_defaults {[ REG_MONSELECT := 11 ]})).
  - vm_compute. reflexivity.
  - vm_compute. discriminate.
  - reflexivity.
Defined.

(** The theorem in precision mode with a decimation gain of 4, ADC input
    2 monitored on channel a and the filter input 1 on channel b. *)
Lemma calculate_scales_per_source_witness :
  let e := mkEnv (mkFrontend true false false) (mkFrontend true false false)
                 (0x1p-12, 0x1p-12)%float (0x1p-15, 0x1p-15)%float true 4%float in
  let s := with_env (with_localregs after_defaults {[ REG_MONSELECT := 20 ]}) e in
  ∃ g1 g2,
    source_gain (plain_scales s) (mon1_source s) = Some g1
    ∧ source_gain (plain_scales s) (mon2_source s) = Some g2
    ∧ ∃ scales,
        _calculate_scales plain_scales s = inr scales
        ∧ scale_ch1 scales = (g1 / 4)%float
        ∧ scale_ch2 scales = (g2 / 4)%float.
Proof.
  intros e s.
  apply (calculate_scales_per_source plain_scales s).
  - vm_compute. discriminate.
  - vm_compute. discriminate.
Defined.

(** *** The coefficient array checks *)

Lemma ebind_tt_r (m : E unit) : (m >>? inr tt) = m.
Proof. by destruct m as [e | []]. Qed.

Lemma getitem_row fc m n r : getrow fc m = Some r → getitem fc m n = r !! n.
Proof. intros H. unfold getitem. by rewrite H. Qed.

Lemma for_E_scan_row fc m r :
  getrow fc m = Some r →
  ∀ k i,
    for_E (seq i k) (λ n,
      doE c <- elift IndexError (getitem fc m n);
      check_parameter_valid_range c coeff_lo coeff_hi entry_desc)
    = scan_row k (drop i r).
Proof.
  intros Hrow k. induction k as [| k IH]; intros i; [done |].
  simpl. rewrite (getitem_row _ _ _ _ Hrow).
  destruct (r !! i) as [c |] eqn:Hc.
  - rewrite (drop_S _ _ _ Hc). simpl. by rewrite IH.
  - rewrite drop_ge by (by apply lookup_ge_None). done.
Qed.

Lemma for_E_no_row fc m k i :
  getrow fc m = None →
  for_E (seq i (S k)) (λ n,
    doE c <- elift IndexError (getitem fc m n);
    check_parameter_valid_range c coeff_lo coeff_hi entry_desc)
  = inl IndexError.
Proof. intros H. simpl. unfold getitem. by rewrite H. Qed.

Lemma scan_row_passes k l :
  scan_row k l = inr tt ↔ (k ≤ length l)%nat ∧ forallb coeff_ok (take k l) = true.
Proof.
  revert l. induction k as [| k IH]; intros l; simpl.
  - split; [intros _; split; [lia | done] | done].
  - destruct l as [| c l]; simpl.
    + split; [done | intros [? _]; lia].
    + unfold check_parameter_valid_range, coeff_ok.
      destruct (in_range c coeff_lo coeff_hi); simpl.
      * rewrite IH. unfold coeff_ok. split; intros [? ?]; split; auto; lia.
      * split; [done | intros [_ ?]; done].
Qed.

Lemma scan_row_short k l :
  (length l < k)%nat → forallb coeff_ok l = true → scan_row k l = inl IndexError.
Proof.
  revert l. induction k as [| k IH]; intros l Hlen Hok; [lia |].
  destruct l as [| c l]; simpl in *; [done |].
  apply andb_prop in Hok as [Hc Hl]. unfold check_parameter_valid_range.
  unfold coeff_ok in Hc. rewrite Hc. simpl. apply IH; [lia | done].
Qed.

Lemma scan_row_out_of_range k l :
  forallb coeff_ok (take k l) = false →
  scan_row k l = inl (ValidationError entry_desc).
Proof.
  revert l. induction k as [| k IH]; intros l Hbad; [by rewrite take_0 in Hbad |].
  destruct l as [| c l]; simpl in *; [done |].
  unfold check_parameter_valid_range. unfold coeff_ok in Hbad at 1.
  destruct (in_range c coeff_lo coeff_hi); simpl in *; [by apply IH | done].
Qed.

(** The dimension check looks at the number of rows and at the lengths of
    rows 0 to 3, and at nothing else. *)
Lemma check_dimensions_passes fc G r1 r2 r3 r4 :
  has_rows fc G r1 r2 r3 r4 →
  length r1 = 6%nat → length r2 = 6%nat → length r3 = 6%nat →
  check_dimensions fc = inr tt.
Proof.
  intros (Hlen & H0 & H1 & H2 & H3 & _) L1 L2 L3.
  unfold check_dimensions. rewrite Hlen. simpl.
  rewrite H0, H1, H2, H3. simpl. rewrite L1, L2, L3.
  repeat (case_decide; [congruence |]). done.
Qed.

(** The values check on an array of known rows. *)
Lemma check_values_rows fc G r1 r2 r3 r4 :
  has_rows fc G r1 r2 r3 r4 →
  check_values fc
  = (check_parameter_valid_range G gain_lo gain_hi entry_desc >>?
     scan_row 6 r1 >>? scan_row 6 r2 >>? scan_row 6 r3 >>? scan_row 6 r4).
Proof.
  intros (Hlen & H0 & H1 & H2 & H3 & H4).
  unfold check_values. rewrite (getitem_row _ _ _ _ H0).
  change (seq 1 4) with [1; 2; 3; 4]%nat.
  cbn [for_E elift lookup list_lookup ebind].
  rewrite (for_E_scan_row _ _ _ H1 6 0), (for_E_scan_row _ _ _ H2 6 0),
    (for_E_scan_row _ _ _ H3 6 0), (for_E_scan_row _ _ _ H4 6 0).
  rewrite !drop_0.
  by rewrite ebind_tt_r.
Qed.

Lemma scan_row_full l :
  length l = 6%nat →
  scan_row 6 l = if forallb coeff_ok l then inr tt
                 else inl (ValidationError entry_desc).
Proof.
  intros Hlen. destruct (forallb coeff_ok l) eqn:Hok.
  - apply scan_row_passes. rewrite firstn_all2 by lia. split; [lia | done].
  - apply scan_row_out_of_range. by rewrite firstn_all2 by lia.
Qed.

Lemma scan_row_partial l :
  (length l < 6)%nat →
  scan_row 6 l = if forallb coeff_ok l then inl IndexError
                 else inl (ValidationError entry_desc).
Proof.
  intros Hlen. destruct (forallb coeff_ok l) eqn:Hok.
  - by apply scan_row_short.
  - apply scan_row_out_of_range. by rewrite firstn_all2 by lia.
Qed.

(** The values check on an array whose rows 1 to 3 have six entries and
    whose row 4 is short. *)
Lemma check_values_short_row4 fc G r1 r2 r3 r4 :
  has_rows fc G r1 r2 r3 r4 →
  length r1 = 6%nat → length r2 = 6%nat → length r3 = 6%nat →
  (length r4 < 6)%nat →
  check_values fc = if values_ok G r1 r2 r3 r4 then inl IndexError
                    else inl (ValidationError entry_desc).
Proof.
  intros Hrows L1 L2 L3 L4. rewrite (check_values_rows _ _ _ _ _ _ Hrows).
  rewrite (scan_row_full r1), (scan_row_full r2), (scan_row_full r3),
    (scan_row_partial r4) by done.
  unfold values_ok, check_parameter_valid_range, gain_ok.
  destruct (in_range G gain_lo gain_hi); [| done].
  destruct (forallb coeff_ok r1); [| done].
  destruct (forallb coeff_ok r2); [| done].
  destruct (forallb coeff_ok r3); [| done].
  by destruct (forallb coeff_ok r4).
Qed.

(** The values check on an array of the documented shape. *)
Lemma check_values_full fc G r1 r2 r3 r4 :
  has_rows fc G r1 r2 r3 r4 →
  length r1 = 6%nat → length r2 = 6%nat → length r3 = 6%nat →
  length r4 = 6%nat →
  check_values fc = if values_ok G r1 r2 r3 r4 then inr tt
                    else inl (ValidationError entry_desc).
Proof.
  intros Hrows L1 L2 L3 L4. rewrite (check_values_rows _ _ _ _ _ _ Hrows).
  rewrite (scan_row_full r1), (scan_row_full r2), (scan_row_full r3),
    (scan_row_full r4) by done.
  unfold values_ok, check_parameter_valid_range, gain_ok.
  destruct (in_range G gain_lo gain_hi); [| done].
  destruct (forallb coeff_ok r1); [| done].
  destruct (forallb coeff_ok r2); [| done].
  destruct (forallb coeff_ok r3); [| done].
  by destruct (forallb coeff_ok r4).
Qed.

(** *** [set_filter], phase by phase *)

Section SetFilter.
Variable core_calculate_scales : IIR → Scales.
Variable core_update_dependent_regs : Scales → IIR → option (gmap Z Z).

Abbreviation set_filter' :=
  (set_filter core_calculate_scales core_update_dependent_regs).

Lemma set_filter_phases ch sample_rate filter_coefficients :
  set_filter' ch sample_rate filter_coefficients
  = (lift_sum (check_parameter_valid_set ch [1; 2] "filter channel") >>
     lift_sum (check_parameter_valid_set sample_rate ["high"; "low"]
                 "filter sample rate") >>
     stage_samplerate ch sample_rate >>
     (match filter_coefficients with
      | Some fc => convert_and_store ch fc
      | None => ret tt
      end) >>
     upload_and_enable core_calculate_scales core_update_dependent_regs ch).
Proof. reflexivity. Qed.

Lemma stage_samplerate_returns ch sample_rate s :
  stage_samplerate ch sample_rate s = (staged ch sample_rate s, inr tt).
Proof. unfold staged, stage_samplerate. by destruct (decide (ch = 1)). Qed.

Lemma set_filter_checked ch sample_rate filter_coefficients s :
  ch ∈ [1; 2] → sample_rate ∈ ["high"; "low"] →
  set_filter' ch sample_rate filter_coefficients s
  = ((match filter_coefficients with
      | Some fc => convert_and_store ch fc
      | None => ret tt
      end) >> upload_and_enable core_calculate_scales core_update_dependent_regs ch)
      (staged ch sample_rate s).
Proof.
  intros Hch Hrate. rewrite set_filter_phases.
  unfold check_parameter_valid_set.
  rewrite !decide_True by done.
  erewrite bind_inr by reflexivity.
  erewrite bind_inr by reflexivity.
  erewrite bind_inr by apply stage_samplerate_returns.
  reflexivity.
Qed.

(** An array that fails a check makes [set_filter] raise the error of the
    check; by then the sample rate is staged, and nothing else. *)
Lemma set_filter_rejected ch sample_rate fc s e :
  ch ∈ [1; 2] → sample_rate ∈ ["high"; "low"] →
  (check_dimensions fc >>? check_values fc) = inl e →
  set_filter' ch sample_rate (Some fc) s = (staged ch sample_rate s, inl e).
Proof.
  intros Hch Hrate Hbad. rewrite set_filter_checked by done.
  unfold convert_and_store.
  destruct (check_dimensions fc) as [e' | []] eqn:Hdim; simpl in Hbad.
  - inversion Hbad; subst. reflexivity.
  - rewrite Hbad. reflexivity.
Qed.

(** C10, as amended: on an array of five rows with one entry in row 0 and
    six in each of rows 1 to 3, the dimension check passes whatever the
    length of row 4.  With fewer than six entries in row 4, [set_filter]
    never raises a validation error naming row 4: when the gain, rows 1 to
    3 and the entries present in row 4 are all in range the values check
    runs into the missing entry and raises an out-of-bounds index error;
    otherwise it stops at the first entry out of range with the range
    error of the values check. *)
Theorem set_filter_short_row4 ch sample_rate fc s G r1 r2 r3 r4 :
  ch ∈ [1; 2] → sample_rate ∈ ["high"; "low"] →
  has_rows fc G r1 r2 r3 r4 →
  length r1 = 6%nat → length r2 = 6%nat → length r3 = 6%nat →
  (length r4 < 6)%nat →
  check_dimensions fc = inr tt
  ∧ (set_filter' ch sample_rate (Some fc) s).2
    = (if values_ok G r1 r2 r3 r4 then inl IndexError
       else inl (ValidationError entry_desc))
  ∧ (set_filter' ch sample_rate (Some fc) s).2
    ≠ inl (ValidationError (row_desc 4)).
Proof.
  intros Hch Hrate Hrows L1 L2 L3 L4.
  pose proof (check_dimensions_passes _ _ _ _ _ _ Hrows L1 L2 L3) as Hdim.
  pose proof (check_values_short_row4 _ _ _ _ _ _ Hrows L1 L2 L3 L4) as Hval.
  split; [done |].
  assert (Hcall : ∃ e, (check_dimensions fc >>? check_values fc) = inl e
                       ∧ e = (if values_ok G r1 r2 r3 r4 then IndexError
                              else ValidationError entry_desc)).
  { rewrite Hdim, Hval. simpl. destruct (values_ok G r1 r2 r3 r4); eauto. }
  destruct Hcall as (e & Hcall & ->).
  rewrite (set_filter_rejected _ _ _ _ _ Hch Hrate Hcall). simpl.
  destruct (values_ok G r1 r2 r3 r4); split; done.
Qed.

End SetFilter.

(** *** Which errors the later phases can raise *)

Lemma quiet_inr {A} (a : A) : quiet (inr a : E A).
Proof. by intros d. Qed.

Lemma quiet_elift {A} e (o : option A) :
  (∀ d, e ≠ ValidationError d) → quiet (elift e o).
Proof. intros He d. destruct o; simpl; [done |]. intros [=]. by eapply He. Qed.

Lemma quiet_ebind {A B} (m : E A) (k : A → E B) :
  quiet m → (∀ a, quiet (k a)) → quiet (ebind m k).
Proof.
  intros Hm Hk d. destruct m as [e | a]; simpl; [| apply Hk].
  intros [=]; subst. by eapply (Hm d).
Qed.

Lemma quiet_fold_E {A S} (l : list A) (body : A → S → E S) acc :
  (∀ a acc, quiet (body a acc)) → quiet (fold_E l body acc).
Proof.
  intros Hb. revert acc. induction l as [| a l IH]; intros acc; simpl.
  - apply quiet_inr.
  - apply quiet_ebind; auto.
Qed.

Lemma quiet_int_round x : quiet (int_round x).
Proof. intros d. unfold int_round. by destruct (Prim2SF x). Qed.

Lemma quiet_filter_coeffs s : quiet (filter_coeffs s).
Proof.
  apply quiet_fold_E. intros n acc.
  repeat (apply quiet_ebind; [by apply quiet_elift | intros ?]).
  apply quiet_inr.
Qed.

Lemma quiet_coeff_list fcs : quiet (coeff_list fcs).
Proof.
  apply quiet_fold_E. intros [[k x] y] t.
  apply quiet_ebind; [by apply quiet_elift | intros c].
  apply quiet_ebind; [| intros v; apply quiet_inr].
  unfold quantise. destruct (decide (y = 0%nat)); apply quiet_int_round.
Qed.

Section QuietMethods.

Lemma Quiet_ret {A} (a : A) : Quiet (ret a).
Proof. by intros s d. Qed.

Lemma Quiet_gets {A} (g : IIR → A) : Quiet (gets g).
Proof. by intros s d. Qed.

Lemma Quiet_modify g : Quiet (modify g).
Proof. by intros s d. Qed.

Lemma Quiet_lift {A} e (o : option A) :
  (∀ d, e ≠ ValidationError d) → Quiet (lift e o).
Proof. intros He s d. destruct o; simpl; [done |]. intros [=]. by eapply He. Qed.

Lemma Quiet_lift_sum {A} (r : E A) : quiet r → Quiet (lift_sum r).
Proof. intros Hr s d. destruct r as [e | a] eqn:Hre; simpl; [| done].
  intros [=]. by eapply Hr; subst. Qed.

Lemma Quiet_read {A} (g : IIR → E A) :
  (∀ s, quiet (g s)) → Quiet (λ s, lift_sum (g s) s).
Proof. intros Hg s. by apply Quiet_lift_sum. Qed.

Lemma Quiet_bind {A B} (m : M A) (k : A → M B) :
  Quiet m → (∀ a, Quiet (k a)) → Quiet (bind m k).
Proof.
  intros Hm Hk s d. unfold bind.
  destruct (m s) as [s1 [e | a]] eqn:Hs; simpl.
  - specialize (Hm s d). rewrite Hs in Hm. simpl in Hm.
    intros [=]; subst. by apply Hm.
  - apply Hk.
Qed.

Lemma Quiet_for_M {A} (l : list A) (body : A → M unit) :
  (∀ a, Quiet (body a)) → Quiet (for_M l body).
Proof.
  intros Hb. induction l as [| a l IH]; simpl.
  - apply Quiet_ret.
  - apply Quiet_bind; auto.
Qed.

Lemma Quiet_accessor_set reg xf : Quiet (_accessor_set reg xf).
Proof. intros s d. unfold _accessor_set. by destruct (xf (reg_value s reg)). Qed.

Lemma Quiet_set_signed reg offset len xf x : Quiet (set_signed reg offset len xf x).
Proof.
  unfold set_signed. apply Quiet_bind; [apply Quiet_gets | intros obj].
  apply Quiet_bind; [apply Quiet_lift_sum, quiet_int_round | intros raw].
  apply Quiet_accessor_set.
Qed.

Lemma Quiet_set_signed_div reg offset len den xf x :
  Quiet (set_signed_div reg offset len den xf x).
Proof.
  unfold set_signed_div. apply Quiet_bind; [apply Quiet_gets | intros obj].
  apply Quiet_bind; [| intros _; apply Quiet_set_signed].
  apply Quiet_lift_sum. intros d. unfold nonzero.
  by destruct (den obj =? 0)%float.
Qed.

Lemma Quiet_transport : Quiet transport.
Proof. intros s d. unfold transport. by destruct (link s) as [| [] l]. Qed.

Variable core_calculate_scales : IIR → Scales.
Variable core_update_dependent_regs : Scales → IIR → option (gmap Z Z).

Lemma quiet_calculate_scales s : quiet (_calculate_scales core_calculate_scales s).
Proof.
  unfold _calculate_scales.
  assert (Hdiv : ∀ b x y, quiet (if b : bool then truediv x y else inr x)).
  { intros [] x y d; [| done]. unfold truediv, nonzero.
    by destruct (y =? 0)%float. }
  repeat (apply quiet_ebind; [by apply quiet_elift | intros ?]).
  repeat (apply quiet_ebind; [apply Hdiv | intros ?]).
  apply quiet_inr.
Qed.

Lemma Quiet_update_dependent_regs scales :
  Quiet (_update_dependent_regs core_update_dependent_regs scales).
Proof.
  unfold _update_dependent_regs.
  apply Quiet_bind; [| intros _; apply Quiet_bind; [| intros _]].
  - intros s d. unfold super_update_dependent_regs.
    by destruct (core_update_dependent_regs scales s).
  - unfold _update_control_matrix_regs.
    apply Quiet_bind; [apply Quiet_gets | intros u].
    repeat (apply Quiet_bind; [apply Quiet_set_signed | intros _]).
    apply Quiet_set_signed.
  - unfold _update_gains_offsets_regs.
    apply Quiet_bind; [apply Quiet_gets | intros u].
    repeat (apply Quiet_bind;
              [first [apply Quiet_set_signed | apply Quiet_set_signed_div]
              | intros _]).
    apply Quiet_set_signed_div.
Qed.

Lemma Quiet_commit :
  Quiet (commit core_calculate_scales core_update_dependent_regs).
Proof.
  unfold commit.
  apply Quiet_bind; [apply Quiet_read, quiet_calculate_scales | intros scales].
  apply Quiet_bind; [apply Quiet_update_dependent_regs | intros _].
  apply Quiet_bind; [apply Quiet_transport | intros _].
  apply Quiet_modify.
Qed.

Lemma Quiet_write_data_dat t : Quiet (write_data_dat t).
Proof.
  unfold write_data_dat. apply Quiet_bind; [apply Quiet_modify | intros _].
  apply Quiet_for_M. intros [[k y] x].
  apply Quiet_bind; [by apply Quiet_lift | intros v].
  unfold write_q. apply Quiet_bind; [by apply Quiet_lift | intros bytes].
  apply Quiet_modify.
Qed.

Lemma Quiet_set_mmap_access b :
  Quiet (_set_mmap_access core_calculate_scales core_update_dependent_regs b).
Proof.
  unfold _set_mmap_access.
  apply Quiet_bind; [apply Quiet_modify | intros _; apply Quiet_commit].
Qed.

Lemma Quiet_send_file tag : Quiet (_send_file tag).
Proof.
  unfold _send_file. apply Quiet_bind; [apply Quiet_gets | intros content].
  apply Quiet_bind; [apply Quiet_transport | intros _; apply Quiet_modify].
Qed.

(** Once the array is stored, nothing in [set_filter] raises a validation
    error. *)
Lemma Quiet_upload_and_enable ch :
  Quiet (upload_and_enable core_calculate_scales core_update_dependent_regs ch).
Proof.
  unfold upload_and_enable.
  apply Quiet_bind; [apply Quiet_read, quiet_filter_coeffs | intros fcs].
  apply Quiet_bind; [apply Quiet_lift_sum, quiet_coeff_list | intros t].
  apply Quiet_bind; [apply Quiet_write_data_dat | intros _].
  apply Quiet_bind; [apply Quiet_set_mmap_access | intros _].
  apply Quiet_bind; [apply Quiet_send_file | intros _].
  apply Quiet_bind; [apply Quiet_set_mmap_access | intros _].
  apply Quiet_bind; [apply Quiet_modify | intros _].
  apply Quiet_bind; [| intros _; apply Quiet_commit].
  destruct (decide (ch = 1));
    (apply Quiet_bind; [| intros _]); apply Quiet_accessor_set.
Qed.

End QuietMethods.

(** *** What the upload leaves alone *)

Section UploadFrames.
Context {X : Type} (f : IIR → X).
Hypothesis f_localregs : ∀ s r, f (with_localregs s r) = f s.
Hypothesis f_remoteregs : ∀ s r, f (with_remoteregs s r) = f s.
Hypothesis f_link : ∀ s l, f (with_link s l) = f s.
Hypothesis f_mmap_access : ∀ s b, f (with_mmap_access s b) = f s.
Variable core_calculate_scales : IIR → Scales.
Variable core_update_dependent_regs : Scales → IIR → option (gmap Z Z).

Lemma keeps_set_mmap_access b :
  Keeps f (_set_mmap_access core_calculate_scales core_update_dependent_regs b).
Proof.
  unfold _set_mmap_access.
  apply keeps_bind; [by apply keeps_modify | intros _; by apply keeps_commit].
Qed.

(** Enabling the channel and the closing commit. *)
Lemma keeps_enable ch :
  Keeps f ((if decide (ch = 1)
            then set_output_en1 true >> set_input_en1 true
            else set_output_en2 true >> set_input_en2 true) >>
           commit core_calculate_scales core_update_dependent_regs).
Proof.
  apply keeps_bind; [| intros _; by apply keeps_commit].
  destruct (decide (ch = 1));
    (apply keeps_bind; [| intros _]); by apply keeps_accessor_set.
Qed.

Hypothesis f_data_dat : ∀ s d, f (with_data_dat s d) = f s.

Lemma keeps_write_data_dat t : Keeps f (write_data_dat t).
Proof.
  unfold write_data_dat. apply keeps_bind; [by apply keeps_modify | intros _].
  apply keeps_for_M. intros [[k y] x].
  apply keeps_bind; [apply keeps_lift | intros v].
  unfold write_q. apply keeps_bind; [apply keeps_lift | intros bytes].
  by apply keeps_modify.
Qed.

Hypothesis f_sent_files : ∀ s l, f (with_sent_files s l) = f s.

Lemma keeps_send_file tag : Keeps f (_send_file tag).
Proof.
  unfold _send_file. apply keeps_bind; [apply keeps_gets | intros content].
  apply keeps_bind; [by apply keeps_transport | intros _].
  by apply keeps_modify.
Qed.

Lemma keeps_upload_and_enable ch :
  Keeps f (upload_and_enable core_calculate_scales core_update_dependent_regs ch).
Proof.
  unfold upload_and_enable.
  apply keeps_bind; [apply keeps_read | intros fcs].
  apply keeps_bind; [apply keeps_lift_sum | intros t].
  apply keeps_bind; [apply keeps_write_data_dat | intros _].
  apply keeps_bind; [apply keeps_set_mmap_access | intros _].
  apply keeps_bind; [apply keeps_send_file | intros _].
  apply keeps_bind; [apply keeps_set_mmap_access | intros _].
  apply keeps_bind; [by apply keeps_modify | intros _].
  apply keeps_enable.
Qed.

End UploadFrames.

(** *** The reshape *)

Lemma fold_gain_into_b_scaled l : fold_gain_into_b l = scaled_section 1 l.
Proof. by destruct l as [| s [| b0 [| b1 [| b2 rest]]]]. Qed.

Lemma scaled_section_length g l l' :
  scaled_section g l = Some l' → length l' = length l.
Proof.
  destruct l as [| s [| b0 [| b1 [| b2 rest]]]]; simpl; try done.
  by intros [= <-].
Qed.

Lemma scaled_section_defined g l :
  (4 ≤ length l)%nat → is_Some (scaled_section g l).
Proof.
  destruct l as [| s [| b0 [| b1 [| b2 rest]]]]; simpl; try lia. eauto.
Qed.

Lemma scaled_section_gain g l l' :
  scaled_section 1 l = Some l' → setitem l' 0 g = scaled_section g l.
Proof.
  destruct l as [| s [| b0 [| b1 [| b2 rest]]]]; simpl; try done.
  by intros [= <-].
Qed.

Lemma update_row_inv a n f a' :
  update_row a n f = Some a' →
  ∃ p l l', rows a !! n = Some p ∧ heap a !! p = Some l ∧ f l = Some l'
            ∧ a' = mkCoeffArray (<[p := l']> (heap a)) (rows a).
Proof.
  unfold update_row. intros H.
  destruct (rows a !! n) as [p |] eqn:Hp; simpl in H; [| done].
  destruct (heap a !! p) as [l |] eqn:Hl; simpl in H; [| done].
  destruct (f l) as [l' |] eqn:Hf; simpl in H; [| done].
  inversion H. eauto 10.
Qed.

Lemma update_row_defined a n f l :
  getrow a n = Some l → is_Some (f l) → is_Some (update_row a n f).
Proof.
  unfold getrow, update_row. intros Hrow [l' Hf].
  destruct (rows a !! n) as [p |]; simpl in *; [| done].
  rewrite Hrow. simpl. rewrite Hf. simpl. eauto.
Qed.

(** An in-place update that keeps the length of the row object keeps the
    length of every row of the array. *)
Lemma update_row_row_len a n f a' :
  (∀ l l', f l = Some l' → length l' = length l) →
  update_row a n f = Some a' → ∀ m, row_len a' m = row_len a m.
Proof.
  intros Hf Hupd m.
  destruct (update_row_inv _ _ _ _ Hupd) as (p & l & l' & Hp & Hl & Hfl & ->).
  unfold row_len, getrow. simpl.
  destruct (rows a !! m) as [q |]; simpl; [| done].
  destruct (decide (q = p)) as [-> | Hne].
  - rewrite list_lookup_insert_eq by (by eapply lookup_lt_Some).
    rewrite Hl. simpl. f_equal. eauto.
  - by rewrite list_lookup_insert_ne.
Qed.

Lemma row_len_Some a m k :
  row_len a m = Some k → ∃ l, getrow a m = Some l ∧ length l = k.
Proof.
  unfold row_len. destruct (getrow a m) as [l |]; simpl; [| done].
  intros [= <-]. eauto.
Qed.

Lemma fold_gain_defined ns a :
  (∀ n, n ∈ ns → ∃ k, row_len a n = Some k ∧ (4 ≤ k)%nat) →
  ∃ a', fold_E ns (λ n a, elift IndexError (update_row a n fold_gain_into_b)) a
          = inr a'
        ∧ rows a' = rows a
        ∧ ∀ m, row_len a' m = row_len a m.
Proof.
  revert a. induction ns as [| n ns IH]; intros a Hlen; simpl; [eauto |].
  destruct (Hlen n) as (k & Hk & Hk4); [set_solver |].
  destruct (row_len_Some _ _ _ Hk) as (l & Hl & <-).
  destruct (update_row_defined a n fold_gain_into_b l Hl) as [a1 Ha1].
  { rewrite fold_gain_into_b_scaled. by apply scaled_section_defined. }
  rewrite Ha1. simpl.
  assert (Hlen1 : ∀ m, row_len a1 m = row_len a m).
  { eapply update_row_row_len; [| done]. intros l0 l0'.
    rewrite fold_gain_into_b_scaled. apply scaled_section_length. }
  destruct (IH a1) as (a' & Hfold & Hrows & Hlen').
  { intros m Hm. rewrite Hlen1. apply Hlen. set_solver. }
  exists a'. split; [done |]. split.
  - rewrite Hrows.
    destruct (update_row_inv _ _ _ _ Ha1) as (? & ? & ? & _ & _ & _ & ->). done.
  - intros m. by rewrite Hlen', Hlen1.
Qed.

(** The reshape of an array that passed the checks does not fail, shared
    row objects or not. *)
Lemma reshape_defined fc G r1 r2 r3 r4 :
  has_rows fc G r1 r2 r3 r4 →
  (4 ≤ length r1)%nat → (4 ≤ length r2)%nat →
  (4 ≤ length r3)%nat → (4 ≤ length r4)%nat →
  ∃ a, reshape fc = inr a.
Proof.
  intros (Hlen & H0 & H1 & H2 & H3 & H4) L1 L2 L3 L4.
  unfold reshape.
  destruct (fold_gain_defined (seq 1 4) fc) as (a & Hfold & Hrows & Hlens).
  { intros n Hn. unfold row_len.
    assert (n = 1 ∨ n = 2 ∨ n = 3 ∨ n = 4)%nat as [-> | [-> | [-> | ->]]]
      by (apply elem_of_seq in Hn; lia);
      [rewrite H1 | rewrite H2 | rewrite H3 | rewrite H4]; simpl; eauto. }
  rewrite Hfold. simpl.
  assert (Hr0 : row_len a 0 = Some 1%nat) by (rewrite Hlens; unfold row_len; by rewrite H0).
  destruct (row_len_Some _ _ _ Hr0) as (l0 & Hl0 & Hlen0).
  destruct l0 as [| g [| ? ?]]; try done.
  rewrite (getitem_row _ _ _ _ Hl0). simpl.
  assert (Hr4 : row_len a 4 = Some (length r4)) by (rewrite Hlens; unfold row_len; by rewrite H4).
  destruct (row_len_Some _ _ _ Hr4) as (l4 & Hl4 & Hlen4).
  destruct (update_row_defined a 4 (λ l, setitem l 0 g) l4 Hl4) as [a' Ha'].
  { unfold setitem. rewrite decide_True by lia. eauto. }
  rewrite Ha'. simpl. eauto.
Qed.

(** *** Acceptance of coefficient arrays *)

Section Acceptance.
Variable core_calculate_scales : IIR → Scales.
Variable core_update_dependent_regs : Scales → IIR → option (gmap Z Z).

Abbreviation set_filter' :=
  (set_filter core_calculate_scales core_update_dependent_regs).
Abbreviation upload_and_enable' :=
  (upload_and_enable core_calculate_scales core_update_dependent_regs).

(** An array that passes both checks is reshaped and stored, and the
    upload runs on the instrument that holds it. *)
Lemma set_filter_accepted ch sample_rate fc s a :
  ch ∈ [1; 2] → sample_rate ∈ ["high"; "low"] →
  check_dimensions fc = inr tt → check_values fc = inr tt →
  reshape fc = inr a →
  set_filter' ch sample_rate (Some fc) s
  = upload_and_enable' ch (store_filter ch a (staged ch sample_rate s)).
Proof.
  intros Hch Hrate Hdim Hval Hre. rewrite set_filter_checked by done.
  unfold convert_and_store, deepcopy. rewrite Hdim, Hval, Hre.
  unfold store_filter. by destruct (decide (ch = 1)).
Qed.

Lemma filter_of_upload_and_enable ch ch' s :
  filter_of ch' (upload_and_enable' ch s).1 = filter_of ch' s.
Proof.
  unfold filter_of. destruct (decide (ch' = 1)).
  - by apply (keeps_upload_and_enable filter_ch1).
  - by apply (keeps_upload_and_enable filter_ch2).
Qed.

Lemma filter_of_store ch a s : filter_of ch (store_filter ch a s) = Some a.
Proof. unfold filter_of, store_filter. by destruct (decide (ch = 1)). Qed.

(** The reshaped array is the channel's filter when [set_filter] ends,
    however the upload and the commits turn out. *)
Lemma set_filter_stored ch sample_rate fc s a :
  ch ∈ [1; 2] → sample_rate ∈ ["high"; "low"] →
  check_dimensions fc = inr tt → check_values fc = inr tt →
  reshape fc = inr a →
  filter_of ch (set_filter' ch sample_rate (Some fc) s).1 = Some a.
Proof.
  intros Hch Hrate Hdim Hval Hre.
  rewrite (set_filter_accepted _ _ _ _ a) by done.
  by rewrite filter_of_upload_and_enable, filter_of_store.
Qed.

(** C4, as amended: on an array of the documented shape, [set_filter]
    stores the array and raises no validation error exactly when the gain
    lies in [-8e6, 8e6 - 2^-24] and every section coefficient lies in
    [-4.0, 4.0 - 2^-45], both bounds included; when a value is outside its
    range the call raises the validation error of the values check with
    no scratch file written, no upload made and no filter replaced. *)
Theorem set_filter_accepts_in_range ch sample_rate fc s G r1 r2 r3 r4 :
  ch ∈ [1; 2] → sample_rate ∈ ["high"; "low"] →
  has_rows fc G r1 r2 r3 r4 →
  length r1 = 6%nat → length r2 = 6%nat →
  length r3 = 6%nat → length r4 = 6%nat →
  let out := set_filter' ch sample_rate (Some fc) s in
  (values_ok G r1 r2 r3 r4 = true →
   (∀ d, out.2 ≠ inl (ValidationError d))
   ∧ ∃ a, reshape fc = inr a ∧ filter_of ch out.1 = Some a)
  ∧ (values_ok G r1 r2 r3 r4 = false →
     out = (staged ch sample_rate s, inl (ValidationError entry_desc))
     ∧ sent_files out.1 = sent_files s
     ∧ data_dat out.1 = data_dat s
     ∧ filter_ch1 out.1 = filter_ch1 s
     ∧ filter_ch2 out.1 = filter_ch2 s).
Proof.
  intros Hch Hrate Hrows L1 L2 L3 L4 out.
  pose proof (check_dimensions_passes _ _ _ _ _ _ Hrows L1 L2 L3) as Hdim.
  pose proof (check_values_full _ _ _ _ _ _ Hrows L1 L2 L3 L4) as Hval.
  split; intros Hok; rewrite Hok in Hval.
  - destruct (reshape_defined _ _ _ _ _ _ Hrows) as [a Ha]; try lia.
    subst out. rewrite (set_filter_accepted _ _ _ _ a) by done.
    split.
    + intros d. apply Quiet_upload_and_enable.
    + exists a. split; [done |].
      by rewrite filter_of_upload_and_enable, filter_of_store.
  - subst out. erewrite set_filter_rejected; [| done | done |].
    + split; [reflexivity |]. unfold staged, stage_samplerate.
      by destruct (decide (ch = 1)).
    + by rewrite Hdim, Hval.
Qed.

End Acceptance.

(** C4, as first stated, fails: the gain 8e6 - 2^-25 lies in [-8e6, 8e6)
    and every section coefficient lies in [-4, 4), yet [set_filter]
    raises a validation error. *)
Lemma set_filter_gain_near_8e6_rejected :
  let G := (8e6 - 0x1p-25)%float in
  ((-8e6 <=? G) && (G <? 8e6))%float = true
  ∧ forallb (λ c, ((-4 <=? c) && (c <? 4))%float) [1; 1; 0; 0; 0; 0]%float = true
  ∧ has_rows gain_near_8e6 G [1; 1; 0; 0; 0; 0]%float [1; 1; 0; 0; 0; 0]%float
             [1; 1; 0; 0; 0; 0]%float [1; 1; 0; 0; 0; 0]%float
  ∧ (set_filter plain_scales plain_hook 1 "high" (Some gain_near_8e6)
       after_defaults).2
    = inl (ValidationError entry_desc).
Proof. vm_compute. repeat split; reflexivity. Qed.

Lemma set_filter_accepts_in_range_witness :
  let row := [1; 1; 0; 0; 0; 0]%float in
  let out := set_filter plain_scales plain_hook 1 "high" (Some allpass_gain2)
               after_defaults in
  (values_ok 2 row row row row = true →
   (∀ d, out.2 ≠ inl (ValidationError d))
   ∧ ∃ a, reshape allpass_gain2 = inr a ∧ filter_of 1 out.1 = Some a)
  ∧ (values_ok 2 row row row row = false →
     out = (staged 1 "high" after_defaults, inl (ValidationError entry_desc))
     ∧ sent_files out.1 = sent_files after_defaults
     ∧ data_dat out.1 = data_dat after_defaults
     ∧ filter_ch1 out.1 = filter_ch1 after_defaults
     ∧ filter_ch2 out.1 = filter_ch2 after_defaults).
Proof.
  apply (set_filter_accepts_in_range plain_scales plain_hook 1 "high"
           allpass_gain2 after_defaults 2%float).
  - apply list_elem_of_here.
  - apply list_elem_of_here.
  - repeat split.
  - reflexivity.
  - reflexivity.
  - reflexivity.
  - reflexivity.
Defined.

(** C10, as first stated, fails: the array has five rows, one entry in row
    0, six in rows 1 to 3 and fewer than six in row 4, and the values
    check fails with the range error of the gain, not with an
    out-of-bounds index access. *)
Lemma short_row4_big_gain_range_error :
  let row := [1; 1; 0; 0; 0; 0]%float in
  let out := set_filter plain_scales plain_hook 1 "high"
               (Some big_gain_empty_row4) after_defaults in
  has_rows big_gain_empty_row4 9e6 row row row []
  ∧ check_dimensions big_gain_empty_row4 = inr tt
  ∧ out.2 = inl (ValidationError entry_desc)
  ∧ out.2 ≠ inl IndexError.
Proof. vm_compute. repeat split; try reflexivity. discriminate. Qed.

Lemma set_filter_short_row4_witness :
  let row := [1; 1; 0; 0; 0; 0]%float in
  let out := set_filter plain_scales plain_hook 1 "high" (Some three_entry_row4)
               after_defaults in
  check_dimensions three_entry_row4 = inr tt
  ∧ out.2 = (if values_ok 2 row row row [1; 1; 0]%float then inl IndexError
             else inl (ValidationError entry_desc))
  ∧ out.2 ≠ inl (ValidationError (row_desc 4)).
Proof.
  apply (set_filter_short_row4 plain_scales plain_hook 1 "high" three_entry_row4
           after_defaults 2%float).
  - apply list_elem_of_here.
  - apply list_elem_of_here.
  - repeat split.
  - reflexivity.
  - reflexivity.
  - reflexivity.
  - simpl. lia.
Defined.

(** *** The reshape on row objects of their own, and on shared ones *)

Lemma update_row_at h rs n f p l l' :
  rs !! n = Some p → h !! p = Some l → f l = Some l' →
  update_row (mkCoeffArray h rs) n f = Some (mkCoeffArray (<[p := l']> h) rs).
Proof.
  intros Hp Hl Hf. unfold update_row. simpl.
  rewrite Hp. simpl. rewrite Hl. simpl. by rewrite Hf.
Qed.

Lemma scaled_section_unit g l l' :
  scaled_section g l = Some l' → ∃ l1, scaled_section 1 l = Some l1.
Proof.
  destruct l as [| s [| b0 [| b1 [| b2 rest]]]]; simpl; try done. eauto.
Qed.

(** When the five rows of an accepted array are five different objects,
    the stored rows are the section rows of the class documentation: the
    B coefficients of every section multiplied by its S, 1.0 in the gain
    slot of sections 1 to 3 and the overall gain in that of section 4. *)
Lemma reshape_distinct_rows h p0 p1 p2 p3 p4 G r1 r2 r3 r4 r1' r2' r3' r4' :
  NoDup [p0; p1; p2; p3; p4] →
  h !! p0 = Some [G] → h !! p1 = Some r1 → h !! p2 = Some r2 →
  h !! p3 = Some r3 → h !! p4 = Some r4 →
  scaled_section 1 r1 = Some r1' → scaled_section 1 r2 = Some r2' →
  scaled_section 1 r3 = Some r3' → scaled_section G r4 = Some r4' →
  ∃ a, reshape (mkCoeffArray h [p0; p1; p2; p3; p4]) = inr a
       ∧ length (rows a) = 4%nat
       ∧ getrow a 0 = Some r1' ∧ getrow a 1 = Some r2'
       ∧ getrow a 2 = Some r3' ∧ getrow a 3 = Some r4'.
Proof.
  intros Hnd H0 H1 H2 H3 H4 S1 S2 S3 S4.
  rewrite !NoDup_cons, !not_elem_of_cons in Hnd. destruct_and!.
  destruct (scaled_section_unit _ _ _ S4) as [r4u S4u].
  pose proof (lookup_lt_Some _ _ _ H0). pose proof (lookup_lt_Some _ _ _ H1).
  pose proof (lookup_lt_Some _ _ _ H2). pose proof (lookup_lt_Some _ _ _ H3).
  pose proof (lookup_lt_Some _ _ _ H4).
  unfold reshape. change (seq 1 4) with [1; 2; 3; 4]%nat.
  cbn [fold_E].
  erewrite (update_row_at _ _ 1 _ p1 r1 r1'); [| done | done |];
    [| by rewrite fold_gain_into_b_scaled].
  cbn [elift ebind].
  erewrite (update_row_at _ _ 2 _ p2 r2 r2'); [| done | |];
    [| by rewrite list_lookup_insert_ne | by rewrite fold_gain_into_b_scaled].
  cbn [elift ebind].
  erewrite (update_row_at _ _ 3 _ p3 r3 r3'); [| done | |];
    [| by rewrite !list_lookup_insert_ne | by rewrite fold_gain_into_b_scaled].
  cbn [elift ebind].
  erewrite (update_row_at _ _ 4 _ p4 r4 r4u); [| done | |];
    [| by rewrite !list_lookup_insert_ne | by rewrite fold_gain_into_b_scaled].
  cbn [elift ebind].
  unfold getitem at 1, getrow at 1. cbn [rows heap lookup list_lookup mbind option_bind].
  rewrite !list_lookup_insert_ne by done. rewrite H0.
  cbn [elift ebind lookup list_lookup mbind option_bind].
  erewrite (update_row_at _ _ 4 _ p4 r4u r4'); [| done | |];
    [| by rewrite list_lookup_insert_eq by (by rewrite !length_insert)
     | by rewrite (scaled_section_gain _ _ _ S4u) ].
  cbn [elift ebind].
  eexists. split; [reflexivity |].
  unfold getrow. cbn [rows heap take drop length lookup list_lookup mbind option_bind].
  split; [done |].
  repeat split.
  - rewrite !list_lookup_insert_ne by done.
    by rewrite list_lookup_insert_eq.
  - rewrite !list_lookup_insert_ne by done.
    by rewrite list_lookup_insert_eq by (by rewrite !length_insert).
  - rewrite !list_lookup_insert_ne by done.
    by rewrite list_lookup_insert_eq by (by rewrite !length_insert).
  - by rewrite list_lookup_insert_eq by (by rewrite !length_insert).
Qed.

(** C1, at the failing input: the array passes both checks and the call
    returns, but the four stored rows are one object, so writing the
    overall gain into section 4 writes it into sections 1 to 3 as well:
    their gain slots hold 2.0, not 1.0. *)
Theorem set_filter_shared_rows_gain_slots :
  let out := set_filter plain_scales plain_hook 1 "high"
               (Some shared_rows_gain2) after_defaults in
  check_dimensions shared_rows_gain2 = inr tt
  ∧ check_values shared_rows_gain2 = inr tt
  ∧ out.2 = inr tt
  ∧ ∃ a, filter_ch1 out.1 = Some a
         ∧ getitem a 0 0 = Some 2%float
         ∧ getitem a 1 0 = Some 2%float
         ∧ getitem a 2 0 = Some 2%float
         ∧ getitem a 3 0 = Some 2%float.
Proof.
  vm_compute. repeat split; try reflexivity.
  eexists. repeat split; reflexivity.
Qed.

(** *** The packed payload *)

(** [struct.pack('<q', v)] and [struct.unpack] on the signed 64-bit
    range. *)
Lemma of_le_bytes_le_bytes n u :
  0 ≤ u → of_le_bytes (le_bytes n u) = u mod 2 ^ (8 * Z.of_nat n).
Proof.
  revert u. induction n as [| n IH]; intros u Hu.
  - simpl. by rewrite Z.mod_1_r.
  - cbn [le_bytes of_le_bytes]. rewrite IH by (apply Z.div_pos; lia).
    replace (8 * Z.of_nat (S n)) with (8 + 8 * Z.of_nat n) by lia.
    rewrite Z.pow_add_r by lia. change (2 ^ 8) with 256.
    rewrite Z.rem_mul_r by (try apply Z.pow_nonzero; lia). reflexivity.
Qed.

Lemma pack_q_unpack_q v bs : pack_q v = Some bs → unpack_q bs = v ∧ length bs = 8%nat.
Proof.
  unfold pack_q, unpack_q.
  destruct (Z.leb_spec (- 2 ^ 63) v); [| done].
  destruct (Z.ltb_spec v (2 ^ 63)); [| done]. cbn [andb].
  intros Hbs. apply (inj Some) in Hbs. subst bs. split; [| done].
  rewrite !of_le_bytes_le_bytes by (apply Z.mod_pos_bound; lia).
  change (8 * Z.of_nat 8) with 64. rewrite Z.mod_mod by lia.
  destruct (Z_lt_le_dec v 0).
  - rewrite <- (Z.mod_unique v (2 ^ 64) (-1) (v + 2 ^ 64)) by lia.
    destruct (Z.ltb_spec (v + 2 ^ 64) (2 ^ 63)); lia.
  - rewrite Z.mod_small by lia.
    destruct (Z.ltb_spec v (2 ^ 63)); lia.
Qed.

(** The coefficient table is updated entry by entry. *)
Lemma coeff_list_get_set t x y k v :
  is_Some (coeff_list_get t x y k) →
  coeff_list_get (coeff_list_set t x y k v) x y k = Some v.
Proof.
  unfold coeff_list_get, coeff_list_set. intros [w Hw].
  rewrite list_lookup_alter_eq.
  destruct (t !! x) as [r |]; simpl in *; [| done].
  rewrite list_lookup_alter_eq.
  destruct (r !! y) as [c |]; simpl in *; [| done].
  apply list_lookup_insert_eq. by eapply lookup_lt_Some.
Qed.

Lemma coeff_list_get_set_ne t x y k v x' y' k' :
  (x, y, k) ≠ (x', y', k') →
  coeff_list_get (coeff_list_set t x y k v) x' y' k' = coeff_list_get t x' y' k'.
Proof.
  unfold coeff_list_get, coeff_list_set. intros Hne.
  destruct (decide (x = x')) as [<- | Hx]; [| by rewrite list_lookup_alter_ne].
  rewrite list_lookup_alter_eq.
  destruct (t !! x) as [r |]; simpl; [| done].
  destruct (decide (y = y')) as [<- | Hy]; [| by rewrite list_lookup_alter_ne].
  rewrite list_lookup_alter_eq.
  destruct (r !! y) as [c |]; simpl; [| done].
  apply list_lookup_insert_ne. congruence.
Qed.

Lemma coeff_list_get_set_is_Some t x y k v x' y' k' :
  is_Some (coeff_list_get t x' y' k') →
  is_Some (coeff_list_get (coeff_list_set t x y k v) x' y' k').
Proof.
  intros H. destruct (decide ((x, y, k) = (x', y', k'))) as [[= <- <- <-] | Hne].
  - rewrite coeff_list_get_set by done. eauto.
  - by rewrite coeff_list_get_set_ne.
Qed.

Lemma coeff_list_fold fcs : coeff_list fcs
  = fold_E loop_kxy (coeff_step fcs) (replicate 8 (replicate 6 (replicate 2 0))).
Proof. reflexivity. Qed.

(** Every position visited by the loop holds the rounded fixed-point
    value of its source entry; the other positions are untouched. *)
Lemma fold_coeff_step fcs l :
  NoDup l →
  ∀ t0 t,
    (∀ k x y, (k, x, y) ∈ l → is_Some (coeff_list_get t0 x y k)) →
    fold_E l (coeff_step fcs) t0 = inr t →
    (∀ k x y, (k, x, y) ∈ l →
       ∃ c v, source_entry fcs k x y = Some c ∧ quantise y c = inr v
              ∧ coeff_list_get t x y k = Some v)
    ∧ (∀ k x y, (k, x, y) ∉ l → coeff_list_get t x y k = coeff_list_get t0 x y k).
Proof.
  induction 1 as [| [[k0 x0] y0] l Hnotin Hnd IH]; intros t0 t Hdef Hfold.
  - simpl in Hfold. inversion Hfold; subst. split; [set_solver | done].
  - cbn [fold_E] in Hfold.
    destruct (coeff_step fcs (k0, x0, y0) t0) as [e | t1] eqn:Hstep; [done |].
    simpl in Hfold. unfold coeff_step in Hstep.
    destruct (source_entry fcs k0 x0 y0) as [c |] eqn:Hc; [| done].
    simpl in Hstep.
    destruct (quantise y0 c) as [e | v] eqn:Hv; [done |].
    simpl in Hstep. inversion Hstep; subst t1; clear Hstep.
    destruct (IH _ _ (λ k x y Hin, coeff_list_get_set_is_Some _ _ _ _ _ _ _ _
                         (Hdef k x y (list_elem_of_further _ _ _ Hin))) Hfold)
      as [Hin Hout].
    split.
    + intros k x y Hkxy. apply elem_of_cons in Hkxy as [[= -> -> ->] | Hkxy].
      * exists c, v. repeat split; try done.
        rewrite Hout by done.
        apply coeff_list_get_set, Hdef, list_elem_of_here.
      * by apply Hin.
    + intros k x y Hkxy. apply not_elem_of_cons in Hkxy as [Hne Hkxy].
      rewrite Hout by done. apply coeff_list_get_set_ne. congruence.
Qed.

Lemma loop_kxy_elem k x y :
  (k < 2)%nat → (x < 4)%nat → (y < 6)%nat → (k, x, y) ∈ loop_kxy.
Proof.
  intros Hk Hx Hy.
  assert (Hkc : (k = 0 ∨ k = 1)%nat) by lia.
  assert (Hxc : (x = 0 ∨ x = 1 ∨ x = 2 ∨ x = 3)%nat) by lia.
  assert (Hyc : (y = 0 ∨ y = 1 ∨ y = 2 ∨ y = 3 ∨ y = 4 ∨ y = 5)%nat) by lia.
  destruct Hkc as [-> | ->];
    destruct Hxc as [-> | [-> | [-> | ->]]];
    destruct Hyc as [-> | [-> | [-> | [-> | [-> | ->]]]]];
    apply list_elem_of_In; vm_compute; tauto.
Qed.

(** The table computed by [set_filter]. *)
Lemma coeff_list_entries fcs t k x y :
  coeff_list fcs = inr t →
  (k < 2)%nat → (x < 4)%nat → (y < 6)%nat →
  ∃ c v, source_entry fcs k x y = Some c ∧ quantise y c = inr v
         ∧ coeff_list_get t x y k = Some v.
Proof.
  intros Ht Hk Hx Hy. rewrite coeff_list_fold in Ht.
  eapply (fold_coeff_step fcs loop_kxy);
    [idtac | idtac | exact Ht | by apply loop_kxy_elem].
  - apply (bool_decide_unpack (NoDup loop_kxy)). by vm_compute.
  - intros k' x' y' Hin. apply list_elem_of_In in Hin.
    vm_compute in Hin.
    repeat (destruct Hin as [[= <- <- <-] | Hin]; [vm_compute; eauto |]).
    done.
Qed.

Lemma write_data_dat_loop t :
  write_data_dat t
  = (modify (λ s, with_data_dat s (Some [])) >> for_M loop_kyx (write_entry t)).
Proof. reflexivity. Qed.

(** A loop of writes that returns has appended, in loop order, the eight
    bytes of every table entry it visited. *)
Lemma for_M_write_entry t l :
  ∀ s s' acc,
    data_dat s = Some acc →
    for_M l (write_entry t) s = (s', inr tt) →
    ∃ vs, Forall2 (λ '(k, y, x) v, coeff_list_get t x y k = Some v) l vs
          ∧ Forall int64 vs
          ∧ data_dat s' = Some (acc ++ flat_map le64 vs)%list.
Proof.
  induction l as [| [[k y] x] l IH]; intros s s' acc Hacc Hrun.
  - inversion Hrun; subst. exists []. rewrite app_nil_r. by repeat split.
  - cbn [for_M] in Hrun. unfold bind in Hrun.
    destruct (write_entry t (k, y, x) s) as [s1 [e | []]] eqn:Hstep; [done |].
    unfold write_entry, bind, lift in Hstep.
    destruct (coeff_list_get t x y k) as [v |] eqn:Hv; [| done].
    simpl in Hstep. unfold write_q, bind, lift in Hstep.
    destruct (pack_q v) as [bytes |] eqn:Hpack; [| done].
    simpl in Hstep. inversion Hstep; subst s1; clear Hstep.
    rewrite Hacc in Hrun. simpl in Hrun.
    destruct (IH (with_data_dat s (Some (acc ++ bytes)%list)) s'
                 (acc ++ bytes)%list eq_refl Hrun)
      as (vs & Hvs & H64 & Hdat).
    exists (v :: vs). split; [by constructor |].
    unfold pack_q in Hpack.
    destruct (Z.leb_spec (- 2 ^ 63) v); [| done].
    destruct (Z.ltb_spec v (2 ^ 63)); [| done].
    cbn [andb] in Hpack. apply (inj Some) in Hpack. subst bytes.
    split; [constructor; [done | done] |].
    rewrite Hdat. cbn [flat_map]. by rewrite <- app_assoc.
Qed.

Lemma write_data_dat_returns t s s' :
  write_data_dat t s = (s', inr tt) →
  ∃ vs, Forall2 (λ '(k, y, x) v, coeff_list_get t x y k = Some v) loop_kyx vs
        ∧ Forall int64 vs
        ∧ data_dat s' = Some (flat_map le64 vs).
Proof.
  rewrite write_data_dat_loop. intros Hrun.
  erewrite bind_inr in Hrun by reflexivity.
  destruct (for_M_write_entry t loop_kyx (with_data_dat s (Some [])) s' []
              eq_refl Hrun) as (vs & Hvs & H64 & Hdat).
  exists vs. by repeat split.
Qed.

Lemma loop_kyx_lookup k y x :
  (k < 2)%nat → (y < 6)%nat → (x < 4)%nat →
  loop_kyx !! (24 * k + 4 * y + x)%nat = Some (k, y, x).
Proof.
  intros Hk Hy Hx.
  assert (Hkc : (k = 0 ∨ k = 1)%nat) by lia.
  assert (Hxc : (x = 0 ∨ x = 1 ∨ x = 2 ∨ x = 3)%nat) by lia.
  assert (Hyc : (y = 0 ∨ y = 1 ∨ y = 2 ∨ y = 3 ∨ y = 4 ∨ y = 5)%nat) by lia.
  destruct Hkc as [-> | ->];
    destruct Hxc as [-> | [-> | [-> | ->]]];
    destruct Hyc as [-> | [-> | [-> | [-> | [-> | ->]]]]];
    reflexivity.
Qed.

Lemma filter_coeffs_ext s s' :
  filter_ch1 s' = filter_ch1 s → filter_ch2 s' = filter_ch2 s →
  filter_coeffs s' = filter_coeffs s.
Proof. intros H1 H2. unfold filter_coeffs. by rewrite H1, H2. Qed.

(** The outcome of the upload: the file sent is the scratch file. *)
Lemma send_file_outcome tag s :
  (sent_files (_send_file tag s).1 = sent_files s
   ∧ ∃ e, (_send_file tag s).2 = inl e)
  ∨ ((_send_file tag s).2 = inr tt
     ∧ sent_files (_send_file tag s).1
       = (sent_files s ++ [(tag, default [] (data_dat s))])%list).
Proof.
  unfold _send_file, bind, gets, transport, modify.
  destruct (link s) as [| [] l]; simpl; eauto.
Qed.

Lemma data_dat_send_file tag s : data_dat (_send_file tag s).1 = data_dat s.
Proof.
  unfold _send_file, bind, gets, transport, modify.
  by destruct (link s) as [| [] l].
Qed.

Lemma written_channel_major fcs t vs :
  coeff_list fcs = inr t →
  Forall2 (λ '(k, y, x) v, coeff_list_get t x y k = Some v) loop_kyx vs →
  Forall int64 vs →
  channel_major fcs vs.
Proof.
  intros Ht Hvs H64. split; [| split; [done |]].
  - by rewrite <- (Forall2_length _ _ _ Hvs).
  - intros k y x Hk Hy Hx.
    destruct (coeff_list_entries _ _ k x y Ht) as (c & v & Hc & Hq & Hget);
      try done.
    exists c, v. repeat split; try done.
    destruct (Forall2_lookup_l _ _ _ _ _ Hvs (loop_kyx_lookup k y x Hk Hy Hx))
      as (v' & Hv' & Hget').
    simpl in Hget'. congruence.
Qed.

Section Payload.
Variable core_calculate_scales : IIR → Scales.
Variable core_update_dependent_regs : Scales → IIR → option (gmap Z Z).

Abbreviation set_filter' :=
  (set_filter core_calculate_scales core_update_dependent_regs).
Abbreviation upload_and_enable' :=
  (upload_and_enable core_calculate_scales core_update_dependent_regs).
Abbreviation _set_mmap_access' :=
  (_set_mmap_access core_calculate_scales core_update_dependent_regs).

Lemma keeps_after_upload {X} (f : IIR → X) ch :
  (∀ s r, f (with_localregs s r) = f s) →
  (∀ s r, f (with_remoteregs s r) = f s) →
  (∀ s l, f (with_link s l) = f s) →
  (∀ s b, f (with_mmap_access s b) = f s) →
  (∀ s d, f (with_data_dat s d) = f s) →
  Keeps f (after_upload core_calculate_scales core_update_dependent_regs ch).
Proof.
  intros. unfold after_upload.
  apply keeps_bind; [by apply keeps_set_mmap_access | intros _].
  apply keeps_bind; [by apply keeps_modify | intros _].
  by apply keeps_enable.
Qed.

(** Either nothing is uploaded, or one file is, and it is the payload of
    the filters that the instrument holds. *)
Lemma upload_and_enable_payload ch s :
  sent_files (upload_and_enable' ch s).1 = sent_files s
  ∨ ∃ fcs vs,
      filter_coeffs s = inr fcs
      ∧ channel_major fcs vs
      ∧ sent_files (upload_and_enable' ch s).1
        = (sent_files s ++ [("j", flat_map le64 vs)])%list.
Proof.
  unfold upload_and_enable.
  destruct (filter_coeffs s) as [e | fcs] eqn:Hfcs.
  { left. erewrite bind_inl; [done |]. by rewrite Hfcs. }
  erewrite bind_inr; [| by rewrite Hfcs].
  destruct (coeff_list fcs) as [e | t] eqn:Ht.
  { left. by erewrite bind_inl. }
  erewrite bind_inr by reflexivity.
  destruct (write_data_dat t s) as [s3 [e | []]] eqn:Hw.
  { left. erewrite bind_inl by exact Hw. simpl.
    pose proof (keeps_write_data_dat sent_files (λ _ _, eq_refl) t s) as K.
    by rewrite Hw in K. }
  erewrite bind_inr by exact Hw.
  assert (Hs3 : sent_files s3 = sent_files s).
  { pose proof (keeps_write_data_dat sent_files (λ _ _, eq_refl) t s) as K.
    by rewrite Hw in K. }
  destruct (write_data_dat_returns _ _ _ Hw) as (vs & Hvs & H64 & Hdat).
  destruct (_set_mmap_access' true s3) as [s4 [e | []]] eqn:Hm.
  { left. erewrite bind_inl by exact Hm. simpl.
    pose proof (keeps_set_mmap_access sent_files (λ _ _, eq_refl) (λ _ _, eq_refl)
                  (λ _ _, eq_refl) (λ _ _, eq_refl)
                  core_calculate_scales core_update_dependent_regs true s3) as K.
    rewrite Hm in K. simpl in K. congruence. }
  erewrite bind_inr by exact Hm.
  assert (Hs4 : sent_files s4 = sent_files s ∧ data_dat s4 = data_dat s3).
  { pose proof (keeps_set_mmap_access sent_files (λ _ _, eq_refl) (λ _ _, eq_refl)
                  (λ _ _, eq_refl) (λ _ _, eq_refl)
                  core_calculate_scales core_update_dependent_regs true s3) as K1.
    pose proof (keeps_set_mmap_access data_dat (λ _ _, eq_refl) (λ _ _, eq_refl)
                  (λ _ _, eq_refl) (λ _ _, eq_refl)
                  core_calculate_scales core_update_dependent_regs true s3) as K2.
    rewrite Hm in K1, K2. simpl in K1, K2. split; congruence. }
  destruct Hs4 as [Hs4 Hd4].
  destruct (send_file_outcome "j" s4) as [[Hsame [e He]] | [Hok Hsent]].
  - left. destruct (_send_file "j" s4) as [s5 r5] eqn:Hsend. simpl in *. subst r5.
    erewrite bind_inl by exact Hsend. simpl. congruence.
  - right. exists fcs, vs. split; [done |].
    split; [by eapply written_channel_major |].
    destruct (_send_file "j" s4) as [s5 r5] eqn:Hsend. simpl in *. subst r5.
    erewrite bind_inr by exact Hsend.
    fold (after_upload core_calculate_scales core_update_dependent_regs ch).
    rewrite (keeps_after_upload sent_files ch) by done.
    rewrite Hsent, Hs4, Hd4, Hdat. done.
Qed.

Lemma keeps_convert_and_store_sent ch fc : Keeps sent_files (convert_and_store ch fc).
Proof.
  unfold convert_and_store.
  apply keeps_bind; [apply keeps_lift_sum | intros _].
  apply keeps_bind; [apply keeps_lift_sum | intros _].
  apply keeps_bind; [apply keeps_lift_sum | intros a].
  destruct (decide (ch = 1)); by apply keeps_modify.
Qed.

(** However a call of [set_filter] ends, it has uploaded nothing or one
    file with tag j, the channel-major sequence of the coefficients of
    the filters that the instrument then holds. *)
Lemma set_filter_payload_cases ch sample_rate filter_coefficients s :
  let out := set_filter' ch sample_rate filter_coefficients s in
  sent_files out.1 = sent_files s
  ∨ ∃ fcs vs,
      filter_coeffs out.1 = inr fcs
      ∧ channel_major fcs vs
      ∧ sent_files out.1 = (sent_files s ++ [("j", flat_map le64 vs)])%list.
Proof.
  intros out. subst out. rewrite set_filter_phases.
  set (prefix :=
    lift_sum (check_parameter_valid_set ch [1; 2] "filter channel") >>
    lift_sum (check_parameter_valid_set sample_rate ["high"; "low"]
                "filter sample rate") >>
    stage_samplerate ch sample_rate >>
    (match filter_coefficients with
     | Some fc => convert_and_store ch fc
     | None => ret tt
     end)).
  assert (Hprefix : Keeps sent_files prefix).
  { unfold prefix.
    apply keeps_bind; [apply keeps_lift_sum | intros _].
    apply keeps_bind; [apply keeps_lift_sum | intros _].
    apply keeps_bind; [| intros _].
    - unfold stage_samplerate. destruct (decide (ch = 1)); by apply keeps_modify.
    - destruct filter_coefficients;
        [apply keeps_convert_and_store_sent | apply keeps_ret]. }
  assert (Hsplit : ∀ s0,
    (lift_sum (check_parameter_valid_set ch [1; 2] "filter channel") >>
     lift_sum (check_parameter_valid_set sample_rate ["high"; "low"]
                 "filter sample rate") >>
     stage_samplerate ch sample_rate >>
     (match filter_coefficients with
      | Some fc => convert_and_store ch fc
      | None => ret tt
      end) >>
     upload_and_enable' ch) s0
    = bind prefix (λ _, upload_and_enable' ch) s0).
  { intros s0. unfold prefix, bind.
    destruct (lift_sum (check_parameter_valid_set ch [1; 2] "filter channel") s0)
      as [s1 [e | []]]; [done |].
    destruct (lift_sum (check_parameter_valid_set sample_rate ["high"; "low"]
                          "filter sample rate") s1) as [s1' [e | []]]; [done |].
    by destruct (stage_samplerate ch sample_rate s1') as [s1'' [e | []]]. }
  rewrite Hsplit. specialize (Hprefix s).
  destruct (prefix s) as [s2 [e | []]] eqn:Hpre; simpl in Hprefix.
  - left. by erewrite bind_inl by exact Hpre.
  - erewrite bind_inr by exact Hpre.
    destruct (upload_and_enable_payload ch s2) as [Hsame | (fcs & vs & Hf & Hcm & Hsent)].
    + left. congruence.
    + right. exists fcs, vs. split; [| split; [done | congruence]].
      rewrite <- Hf. apply filter_coeffs_ext.
      * by apply (keeps_upload_and_enable filter_ch1).
      * by apply (keeps_upload_and_enable filter_ch2).
Qed.

(** When the upload fails, [set_filter] ends there: the access mode that
    the preceding step enabled is still enabled. *)
Lemma upload_failure_leaves_access_enabled ch s3 s4 e :
  _set_mmap_access' true s3 = (s4, inr tt) →
  (_send_file "j" s4).2 = inl e →
  let out := (_set_mmap_access' true >> _send_file "j" >>
              after_upload core_calculate_scales core_update_dependent_regs ch) s3 in
  out.2 = inl e ∧ mmap_access out.1 = true.
Proof.
  intros Hm Hsend out. subst out.
  erewrite bind_inr by exact Hm.
  destruct (_send_file "j" s4) as [s5 r5] eqn:Hs. simpl in Hsend. subst r5.
  erewrite bind_inl by exact Hs. simpl. split; [done |].
  assert (H5 : mmap_access s5 = mmap_access s4).
  { replace s5 with (_send_file "j" s4).1 by (by rewrite Hs).
    unfold _send_file, bind, gets, transport, modify.
    by destruct (link s4) as [| [] l]. }
  rewrite H5.
  replace s4 with (_set_mmap_access' true s3).1 by (by rewrite Hm).
  unfold _set_mmap_access. unfold bind at 1. unfold modify at 1.
  by rewrite (keeps_commit mmap_access).
Qed.

End Payload.

(** C5, as first stated, fails: with the default all-pass filters the
    uploaded payload is the channel-major sequence and differs from the
    component-major one (the fifth integer is b0 of channel 1, not the
    gain of channel 2). *)
Lemma set_filter_payload_not_component_major :
  let out := set_filter plain_scales plain_hook 1 "high" None after_defaults in
  let fcs := replicate 4 [1; 1; 0; 0; 0; 0; 1; 1; 0; 0; 0; 0]%float in
  let p := default [] (payload_in_order loop_kyx fcs) in
  let p' := default [] (payload_in_order component_major_order fcs) in
  filter_coeffs out.1 = inr fcs
  ∧ sent_files out.1 = [("j", p)]
  ∧ payload_in_order loop_kyx fcs = Some p
  ∧ payload_in_order component_major_order fcs = Some p'
  ∧ p ≠ p'
  ∧ unpack_q (take 8 (drop 32 p)) = 2 ^ 45
  ∧ unpack_q (take 8 (drop 32 p')) = 2 ^ 24.
Proof.
  intros out fcs p p'.
  split; [by vm_compute |]. split; [by vm_compute |].
  split; [by vm_compute |]. split; [by vm_compute |].
  split; [| split; by vm_compute].
  intros Heq. apply (f_equal (λ l, l !! 35%nat)) in Heq.
  vm_compute in Heq. discriminate.
Qed.

Lemma le64_unpack_q v : int64 v → unpack_q (le64 v) = v ∧ length (le64 v) = 8%nat.
Proof.
  intros [Hlo Hhi]. apply pack_q_unpack_q. unfold pack_q.
  destruct (Z.leb_spec (- 2 ^ 63) v); [| lia].
  destruct (Z.ltb_spec v (2 ^ 63)); [| lia]. reflexivity.
Qed.

(** X20: the positive half of the reshape claim at the level of
    [set_filter]: an accepted array of five different row objects is
    stored as the four section rows of the memory map format -- in each
    section [b0], [b1] and [b2] multiplied by the section's [s], the slot
    of [s] holding 1.0 in sections 1 to 3 and the gain [G] in section 4. *)
Lemma set_filter_distinct_rows_stored
    core_calculate_scales core_update_dependent_regs
    ch sample_rate s h p0 p1 p2 p3 p4 G r1 r2 r3 r4 r1' r2' r3' r4' :
  let fc := mkCoeffArray h [p0; p1; p2; p3; p4] in
  ch ∈ [1; 2] → sample_rate ∈ ["high"; "low"] →
  check_dimensions fc = inr tt → check_values fc = inr tt →
  NoDup [p0; p1; p2; p3; p4] →
  h !! p0 = Some [G] → h !! p1 = Some r1 → h !! p2 = Some r2 →
  h !! p3 = Some r3 → h !! p4 = Some r4 →
  scaled_section 1 r1 = Some r1' → scaled_section 1 r2 = Some r2' →
  scaled_section 1 r3 = Some r3' → scaled_section G r4 = Some r4' →
  ∃ a, filter_of ch (set_filter core_calculate_scales core_update_dependent_regs
                       ch sample_rate (Some fc) s).1 = Some a
       ∧ length (rows a) = 4%nat
       ∧ getrow a 0 = Some r1' ∧ getrow a 1 = Some r2'
       ∧ getrow a 2 = Some r3' ∧ getrow a 3 = Some r4'.
Proof.
  intros fc Hch Hrate Hdim Hval Hnd H0 H1 H2 H3 H4 S1 S2 S3 S4.
  destruct (reshape_distinct_rows h p0 p1 p2 p3 p4 G r1 r2 r3 r4 r1' r2' r3' r4')
    as (a & Hre & Hrest); try done.
  exists a. split; [| done].
  by apply set_filter_stored.
Qed.

(** ** Further properties *)

Lemma bind_returns {A B} (m : M A) (k : A → M B) s s' b :
  bind m k s = (s', inr b) → ∃ s1 a, m s = (s1, inr a) ∧ k a s1 = (s', inr b).
Proof.
  unfold bind. destruct (m s) as [s1 [e | a]]; [done |]. eauto.
Qed.

Lemma Quiet_needs_commit_tail cs hook {A} (res : A) :
  Quiet (commit cs hook >> ret res).
Proof. apply Quiet_bind; [apply Quiet_commit | intros _; apply Quiet_ret]. Qed.

Lemma keeps_needs_commit_tail {X} (f : IIR → X) cs hook {A} (res : A) :
  (∀ s r, f (with_localregs s r) = f s) →
  (∀ s r, f (with_remoteregs s r) = f s) →
  (∀ s l, f (with_link s l) = f s) →
  Keeps f (commit cs hook >> ret res).
Proof.
  intros. apply keeps_bind; [by apply keeps_commit | intros _; apply keeps_ret].
Qed.

(** *** The scalar setters on valid and on invalid requests *)

Section ScalarSetters.
Variable core_calculate_scales : IIR → Scales.
Variable core_update_dependent_regs : Scales → IIR → option (gmap Z Z).

Abbreviation set_control_matrix' :=
  (set_control_matrix core_calculate_scales core_update_dependent_regs).
Abbreviation set_gains_offsets' :=
  (set_gains_offsets core_calculate_scales core_update_dependent_regs).
Abbreviation commit' :=
  (commit core_calculate_scales core_update_dependent_regs).

Lemma set_control_matrix_valid_run ch scale_in1 scale_in2 s :
  matrix_request_ok ch scale_in1 scale_in2 = true →
  set_control_matrix' ch scale_in1 scale_in2 s
  = (commit' >> ret tt)
      (with_user s (with_matrix_row ch scale_in1 scale_in2 (user s))).
Proof.
  unfold matrix_request_ok. intros Hok.
  apply andb_prop in Hok as [Hok H2]. apply andb_prop in Hok as [Hch H1].
  apply bool_decide_eq_true_1 in Hch.
  unfold set_control_matrix, needs_commit, check_parameter_valid_set,
    check_parameter_valid_range, with_matrix_row.
  rewrite decide_True by done. rewrite H1, H2.
  unfold bind at 1 2 3 4. simpl. unfold bind at 1.
  by destruct (decide (ch = 1)).
Qed.

Lemma set_control_matrix_invalid_run ch scale_in1 scale_in2 s :
  matrix_request_ok ch scale_in1 scale_in2 = false →
  ∃ desc, set_control_matrix' ch scale_in1 scale_in2 s
          = (s, inl (ValidationError desc)).
Proof.
  unfold matrix_request_ok. intros Hbad.
  apply set_control_matrix_invalid.
  destruct (decide (ch ∈ [1; 2])) as [Hch | Hch]; [| by left].
  rewrite (bool_decide_eq_true_2 _ Hch) in Hbad. simpl in Hbad.
  destruct (in_range scale_in1 (-20) 20); [| by right; left].
  destruct (in_range scale_in2 (-20) 20); [done | by right; right].
Qed.

(** X1: [set_control_matrix] raises a validation error exactly when the
    channel is not 1 or 2 or one of the two scales lies outside
    [-20, 20], and then the instrument is as before the call. *)
Theorem set_control_matrix_validation ch scale_in1 scale_in2 s :
  let out := set_control_matrix' ch scale_in1 scale_in2 s in
  ((∃ desc, out.2 = inl (ValidationError desc))
   ↔ matrix_request_ok ch scale_in1 scale_in2 = false)
  ∧ (matrix_request_ok ch scale_in1 scale_in2 = false → out.1 = s).
Proof.
  intros out. subst out.
  destruct (matrix_request_ok ch scale_in1 scale_in2) eqn:Hok.
  - rewrite set_control_matrix_valid_run by done.
    split; [| done]. split; [| done].
    intros [desc Hd]. by apply Quiet_needs_commit_tail in Hd.
  - destruct (set_control_matrix_invalid_run _ _ _ s Hok) as [desc ->].
    split; [| done]. split; [done |]. eauto.
Qed.

(** X2: a valid [set_control_matrix] request stores the two scales as the
    row of its channel and keeps the row of the other channel and every
    gain and offset, whether the commit that follows returns or raises;
    it stages no sample rate, replaces no filter and uploads nothing. *)
Theorem set_control_matrix_stores ch scale_in1 scale_in2 s :
  matrix_request_ok ch scale_in1 scale_in2 = true →
  let s' := (set_control_matrix' ch scale_in1 scale_in2 s).1 in
  user s' = with_matrix_row ch scale_in1 scale_in2 (user s)
  ∧ filter_ch1 s' = filter_ch1 s ∧ filter_ch2 s' = filter_ch2 s
  ∧ _decfilter1 s' = _decfilter1 s ∧ _decfilter2 s' = _decfilter2 s
  ∧ sent_files s' = sent_files s.
Proof.
  intros Hok s'. subst s'. rewrite set_control_matrix_valid_run by done.
  repeat split;
    match goal with
    | |- ?f _ = _ => by rewrite (keeps_needs_commit_tail f)
    end.
Qed.

Lemma set_gains_offsets_valid_run ch input_gain output_gain input_offset output_offset s :
  gains_request_ok ch input_gain output_gain input_offset output_offset = true →
  set_gains_offsets' ch input_gain output_gain input_offset output_offset s
  = (commit' >> ret tt)
      (with_user s (with_gains_offsets ch input_gain output_gain
                      input_offset output_offset (user s))).
Proof.
  unfold gains_request_ok. intros Hok.
  apply andb_prop in Hok as [Hok H4]. apply andb_prop in Hok as [Hok H3].
  apply andb_prop in Hok as [Hok H2]. apply andb_prop in Hok as [Hch H1].
  apply bool_decide_eq_true_1 in Hch.
  unfold set_gains_offsets, needs_commit, check_parameter_valid_set,
    check_parameter_valid_range, with_gains_offsets.
  rewrite decide_True by done. rewrite H1, H2, H3, H4.
  unfold bind at 1 2 3 4 5 6. simpl. unfold bind at 1.
  by destruct (decide (ch = 1)).
Qed.

Lemma set_gains_offsets_invalid_run ch input_gain output_gain input_offset output_offset s :
  gains_request_ok ch input_gain output_gain input_offset output_offset = false →
  ∃ desc, set_gains_offsets' ch input_gain output_gain input_offset output_offset s
          = (s, inl (ValidationError desc)).
Proof.
  unfold gains_request_ok. intros Hbad.
  apply set_gains_offsets_invalid.
  destruct (decide (ch ∈ [1; 2])) as [Hch | Hch]; [| by left].
  rewrite (bool_decide_eq_true_2 _ Hch) in Hbad. simpl in Hbad.
  destruct (in_range input_gain (-100) 100); [| by right; left].
  destruct (in_range output_gain (-100) 100); [| by right; right; left].
  destruct (in_range input_offset (-1) 1); [| by right; right; right; left].
  destruct (in_range output_offset (-2) 2); [done | by right; right; right; right].
Qed.

(** X3: [set_gains_offsets] raises a validation error exactly when the
    channel is not 1 or 2, a gain lies outside [-100, 100], the input
    offset outside [-1, 1] or the output offset outside [-2, 2]; then the
    instrument is as before the call.  A valid request stores the four
    values for its channel and keeps the other channel's values and the
    control matrix, whatever the commit that follows does. *)
Theorem set_gains_offsets_behaviour ch input_gain output_gain input_offset output_offset s :
  let ok := gains_request_ok ch input_gain output_gain input_offset output_offset in
  let out := set_gains_offsets' ch input_gain output_gain input_offset output_offset s in
  ((∃ desc, out.2 = inl (ValidationError desc)) ↔ ok = false)
  ∧ (if ok
     then user out.1 = with_gains_offsets ch input_gain output_gain
                         input_offset output_offset (user s)
     else out.1 = s).
Proof.
  intros ok out. subst ok out.
  destruct (gains_request_ok ch input_gain output_gain input_offset output_offset) eqn:Hok.
  - rewrite set_gains_offsets_valid_run by done. split.
    + split; [| done]. intros [desc Hd]. by apply Quiet_needs_commit_tail in Hd.
    + by rewrite (keeps_needs_commit_tail user).
  - destruct (set_gains_offsets_invalid_run _ _ _ _ _ s Hok) as [desc ->].
    split; [| done]. split; [done |]. eauto.
Qed.

End ScalarSetters.

(** *** Registers written at commit time read back *)

Lemma from_reg_unsigned_bound offset len reg :
  0 ≤ len → 0 ≤ from_reg_unsigned offset len reg < 2 ^ len.
Proof.
  intros Hlen. unfold from_reg_unsigned. rewrite Z.land_ones by done.
  apply Z.mod_pos_bound. by apply Z.pow_pos_nonneg.
Qed.

(** An assignment to a signed field that returns has staged a register
    whose field decodes to the rounded transform, which fits the field. *)
Lemma set_signed_returns reg offset len xf x s s' :
  0 ≤ offset → 0 < len →
  set_signed reg offset len xf x s = (s', inr tt) →
  ∃ v new,
    int_round (xf s x) = inr v
    ∧ - 2 ^ (len - 1) ≤ v < 2 ^ (len - 1)
    ∧ s' = with_localregs s (<[reg := new]> (localregs s))
    ∧ from_reg_signed offset len new = v.
Proof.
  intros Hoff Hlen. unfold set_signed, bind, gets, lift_sum, id. simpl.
  destruct (int_round (xf s x)) as [e | v] eqn:Hround; [done |]. simpl.
  unfold _accessor_set.
  destruct (to_reg_signed offset len v (reg_value s reg)) as [new |] eqn:Henc;
    [| done].
  intros [= <-].
  assert (Hv : - 2 ^ (len - 1) ≤ v < 2 ^ (len - 1)).
  { unfold to_reg_signed in Henc.
    destruct (Z.leb_spec (- 2 ^ (len - 1)) v); [| done].
    destruct (Z.ltb_spec v (2 ^ (len - 1))); [| done]. lia. }
  destruct (from_reg_signed_to_reg_signed offset len v (reg_value s reg))
    as (new' & Henc' & Hdec & _); try done.
  exists v, new. repeat split; try done; try lia. congruence.
Qed.

Lemma xform_matrixscale_env fe g s s' x :
  env s' = env s → xform_matrixscale fe g s' x = xform_matrixscale fe g s x.
Proof. intros H. unfold xform_matrixscale. by rewrite H. Qed.

(** One step of a commit-time update that returns. *)
Lemma set_signed_step reg offset len xf x s s' :
  0 ≤ offset → 0 < len →
  set_signed reg offset len xf x s = (s', inr tt) →
  int_round (xf s x) = inr (from_reg_signed offset len (reg_value s' reg))
  ∧ - 2 ^ (len - 1) ≤ from_reg_signed offset len (reg_value s' reg)
                    < 2 ^ (len - 1)
  ∧ env s' = env s ∧ user s' = user s
  ∧ ∀ r, r ≠ reg → reg_value s' r = reg_value s r.
Proof.
  intros Hoff Hlen Hrun.
  apply set_signed_returns in Hrun as (v & new & Hr & Hv & -> & Hd); [| done..].
  rewrite reg_value_staged, Hd. repeat split; try done; try lia.
  intros r Hne. by apply reg_value_staged_ne.
Qed.

(** X4: when [_update_control_matrix_regs] returns, each of the four
    control-matrix gain registers reads back, as a signed 16-bit field,
    the rounded value of its stored scale -- row entries of input 1 with
    the attenuation and ADC gain of channel 1, those of input 2 with the
    ones of channel 2 -- and every one of the four values fits 16 signed
    bits; the stored scales themselves are untouched. *)
Theorem update_control_matrix_regs_read_back s s' :
  _update_control_matrix_regs s = (s', inr tt) →
  let u := user s in
  int_round (xform_matrixscale frontend1 adc_gain1 s (_matrixscale_ch1_ch1 u))
    = inr (raw_matrixscale_ch1_ch1 s')
  ∧ int_round (xform_matrixscale frontend2 adc_gain2 s (_matrixscale_ch1_ch2 u))
    = inr (raw_matrixscale_ch1_ch2 s')
  ∧ int_round (xform_matrixscale frontend1 adc_gain1 s (_matrixscale_ch2_ch1 u))
    = inr (raw_matrixscale_ch2_ch1 s')
  ∧ int_round (xform_matrixscale frontend2 adc_gain2 s (_matrixscale_ch2_ch2 u))
    = inr (raw_matrixscale_ch2_ch2 s')
  ∧ Forall (λ v, - 2 ^ 15 ≤ v < 2 ^ 15)
      [ raw_matrixscale_ch1_ch1 s'; raw_matrixscale_ch1_ch2 s';
        raw_matrixscale_ch2_ch1 s'; raw_matrixscale_ch2_ch2 s' ]
  ∧ user s' = user s.
Proof.
  intros Hrun u. subst u. unfold _update_control_matrix_regs in Hrun.
  apply bind_returns in Hrun as (s0 & u & Hg & Hrun).
  inversion Hg; subst s0 u; clear Hg.
  apply bind_returns in Hrun as (s1 & [] & H1 & Hrun).
  apply bind_returns in Hrun as (s2 & [] & H2 & Hrun).
  apply bind_returns in Hrun as (s3 & [] & H3 & H4).
  apply set_signed_step in H1 as (R1 & B1 & E1 & U1 & K1); [| done..].
  apply set_signed_step in H2 as (R2 & B2 & E2 & U2 & K2); [| done..].
  apply set_signed_step in H3 as (R3 & B3 & E3 & U3 & K3); [| done..].
  apply set_signed_step in H4 as (R4 & B4 & E4 & U4 & K4); [| done..].
  rewrite (xform_matrixscale_env _ _ s) in R2 by done.
  rewrite (xform_matrixscale_env _ _ s) in R3 by congruence.
  rewrite (xform_matrixscale_env _ _ s) in R4 by congruence.
  unfold raw_matrixscale_ch1_ch1, raw_matrixscale_ch1_ch2,
    raw_matrixscale_ch2_ch1, raw_matrixscale_ch2_ch2.
  rewrite (K4 REG_CH0_CH0GAIN), (K3 REG_CH0_CH0GAIN), (K2 REG_CH0_CH0GAIN),
    (K4 REG_CH0_CH1GAIN), (K3 REG_CH0_CH1GAIN), (K4 REG_CH1_CH0GAIN) by done.
  repeat split; try done; try congruence.
  repeat constructor; lia.
Qed.

Lemma update_control_matrix_regs_read_back_witness :
  let s := after_defaults in
  let s' := (_update_control_matrix_regs after_defaults).1 in
  let u := user s in
  int_round (xform_matrixscale frontend1 adc_gain1 s (_matrixscale_ch1_ch1 u))
    = inr (raw_matrixscale_ch1_ch1 s')
  ∧ int_round (xform_matrixscale frontend2 adc_gain2 s (_matrixscale_ch1_ch2 u))
    = inr (raw_matrixscale_ch1_ch2 s')
  ∧ int_round (xform_matrixscale frontend1 adc_gain1 s (_matrixscale_ch2_ch1 u))
    = inr (raw_matrixscale_ch2_ch1 s')
  ∧ int_round (xform_matrixscale frontend2 adc_gain2 s (_matrixscale_ch2_ch2 u))
    = inr (raw_matrixscale_ch2_ch2 s')
  ∧ Forall (λ v, - 2 ^ 15 ≤ v < 2 ^ 15)
      [ raw_matrixscale_ch1_ch1 s'; raw_matrixscale_ch1_ch2 s';
        raw_matrixscale_ch2_ch1 s'; raw_matrixscale_ch2_ch2 s' ]
  ∧ user s' = user s.
Proof.
  apply (update_control_matrix_regs_read_back after_defaults). reflexivity.
Defined.

Lemma set_signed_div_step reg offset len den xf x s s' :
  0 ≤ offset → 0 < len →
  set_signed_div reg offset len den xf x s = (s', inr tt) →
  int_round (xf s x) = inr (from_reg_signed offset len (reg_value s' reg))
  ∧ - 2 ^ (len - 1) ≤ from_reg_signed offset len (reg_value s' reg)
                    < 2 ^ (len - 1)
  ∧ env s' = env s ∧ user s' = user s
  ∧ ∀ r, r ≠ reg → reg_value s' r = reg_value s r.
Proof.
  intros Hoff Hlen Hrun. unfold set_signed_div in Hrun.
  apply bind_returns in Hrun as (s0 & obj & Hg & Hrun).
  injection Hg as <- <-.
  apply bind_returns in Hrun as (s0 & [] & Hd & Hrun).
  assert (s0 = s) as ->.
  { unfold lift_sum in Hd.
    destruct (nonzero (den s)) as [e | []]; [done |]. by injection Hd. }
  by apply set_signed_step.
Qed.

(** X5: when [_update_gains_offsets_regs] returns, each of the eight
    scale and offset registers reads back, as a signed field of its width
    (18 bits for the scales, 14 for the input offsets, 17 for the output
    offsets), the rounded transform of the stored setting of its own
    channel; the stored settings are untouched. *)
Theorem update_gains_offsets_regs_read_back s s' :
  _update_gains_offsets_regs s = (s', inr tt) →
  let u := user s in
  int_round (xform_input_scale s (_input_scale1 u))
    = inr (raw_input_scale1 s')
  ∧ int_round (xform_output_scale dac_gain1 s (_output_scale1 u))
    = inr (raw_output_scale1 s')
  ∧ int_round (xform_input_offset frontend1 s (_input_offset1 u))
    = inr (raw_input_offset1 s')
  ∧ int_round (xform_output_offset dac_gain1 s (_output_offset1 u))
    = inr (raw_output_offset1 s')
  ∧ int_round (xform_input_scale s (_input_scale2 u))
    = inr (raw_input_scale2 s')
  ∧ int_round (xform_output_scale dac_gain2 s (_output_scale2 u))
    = inr (raw_output_scale2 s')
  ∧ int_round (xform_input_offset frontend2 s (_input_offset2 u))
    = inr (raw_input_offset2 s')
  ∧ int_round (xform_output_offset dac_gain2 s (_output_offset2 u))
    = inr (raw_output_offset2 s')
  ∧ user s' = user s.
Proof.
  intros Hrun u. subst u. unfold _update_gains_offsets_regs in Hrun.
  apply bind_returns in Hrun as (s0 & u & Hg & Hrun).
  inversion Hg; subst s0 u; clear Hg.
  apply bind_returns in Hrun as (s1 & [] & H1 & Hrun).
  apply bind_returns in Hrun as (s2 & [] & H2 & Hrun).
  apply bind_returns in Hrun as (s3 & [] & H3 & Hrun).
  apply bind_returns in Hrun as (s4 & [] & H4 & Hrun).
  apply bind_returns in Hrun as (s5 & [] & H5 & Hrun).
  apply bind_returns in Hrun as (s6 & [] & H6 & Hrun).
  apply bind_returns in Hrun as (s7 & [] & H7 & Hrun).
  rename Hrun into H8.
  apply set_signed_step in H1 as (R1 & B1 & E1 & U1 & K1); [| done..].
  apply set_signed_div_step in H2 as (R2 & B2 & E2 & U2 & K2); [| done..].
  apply set_signed_step in H3 as (R3 & B3 & E3 & U3 & K3); [| done..].
  apply set_signed_div_step in H4 as (R4 & B4 & E4 & U4 & K4); [| done..].
  apply set_signed_step in H5 as (R5 & B5 & E5 & U5 & K5); [| done..].
  apply set_signed_div_step in H6 as (R6 & B6 & E6 & U6 & K6); [| done..].
  apply set_signed_step in H7 as (R7 & B7 & E7 & U7 & K7); [| done..].
  apply set_signed_div_step in H8 as (R8 & B8 & E8 & U8 & K8); [| done..].
  unfold raw_input_scale1, raw_output_scale1, raw_input_offset1, raw_output_offset1, raw_input_scale2, raw_output_scale2, raw_input_offset2, raw_output_offset2.
  rewrite (K8 REG_INPUTSCALE_CH0), (K7 REG_INPUTSCALE_CH0), (K6 REG_INPUTSCALE_CH0), (K5 REG_INPUTSCALE_CH0), (K4 REG_INPUTSCALE_CH0), (K3 REG_INPUTSCALE_CH0), (K2 REG_INPUTSCALE_CH0) by done.
  rewrite (K8 REG_OUTPUTSCALE_CH0), (K7 REG_OUTPUTSCALE_CH0), (K6 REG_OUTPUTSCALE_CH0), (K5 REG_OUTPUTSCALE_CH0), (K4 REG_OUTPUTSCALE_CH0), (K3 REG_OUTPUTSCALE_CH0) by done.
  rewrite (K8 REG_INPUTOFFSET_CH0), (K7 REG_INPUTOFFSET_CH0), (K6 REG_INPUTOFFSET_CH0), (K5 REG_INPUTOFFSET_CH0), (K4 REG_INPUTOFFSET_CH0) by done.
  rewrite (K8 REG_OUTPUTOFFSET_CH0), (K7 REG_OUTPUTOFFSET_CH0), (K6 REG_OUTPUTOFFSET_CH0), (K5 REG_OUTPUTOFFSET_CH0) by done.
  rewrite (K8 REG_INPUTSCALE_CH1), (K7 REG_INPUTSCALE_CH1), (K6 REG_INPUTSCALE_CH1) by done.
  rewrite (K8 REG_OUTPUTSCALE_CH1), (K7 REG_OUTPUTSCALE_CH1) by done.
  rewrite (K8 REG_INPUTOFFSET_CH1) by done.
  unfold xform_input_scale, xform_output_scale, xform_input_offset,
    xform_output_offset in *.
  assert (env s1 = env s ∧ env s2 = env s ∧ env s3 = env s ∧ env s4 = env s
          ∧ env s5 = env s ∧ env s6 = env s ∧ env s7 = env s) as (F1 & F2 & F3 & F4 & F5 & F6 & F7)
    by (repeat split; congruence).
  rewrite ?F1 in R2. rewrite ?F2 in R3. rewrite ?F3 in R4. rewrite ?F4 in R5.
  rewrite ?F5 in R6. rewrite ?F6 in R7. rewrite ?F7 in R8.
  repeat split; try done; congruence.
Qed.

Lemma update_gains_offsets_regs_read_back_witness :
  let s := after_defaults in
  let s' := (_update_gains_offsets_regs after_defaults).1 in
  let u := user s in
  int_round (xform_input_scale s (_input_scale1 u))
    = inr (raw_input_scale1 s')
  ∧ int_round (xform_output_scale dac_gain1 s (_output_scale1 u))
    = inr (raw_output_scale1 s')
  ∧ int_round (xform_input_offset frontend1 s (_input_offset1 u))
    = inr (raw_input_offset1 s')
  ∧ int_round (xform_output_offset dac_gain1 s (_output_offset1 u))
    = inr (raw_output_offset1 s')
  ∧ int_round (xform_input_scale s (_input_scale2 u))
    = inr (raw_input_scale2 s')
  ∧ int_round (xform_output_scale dac_gain2 s (_output_scale2 u))
    = inr (raw_output_scale2 s')
  ∧ int_round (xform_input_offset frontend2 s (_input_offset2 u))
    = inr (raw_input_offset2 s')
  ∧ int_round (xform_output_offset dac_gain2 s (_output_offset2 u))
    = inr (raw_output_offset2 s')
  ∧ user s' = user s.
Proof.
  apply (update_gains_offsets_regs_read_back after_defaults
           (_update_gains_offsets_regs after_defaults).1).
  vm_compute. reflexivity.
Defined.

(** *** The monitor source codes that the scales can look up *)

Lemma monitor_source_gains_missing g1 g2 g3 g4 :
  dict_get (monitor_source_gains g1 g2 g3 g4) 7 = None.
Proof. reflexivity. Qed.

(** X6: [_calculate_scales] fails in two ways only.  It raises a key
    error exactly when one of the two monitor source fields holds 7, the
    one value of the three-bit field that the gain table has no entry
    for; with both fields in the table, it raises a division error
    exactly when precision mode is on and the decimation gain is zero. *)
Theorem calculate_scales_errors core_calculate_scales s :
  let r := _calculate_scales core_calculate_scales s in
  (r = inl KeyError ↔ mon1_source s = 7 ∨ mon2_source s = 7)
  ∧ (r = inl ZeroDivisionError
     ↔ mon1_source s ≤ 6 ∧ mon2_source s ≤ 6
       ∧ is_precision_mode (env s) = true
       ∧ (_deci_gain (env s) =? 0)%float = true)
  ∧ ∀ e, r = inl e → e = KeyError ∨ e = ZeroDivisionError.
Proof.
  intros r. subst r.
  pose proof (from_reg_unsigned_bound 0 3 (reg_value s REG_MONSELECT)) as B1.
  pose proof (from_reg_unsigned_bound 3 3 (reg_value s REG_MONSELECT)) as B2.
  fold (mon1_source s) in B1. fold (mon2_source s) in B2.
  change (2 ^ 3) with 8 in B1, B2.
  set (base := core_calculate_scales s).
  destruct (Z_le_gt_dec (mon1_source s) 6) as [H1 | H1].
  - destruct (monitor_source_gains_lookup base (mon1_source s))
      as (g1 & _ & Hd1); [lia |].
    destruct (Z_le_gt_dec (mon2_source s) 6) as [H2 | H2].
    + destruct (monitor_source_gains_lookup base (mon2_source s))
        as (g2 & _ & Hd2); [lia |].
      unfold _calculate_scales. fold base. rewrite Hd1, Hd2.
      cbn [elift ebind]. unfold truediv, nonzero.
      destruct (is_precision_mode (env s)).
      * destruct (_deci_gain (env s) =? 0)%float; cbn [ebind].
        -- split; [split; [done | lia] |].
           split; [done |]. intros e [= <-]. by right.
        -- split; [split; [done | lia] |].
           split; [split; [done | by intros (_ & _ & _ & ?)] | done].
      * cbn [ebind]. split; [split; [done | lia] |].
        split; [split; [done | by intros (_ & _ & ? & _)] | done].
    + assert (H7 : mon2_source s = 7) by lia.
      unfold _calculate_scales. fold base. rewrite Hd1. rewrite H7.
      rewrite monitor_source_gains_missing. cbn [elift ebind].
      split; [split; [by right | done] |].
      split; [split; [done | lia] |]. intros e [= <-]. by left.
  - assert (H7 : mon1_source s = 7) by lia.
    unfold _calculate_scales. rewrite H7, monitor_source_gains_missing.
    cbn [elift ebind].
    split; [split; [by left | done] |].
    split; [split; [done | lia] |]. intros e [= <-]. by left.
Qed.

(** *** The two checks of the coefficient array *)

(** The arrays that the dimension check lets through. *)
Lemma check_dimensions_inr fc :
  check_dimensions fc = inr tt
  ↔ length (rows fc) = 5%nat
    ∧ ∃ r0 r1 r2 r3,
        getrow fc 0 = Some r0 ∧ length r0 = 1%nat
        ∧ getrow fc 1 = Some r1 ∧ length r1 = 6%nat
        ∧ getrow fc 2 = Some r2 ∧ length r2 = 6%nat
        ∧ getrow fc 3 = Some r3 ∧ length r3 = 6%nat.
Proof.
  split.
  - unfold check_dimensions.
    destruct (decide (length (rows fc) ≠ 5%nat)) as [Hne | Heq].
    { unfold check_parameter_valid_set.
      rewrite decide_False; [done |]. rewrite list_elem_of_singleton. done. }
    apply dec_stable in Heq. cbn [ebind seq for_E].
    destruct (getrow fc 0) as [r0 |]; [| done]. cbn [elift ebind].
    destruct (decide (0%nat = 0%nat)); [| done].
    destruct (decide (length r0 ≠ 1%nat)) as [N0 | L0].
    { unfold check_parameter_valid_set.
      rewrite decide_False; [done |]. by rewrite list_elem_of_singleton. }
    cbn [ebind].
    destruct (getrow fc 1) as [r1 |]; [| done]. cbn [elift ebind].
    destruct (decide (1%nat = 0%nat)); [done |].
    destruct (decide (length r1 ≠ 6%nat)) as [N1 | L1].
    { unfold check_parameter_valid_set.
      rewrite decide_False; [done |]. by rewrite list_elem_of_singleton. }
    cbn [ebind].
    destruct (getrow fc 2) as [r2 |]; [| done]. cbn [elift ebind].
    destruct (decide (2%nat = 0%nat)); [done |].
    destruct (decide (length r2 ≠ 6%nat)) as [N2 | L2].
    { unfold check_parameter_valid_set.
      rewrite decide_False; [done |]. by rewrite list_elem_of_singleton. }
    cbn [ebind].
    destruct (getrow fc 3) as [r3 |]; [| done]. cbn [elift ebind].
    destruct (decide (3%nat = 0%nat)); [done |].
    destruct (decide (length r3 ≠ 6%nat)) as [N3 | L3].
    { unfold check_parameter_valid_set.
      rewrite decide_False; [done |]. by rewrite list_elem_of_singleton. }
    intros _. apply dec_stable in L0, L1, L2, L3.
    split; [done |]. exists r0, r1, r2, r3. by repeat split.
  - intros (Hlen & r0 & r1 & r2 & r3 & H0 & L0 & H1 & L1 & H2 & L2 & H3 & L3).
    unfold check_dimensions. rewrite Hlen. cbn [ebind seq for_E].
    rewrite H0, H1, H2, H3. cbn [elift ebind]. rewrite L0, L1, L2, L3.
    repeat (case_decide; [congruence |]). done.
Qed.

(** X7: the dimension check passes exactly on arrays of five rows whose
    row 0 has one entry and whose rows 1, 2 and 3 have six entries each;
    row 4 is not looked at.  An array with another number of rows is
    rejected with the validation error of the number of rows. *)
Theorem check_dimensions_exact fc :
  (check_dimensions fc = inr tt
   ↔ length (rows fc) = 5%nat
     ∧ ∃ r0 r1 r2 r3,
         getrow fc 0 = Some r0 ∧ length r0 = 1%nat
         ∧ getrow fc 1 = Some r1 ∧ length r1 = 6%nat
         ∧ getrow fc 2 = Some r2 ∧ length r2 = 6%nat
         ∧ getrow fc 3 = Some r3 ∧ length r3 = 6%nat)
  ∧ (length (rows fc) ≠ 5%nat →
     check_dimensions fc
     = inl (ValidationError "number of coefficient array rows")).
Proof.
  split; [apply check_dimensions_inr |].
  intros Hne. unfold check_dimensions.
  rewrite decide_True by done.
  unfold check_parameter_valid_set.
  rewrite decide_False; [done |]. by rewrite list_elem_of_singleton.
Qed.

Lemma errors_in_ebind {A B} P (m : E A) (k : A → E B) :
  errors_in P m → (∀ a, errors_in P (k a)) → errors_in P (ebind m k).
Proof.
  intros Hm Hk e. destruct m as [e' | a]; simpl; [| apply Hk].
  intros [= ->]. by apply Hm.
Qed.

Lemma errors_in_for_E {A} P (l : list A) (body : A → E unit) :
  (∀ a, errors_in P (body a)) → errors_in P (for_E l body).
Proof.
  intros Hb. induction l as [| a l IH]; simpl; [done |].
  apply errors_in_ebind; auto.
Qed.

Lemma errors_in_range (P : exn → Prop) desc v lo hi :
  P (ValidationError desc) →
  errors_in P (check_parameter_valid_range v lo hi desc).
Proof.
  intros HP e. unfold check_parameter_valid_range.
  destruct (in_range v lo hi); [done | by intros [= <-]].
Qed.

Lemma errors_in_elift {A} (P : exn → Prop) e (o : option A) :
  P e → errors_in P (elift e o).
Proof. intros HP e'. destruct o; simpl; [done | by intros [= <-]]. Qed.

(** X8: whichever entry of the array is out of range, the validation
    error of the values check describes it as entry m = 0, n = 0; apart
    from that error the check fails only with an out-of-bounds access. *)
Theorem check_values_error_description fc e :
  check_values fc = inl e →
  e = ValidationError "coefficient array entry m = 0, n = 0" ∨ e = IndexError.
Proof.
  revert e.
  change (errors_in (λ e, e = ValidationError entry_desc ∨ e = IndexError)
            (check_values fc)).
  unfold check_values.
  apply errors_in_ebind; [apply errors_in_elift; by right | intros g].
  apply errors_in_ebind; [apply errors_in_range; by left | intros _].
  apply errors_in_for_E. intros m. apply errors_in_for_E. intros n.
  apply errors_in_ebind; [apply errors_in_elift; by right | intros c].
  apply errors_in_range. by left.
Qed.

Lemma check_values_error_description_witness :
  ValidationError entry_desc
  = ValidationError "coefficient array entry m = 0, n = 0"
  ∨ ValidationError entry_desc = IndexError.
Proof.
  apply (check_values_error_description gain_near_8e6). reflexivity.
Defined.

(** *** Accepted arrays and the shape of the stored filter *)

Lemma for_E_inr {A} (l : list A) (body : A → E unit) :
  for_E l body = inr tt → ∀ a, a ∈ l → body a = inr tt.
Proof.
  induction l as [| a l IH]; simpl; intros Hrun b Hb; [by apply elem_of_nil in Hb |].
  destruct (body a) as [e | []] eqn:Ha; [done |]. simpl in Hrun.
  apply elem_of_cons in Hb as [-> | Hb]; [done | by apply IH].
Qed.

(** What the two checks establish about an array that passes them. *)
Lemma accepted_shape fc :
  check_dimensions fc = inr tt → check_values fc = inr tt →
  ∃ G r1 r2 r3 r4,
    has_rows fc G r1 r2 r3 r4
    ∧ length r1 = 6%nat ∧ length r2 = 6%nat ∧ length r3 = 6%nat
    ∧ (6 ≤ length r4)%nat
    ∧ gain_ok G = true
    ∧ forallb coeff_ok r1 = true ∧ forallb coeff_ok r2 = true
    ∧ forallb coeff_ok r3 = true ∧ forallb coeff_ok (take 6 r4) = true.
Proof.
  intros Hdim Hval.
  apply (proj1 (check_dimensions_inr fc)) in Hdim
    as (Hlen & r0 & r1 & r2 & r3 & H0 & L0 & H1 & L1 & H2 & L2 & H3 & L3).
  destruct r0 as [| G [| ? ?]]; try done.
  assert (H4 : is_Some (getrow fc 4)).
  { unfold check_values in Hval.
    rewrite (getitem_row _ _ _ _ H0) in Hval. cbn [lookup list_lookup elift ebind] in Hval.
    destruct (check_parameter_valid_range G gain_lo gain_hi entry_desc)
      as [e | []]; [done |].
    cbn [ebind] in Hval.
    pose proof (for_E_inr _ _ Hval 4%nat) as Hrow.
    specialize (Hrow ltac:(apply elem_of_seq; lia)).
    pose proof (for_E_inr _ _ Hrow 0%nat) as Hent.
    specialize (Hent ltac:(apply elem_of_seq; lia)).
    unfold getitem in Hent. destruct (getrow fc 4); [eauto | done]. }
  destruct H4 as [r4 H4].
  assert (Hrows : has_rows fc G r1 r2 r3 r4) by by repeat split.
  rewrite (check_values_rows _ _ _ _ _ _ Hrows) in Hval.
  unfold check_parameter_valid_range at 1 in Hval.
  destruct (in_range G gain_lo gain_hi) eqn:HG; [| done]. cbn [ebind] in Hval.
  destruct (scan_row 6 r1) as [e | []] eqn:S1; [done |]. cbn [ebind] in Hval.
  destruct (scan_row 6 r2) as [e | []] eqn:S2; [done |]. cbn [ebind] in Hval.
  destruct (scan_row 6 r3) as [e | []] eqn:S3; [done |]. cbn [ebind] in Hval.
  apply scan_row_passes in S1 as [_ S1], S2 as [_ S2], S3 as [_ S3],
    Hval as [L4 S4].
  rewrite firstn_all2 in S1, S2, S3 by lia.
  exists G, r1, r2, r3, r4. by repeat split.
Qed.

Lemma getrow_slice h rs m :
  (m < 4)%nat →
  getrow (mkCoeffArray h (take 4 (drop 1 rs))) m = getrow (mkCoeffArray h rs) (S m).
Proof.
  intros Hm. unfold getrow. simpl.
  by rewrite lookup_take_lt, lookup_drop by done.
Qed.

(** The reshape keeps the section rows in place and at their lengths. *)
Lemma reshape_rows fc G r1 r2 r3 r4 :
  has_rows fc G r1 r2 r3 r4 →
  (4 ≤ length r1)%nat → (4 ≤ length r2)%nat →
  (4 ≤ length r3)%nat → (4 ≤ length r4)%nat →
  ∃ a, reshape fc = inr a
       ∧ length (rows a) = 4%nat
       ∧ ∀ m, (m < 4)%nat → row_len a m = row_len fc (S m).
Proof.
  intros (Hlen & H0 & H1 & H2 & H3 & H4) L1 L2 L3 L4.
  unfold reshape.
  destruct (fold_gain_defined (seq 1 4) fc) as (a & Hfold & Hrows & Hlens).
  { intros n Hn. unfold row_len.
    assert (n = 1 ∨ n = 2 ∨ n = 3 ∨ n = 4)%nat as [-> | [-> | [-> | ->]]]
      by (apply elem_of_seq in Hn; lia);
      [rewrite H1 | rewrite H2 | rewrite H3 | rewrite H4]; simpl; eauto. }
  rewrite Hfold. cbn [ebind].
  assert (Hr0 : row_len a 0 = Some 1%nat).
  { rewrite Hlens. unfold row_len. by rewrite H0. }
  destruct (row_len_Some _ _ _ Hr0) as (l0 & Hl0 & Hlen0).
  destruct l0 as [| g [| ? ?]]; try done.
  rewrite (getitem_row _ _ _ _ Hl0). cbn [lookup list_lookup elift ebind].
  assert (Hr4 : row_len a 4 = Some (length r4)).
  { rewrite Hlens. unfold row_len. by rewrite H4. }
  destruct (row_len_Some _ _ _ Hr4) as (l4 & Hl4 & Hlen4).
  destruct (update_row_defined a 4 (λ l, setitem l 0 g) l4 Hl4) as [a' Ha'].
  { unfold setitem. rewrite decide_True by lia. eauto. }
  rewrite Ha'. cbn [elift ebind]. eexists. split; [reflexivity |].
  assert (Hlens' : ∀ m, row_len a' m = row_len a m).
  { eapply update_row_row_len; [| exact Ha']. intros l l'. unfold setitem.
    case_decide; [| done]. intros [= <-]. apply length_insert. }
  destruct (update_row_inv _ _ _ _ Ha') as (p & l & l' & _ & _ & _ & Heq).
  assert (Hrows' : rows a' = rows fc) by (rewrite Heq; simpl; congruence).
  split.
  - cbn [rows]. rewrite length_take, length_drop, Hrows', Hlen. done.
  - intros m Hm. unfold row_len at 1. rewrite getrow_slice by done.
    replace (mkCoeffArray (heap a') (rows a')) with a' by (by destruct a').
    change (row_len a' (S m) = row_len fc (S m)).
    by rewrite Hlens', Hlens.
Qed.

(** The shape of what the reshape returns on an accepted array. *)
Lemma reshape_accepted fc :
  check_dimensions fc = inr tt → check_values fc = inr tt →
  ∃ a l0 l1 l2 l3,
    reshape fc = inr a
    ∧ length (rows a) = 4%nat
    ∧ getrow a 0 = Some l0 ∧ length l0 = 6%nat
    ∧ getrow a 1 = Some l1 ∧ length l1 = 6%nat
    ∧ getrow a 2 = Some l2 ∧ length l2 = 6%nat
    ∧ getrow a 3 = Some l3 ∧ (6 ≤ length l3)%nat.
Proof.
  intros Hdim Hval.
  destruct (accepted_shape fc Hdim Hval)
    as (G & r1 & r2 & r3 & r4 & Hrows & L1 & L2 & L3 & L4 & _).
  destruct (reshape_rows fc G r1 r2 r3 r4 Hrows) as (a & Ha & Hlen & Hlens);
    try lia.
  destruct Hrows as (_ & _ & H1 & H2 & H3 & H4).
  assert (R0 : row_len a 0 = Some 6%nat)
    by (rewrite Hlens by lia; unfold row_len; rewrite H1; simpl; by rewrite L1).
  assert (R1 : row_len a 1 = Some 6%nat)
    by (rewrite Hlens by lia; unfold row_len; rewrite H2; simpl; by rewrite L2).
  assert (R2 : row_len a 2 = Some 6%nat)
    by (rewrite Hlens by lia; unfold row_len; rewrite H3; simpl; by rewrite L3).
  assert (R3 : row_len a 3 = Some (length r4))
    by (rewrite Hlens by lia; unfold row_len; by rewrite H4).
  apply row_len_Some in R0 as (l0 & ? & ?), R1 as (l1 & ? & ?),
    R2 as (l2 & ? & ?), R3 as (l3 & ? & ?).
  exists a, l0, l1, l2, l3. repeat split; try done. lia.
Qed.

(** X9: the reshape of an array that passes both checks always returns,
    shared row objects or not, and what it returns has four rows of at
    least six entries each -- exactly six in the first three. *)
Theorem reshape_accepted_shape fc :
  check_dimensions fc = inr tt → check_values fc = inr tt →
  ∃ a l0 l1 l2 l3,
    reshape fc = inr a
    ∧ length (rows a) = 4%nat
    ∧ getrow a 0 = Some l0 ∧ length l0 = 6%nat
    ∧ getrow a 1 = Some l1 ∧ length l1 = 6%nat
    ∧ getrow a 2 = Some l2 ∧ length l2 = 6%nat
    ∧ getrow a 3 = Some l3 ∧ (6 ≤ length l3)%nat.
Proof. apply reshape_accepted. Qed.

Lemma reshape_accepted_shape_witness :
  ∃ a l0 l1 l2 l3,
    reshape shared_rows_gain2 = inr a
    ∧ length (rows a) = 4%nat
    ∧ getrow a 0 = Some l0 ∧ length l0 = 6%nat
    ∧ getrow a 1 = Some l1 ∧ length l1 = 6%nat
    ∧ getrow a 2 = Some l2 ∧ length l2 = 6%nat
    ∧ getrow a 3 = Some l3 ∧ (6 ≤ length l3)%nat.
Proof.
  apply (reshape_accepted_shape shared_rows_gain2); reflexivity.
Defined.

(** *** The courses that [set_filter] can take *)

Section Courses.
Variable core_calculate_scales : IIR → Scales.
Variable core_update_dependent_regs : Scales → IIR → option (gmap Z Z).

Abbreviation set_filter' :=
  (set_filter core_calculate_scales core_update_dependent_regs).
Abbreviation upload_and_enable' :=
  (upload_and_enable core_calculate_scales core_update_dependent_regs).

Lemma set_filter_invalid_request ch sample_rate filter_coefficients s :
  ¬ (ch ∈ [1; 2] ∧ sample_rate ∈ ["high"; "low"]) →
  ∃ desc, set_filter' ch sample_rate filter_coefficients s
          = (s, inl (ValidationError desc)).
Proof.
  intros Hbad. rewrite set_filter_phases. unfold check_parameter_valid_set.
  destruct (decide (ch ∈ [1; 2])) as [Hch | Hch]; [| eauto].
  destruct (decide (sample_rate ∈ ["high"; "low"])) as [Hr | Hr]; [| eauto].
  by destruct Hbad.
Qed.

(** The four courses of a call: the request is invalid; the array fails a
    check; there is no array; the array is accepted. *)
Lemma set_filter_courses ch sample_rate filter_coefficients s :
  (¬ (ch ∈ [1; 2] ∧ sample_rate ∈ ["high"; "low"])
   ∧ ∃ desc, set_filter' ch sample_rate filter_coefficients s
             = (s, inl (ValidationError desc)))
  ∨ (ch ∈ [1; 2] ∧ sample_rate ∈ ["high"; "low"]
     ∧ ((∃ fc e, filter_coefficients = Some fc
                 ∧ (check_dimensions fc >>? check_values fc) = inl e
                 ∧ set_filter' ch sample_rate filter_coefficients s
                   = (staged ch sample_rate s, inl e))
        ∨ (filter_coefficients = None
           ∧ set_filter' ch sample_rate filter_coefficients s
             = upload_and_enable' ch (staged ch sample_rate s))
        ∨ (∃ fc a, filter_coefficients = Some fc
                   ∧ check_dimensions fc = inr tt ∧ check_values fc = inr tt
                   ∧ reshape fc = inr a
                   ∧ set_filter' ch sample_rate filter_coefficients s
                     = upload_and_enable' ch
                         (store_filter ch a (staged ch sample_rate s))))).
Proof.
  destruct (decide (ch ∈ [1; 2] ∧ sample_rate ∈ ["high"; "low"]))
    as [[Hch Hrate] | Hbad].
  2: { left. split; [done |]. by apply set_filter_invalid_request. }
  right. split; [done |]. split; [done |].
  destruct filter_coefficients as [fc |].
  - destruct (check_dimensions fc) as [e | []] eqn:Hdim.
    { left. exists fc, e. split; [done |]. split; [by rewrite Hdim |].
      apply set_filter_rejected; try done. by rewrite Hdim. }
    destruct (check_values fc) as [e | []] eqn:Hval.
    { left. exists fc, e. split; [done |]. split; [by rewrite Hdim, Hval |].
      apply set_filter_rejected; try done. by rewrite Hdim, Hval. }
    destruct (reshape_accepted fc Hdim Hval) as (a & _ & _ & _ & _ & Ha & _).
    right. right. exists fc, a. repeat split; try done.
    by apply set_filter_accepted.
  - right. left. split; [done |].
    rewrite set_filter_checked by done. unfold bind, ret. reflexivity.
Qed.

Lemma staged_fields ch sample_rate s :
  user (staged ch sample_rate s) = user s
  ∧ filter_ch1 (staged ch sample_rate s) = filter_ch1 s
  ∧ filter_ch2 (staged ch sample_rate s) = filter_ch2 s
  ∧ sent_files (staged ch sample_rate s) = sent_files s
  ∧ decfilter_of ch (staged ch sample_rate s) = Some (sample_rate_factor sample_rate)
  ∧ decfilter_of (other ch) (staged ch sample_rate s) = decfilter_of (other ch) s.
Proof.
  unfold staged, stage_samplerate, decfilter_of, other, sample_rate_factor,
    _decfilter1_set_samplerate, _decfilter2_set_samplerate, modify.
  destruct (decide (ch = 1)) as [-> | Hne]; simpl; repeat split; done.
Qed.

Lemma store_filter_fields ch a s :
  user (store_filter ch a s) = user s
  ∧ sent_files (store_filter ch a s) = sent_files s
  ∧ _decfilter1 (store_filter ch a s) = _decfilter1 s
  ∧ _decfilter2 (store_filter ch a s) = _decfilter2 s
  ∧ filter_of ch (store_filter ch a s) = Some a
  ∧ filter_of (other ch) (store_filter ch a s) = filter_of (other ch) s.
Proof.
  unfold store_filter, filter_of, other.
  destruct (decide (ch = 1)) as [-> | Hne]; simpl; repeat split; done.
Qed.

End Courses.

Lemma keeps_run {A X} (f : IIR → X) (m : M A) s s' r :
  Keeps f m → m s = (s', r) → f s' = f s.
Proof. intros Hk Hrun. specialize (Hk s). by rewrite Hrun in Hk. Qed.

Lemma length_le64 v : length (le64 v) = 8%nat.
Proof. reflexivity. Qed.

Lemma length_flat_map_le64 vs : length (flat_map le64 vs) = (8 * length vs)%nat.
Proof.
  induction vs as [| v vs IH]; [done |].
  cbn [flat_map]. rewrite length_app, IH, length_le64. simpl. lia.
Qed.

(** The [i]-th eight bytes of the packed sequence are the bytes of its
    [i]-th integer. *)
Lemma flat_map_le64_chunk vs i v :
  vs !! i = Some v → take 8 (drop (8 * i) (flat_map le64 vs)) = le64 v.
Proof.
  revert i. induction vs as [| v0 vs IH]; intros i Hi; [done |].
  cbn [flat_map]. destruct i as [| i].
  - injection Hi as ->. rewrite Nat.mul_0_r, drop_0.
    by apply take_app_length'.
  - replace (8 * S i)%nat with (length (le64 v0) + 8 * i)%nat
      by (rewrite length_le64; lia).
    rewrite drop_app_add. by apply IH.
Qed.

Section Upload.
Variable core_calculate_scales : IIR → Scales.
Variable core_update_dependent_regs : Scales → IIR → option (gmap Z Z).

Abbreviation set_filter' :=
  (set_filter core_calculate_scales core_update_dependent_regs).
Abbreviation upload_and_enable' :=
  (upload_and_enable core_calculate_scales core_update_dependent_regs).
Abbreviation _set_mmap_access' :=
  (_set_mmap_access core_calculate_scales core_update_dependent_regs).
Abbreviation commit' :=
  (commit core_calculate_scales core_update_dependent_regs).

Lemma set_mmap_access_returns b s s' r :
  _set_mmap_access' b s = (s', r) → mmap_access s' = b.
Proof.
  unfold _set_mmap_access. unfold bind at 1. unfold modify at 1.
  intros Hrun. by rewrite (keeps_run mmap_access _ _ _ _ (keeps_commit mmap_access
    (λ _ _, eq_refl) (λ _ _, eq_refl) (λ _ _, eq_refl) _ _) Hrun).
Qed.

(** An upload phase that returns. *)
Lemma upload_and_enable_returns ch s s' :
  upload_and_enable' ch s = (s', inr tt) →
  mmap_access s' = false
  ∧ data_dat s' = None
  ∧ ∃ fcs vs,
      filter_coeffs s = inr fcs
      ∧ channel_major fcs vs
      ∧ sent_files s' = (sent_files s ++ [("j", flat_map le64 vs)])%list.
Proof.
  unfold upload_and_enable. intros Hrun.
  apply bind_returns in Hrun as (sa & fcs1 & Hf & Hrun).
  destruct (filter_coeffs s) as [e | fcs] eqn:Hfcs; [done |].
  injection Hf as <- <-.
  apply bind_returns in Hrun as (sb & t1 & Ht & Hrun).
  destruct (coeff_list fcs) as [e | t] eqn:Hcl; [done |].
  injection Ht as <- <-.
  apply bind_returns in Hrun as (s3 & [] & Hw & Hrun).
  apply bind_returns in Hrun as (s4 & [] & Hm & Hrun).
  apply bind_returns in Hrun as (s5 & [] & Hsend & Hrun).
  apply bind_returns in Hrun as (s6 & [] & Hm' & Hrun).
  apply bind_returns in Hrun as (s7 & [] & Hrm & Hrun).
  injection Hrm as <-.
  destruct (write_data_dat_returns _ _ _ Hw) as (vs & Hvs & H64 & Hdat).
  pose proof (keeps_run sent_files _ _ _ _
                (keeps_write_data_dat sent_files (λ _ _, eq_refl) t) Hw) as S3.
  pose proof (keeps_run sent_files _ _ _ _
                (keeps_set_mmap_access sent_files (λ _ _, eq_refl) (λ _ _, eq_refl)
                   (λ _ _, eq_refl) (λ _ _, eq_refl) _ _ true) Hm) as S4.
  pose proof (keeps_run data_dat _ _ _ _
                (keeps_set_mmap_access data_dat (λ _ _, eq_refl) (λ _ _, eq_refl)
                   (λ _ _, eq_refl) (λ _ _, eq_refl) _ _ true) Hm) as D4.
  assert (S5 : sent_files s5
               = (sent_files s4 ++ [("j", default [] (data_dat s4))])%list).
  { destruct (send_file_outcome "j" s4) as [[_ [e He]] | [_ Hs]];
      rewrite Hsend in *; simpl in *; [done | done]. }
  pose proof (keeps_run sent_files _ _ _ _
                (keeps_set_mmap_access sent_files (λ _ _, eq_refl) (λ _ _, eq_refl)
                   (λ _ _, eq_refl) (λ _ _, eq_refl) _ _ false) Hm') as S6.
  pose proof (set_mmap_access_returns _ _ _ _ Hm') as M6.
  pose proof (keeps_run sent_files _ _ _ _
                (keeps_enable sent_files (λ _ _, eq_refl) (λ _ _, eq_refl)
                   (λ _ _, eq_refl) _ _ ch) Hrun) as S8.
  pose proof (keeps_run mmap_access _ _ _ _
                (keeps_enable mmap_access (λ _ _, eq_refl) (λ _ _, eq_refl)
                   (λ _ _, eq_refl) _ _ ch) Hrun) as M8.
  pose proof (keeps_run data_dat _ _ _ _
                (keeps_enable data_dat (λ _ _, eq_refl) (λ _ _, eq_refl)
                   (λ _ _, eq_refl) _ _ ch) Hrun) as D8.
  simpl in S8, M8, D8.
  split; [congruence |]. split; [done |].
  exists fcs, vs. split; [done |].
  split; [by eapply written_channel_major |].
  rewrite S8, S6, S5, S4, S3, D4, Hdat. done.
Qed.

(** X10: when [set_filter] returns, the exclusive memory access is
    disabled again, the scratch file is removed, and exactly one file was
    uploaded, with tag j and 384 bytes: the 48 coefficients of the filters
    that the instrument now holds. *)
Theorem set_filter_returns ch sample_rate filter_coefficients s s' :
  set_filter' ch sample_rate filter_coefficients s = (s', inr tt) →
  mmap_access s' = false
  ∧ data_dat s' = None
  ∧ ∃ fcs vs,
      filter_coeffs s' = inr fcs
      ∧ channel_major fcs vs
      ∧ sent_files s' = (sent_files s ++ [("j", flat_map le64 vs)])%list
      ∧ length (flat_map le64 vs) = 384%nat.
Proof.
  intros Hrun.
  assert (Hup : ∃ s2, upload_and_enable' ch s2 = (s', inr tt)
                      ∧ sent_files s2 = sent_files s).
  { destruct (set_filter_courses core_calculate_scales core_update_dependent_regs
                ch sample_rate filter_coefficients s)
      as [[_ [d Hd]] | (Hch & Hrate & [(fc & e & _ & _ & He) | [[_ Hn] | (fc & a & _ & _ & _ & _ & Ha)]])].
    - congruence.
    - congruence.
    - eexists. split; [by rewrite <- Hn |]. apply staged_fields.
    - eexists. split; [by rewrite <- Ha |].
      destruct (store_filter_fields ch a (staged ch sample_rate s)) as (_ & -> & _).
      apply staged_fields. }
  destruct Hup as (s2 & Hup & Hs2).
  destruct (upload_and_enable_returns _ _ _ Hup) as (Hm & Hd & fcs & vs & Hf & Hcm & Hsent).
  split; [done |]. split; [done |]. exists fcs, vs.
  split.
  { rewrite <- Hf. apply filter_coeffs_ext.
    - eapply (keeps_run filter_ch1); [| exact Hup].
      by apply keeps_upload_and_enable.
    - eapply (keeps_run filter_ch2); [| exact Hup].
      by apply keeps_upload_and_enable. }
  split; [done |]. split; [congruence |].
  rewrite length_flat_map_le64. destruct Hcm as [-> _]. done.
Qed.

End Upload.

Lemma set_filter_returns_witness :
  let s := after_defaults in
  let s' := (set_filter plain_scales plain_hook 1 "high" (Some allpass_gain2)
               after_defaults).1 in
  mmap_access s' = false
  ∧ data_dat s' = None
  ∧ ∃ fcs vs,
      filter_coeffs s' = inr fcs
      ∧ channel_major fcs vs
      ∧ sent_files s' = (sent_files s ++ [("j", flat_map le64 vs)])%list
      ∧ length (flat_map le64 vs) = 384%nat.
Proof.
  apply (set_filter_returns plain_scales plain_hook 1 "high"
           (Some allpass_gain2) after_defaults).
  vm_compute. reflexivity.
Defined.

Section FilterInvariant.
Variable core_calculate_scales : IIR → Scales.
Variable core_update_dependent_regs : Scales → IIR → option (gmap Z Z).

Abbreviation set_filter' :=
  (set_filter core_calculate_scales core_update_dependent_regs).

Lemma filter_of_cases ch s :
  ch ∈ [1; 2] →
  (ch = 1 ∧ filter_of ch s = filter_ch1 s ∧ filter_of (other ch) s = filter_ch2 s)
  ∨ (ch = 2 ∧ filter_of ch s = filter_ch2 s ∧ filter_of (other ch) s = filter_ch1 s).
Proof.
  intros Hch. apply elem_of_cons in Hch as [-> | Hch]; [by left |].
  apply list_elem_of_singleton in Hch as ->. by right.
Qed.

(** X11: the shape of the stored filters -- four rows of at least six
    entries each -- is an invariant of [set_filter]: whatever the
    arguments and however the call ends, filters that had the shape
    before the call have it after. *)
Theorem set_filter_keeps_filter_shape ch sample_rate filter_coefficients s :
  filter_wf (filter_ch1 s) → filter_wf (filter_ch2 s) →
  let s' := (set_filter' ch sample_rate filter_coefficients s).1 in
  filter_wf (filter_ch1 s') ∧ filter_wf (filter_ch2 s').
Proof.
  intros W1 W2 s'. subst s'.
  destruct (set_filter_courses core_calculate_scales core_update_dependent_regs
              ch sample_rate filter_coefficients s)
    as [[_ [d ->]] | (Hch & Hrate & [(fc & e & _ & _ & ->) | [[_ ->] | (fc & a & _ & Hdim & Hval & Ha & ->)]])].
  - done.
  - destruct (staged_fields ch sample_rate s) as (_ & F1 & F2 & _).
    simpl. by rewrite F1, F2.
  - destruct (staged_fields ch sample_rate s) as (_ & F1 & F2 & _).
    rewrite (keeps_upload_and_enable filter_ch1), (keeps_upload_and_enable filter_ch2)
      by done.
    by rewrite F1, F2.
  - destruct (staged_fields ch sample_rate s) as (_ & F1 & F2 & _).
    rewrite (keeps_upload_and_enable filter_ch1), (keeps_upload_and_enable filter_ch2)
      by done.
    assert (Wa : filter_wf (Some a)).
    { destruct (reshape_accepted fc Hdim Hval)
        as (a' & l0 & l1 & l2 & l3 & Ha' & Hlen & H0 & L0 & H1 & L1 & H2 & L2 & H3 & L3).
      assert (a' = a) as -> by congruence.
      split; [done |]. intros m Hm.
      assert (m = 0 ∨ m = 1 ∨ m = 2 ∨ m = 3)%nat as [-> | [-> | [-> | ->]]] by lia;
        eexists; split; try eassumption; lia. }
    unfold store_filter. destruct (decide (ch = 1)); simpl.
    + by rewrite F2.
    + by rewrite F1.
Qed.

(** X12: a call of [set_filter] with a valid channel and sample rate
    always stages the sample-rate factor (8 for high, 1024 for low) on
    its channel, even when it raises afterwards; it never touches the
    other channel's sample-rate factor or stored filter, nor any stored
    control-matrix scale, gain or offset. *)
Theorem set_filter_channel_independence ch sample_rate filter_coefficients s :
  ch ∈ [1; 2] → sample_rate ∈ ["high"; "low"] →
  let s' := (set_filter' ch sample_rate filter_coefficients s).1 in
  decfilter_of ch s' = Some (sample_rate_factor sample_rate)
  ∧ decfilter_of (other ch) s' = decfilter_of (other ch) s
  ∧ filter_of (other ch) s' = filter_of (other ch) s
  ∧ user s' = user s.
Proof.
  intros Hch Hrate s'. subst s'.
  destruct (staged_fields ch sample_rate s) as (U & F1 & F2 & _ & D & D').
  assert (F' : filter_of (other ch) (staged ch sample_rate s) = filter_of (other ch) s).
  { unfold filter_of. destruct (decide (other ch = 1)); done. }
  destruct (set_filter_courses core_calculate_scales core_update_dependent_regs
              ch sample_rate filter_coefficients s)
    as [[Hbad _] | (_ & _ & [(fc & e & _ & _ & ->) | [[_ ->] | (fc & a & _ & _ & _ & _ & ->)]])].
  - by destruct Hbad.
  - done.
  - rewrite (keeps_upload_and_enable (decfilter_of ch)),
      (keeps_upload_and_enable (decfilter_of (other ch))),
      (keeps_upload_and_enable (filter_of (other ch))),
      (keeps_upload_and_enable user) by done.
    done.
  - rewrite (keeps_upload_and_enable (decfilter_of ch)),
      (keeps_upload_and_enable (decfilter_of (other ch))),
      (keeps_upload_and_enable (filter_of (other ch))),
      (keeps_upload_and_enable user) by done.
    destruct (store_filter_fields ch a (staged ch sample_rate s))
      as (U' & _ & D1 & D2 & _ & F'').
    rewrite U', F''. unfold decfilter_of in *.
    repeat split; try done.
    + destruct (decide (ch = 1)); congruence.
    + destruct (decide (other ch = 1)); congruence.
Qed.

(** X13: [set_filter] needs the filters of both channels.  With an
    accepted array and no filter stored for the other channel (no
    [set_defaults] yet), the call stores the reshaped array and then
    raises an attribute error; nothing is written or uploaded. *)
Theorem set_filter_other_filter_missing ch sample_rate fc s :
  ch ∈ [1; 2] → sample_rate ∈ ["high"; "low"] →
  check_dimensions fc = inr tt → check_values fc = inr tt →
  filter_of (other ch) s = None →
  let out := set_filter' ch sample_rate (Some fc) s in
  out.2 = inl AttributeError
  ∧ (∃ a, reshape fc = inr a ∧ filter_of ch out.1 = Some a)
  ∧ data_dat out.1 = data_dat s
  ∧ sent_files out.1 = sent_files s.
Proof.
  intros Hch Hrate Hdim Hval Hnone out. subst out.
  destruct (reshape_accepted fc Hdim Hval)
    as (a & l0 & _ & _ & _ & Ha & _ & H0 & _).
  rewrite (set_filter_accepted _ _ _ _ _ _ a) by done.
  set (s2 := store_filter ch a (staged ch sample_rate s)).
  assert (Hf : filter_coeffs s2 = inl AttributeError).
  { destruct (staged_fields ch sample_rate s) as (_ & F1 & F2 & _).
    unfold filter_coeffs. change (seq 0 4) with [0; 1; 2; 3]%nat. cbn [fold_E].
    destruct (filter_of_cases ch s Hch) as [(-> & _ & Ho) | (-> & _ & Ho)];
      rewrite Ho in Hnone.
    - assert (G1 : filter_ch1 s2 = Some a) by done.
      assert (G2 : filter_ch2 s2 = None).
      { transitivity (filter_ch2 (staged 1 sample_rate s)); [done | congruence]. }
      rewrite G1, G2. cbn [elift ebind]. by rewrite H0.
    - assert (G1 : filter_ch1 s2 = None).
      { transitivity (filter_ch1 (staged 2 sample_rate s)); [done | congruence]. }
      by rewrite G1. }
  assert (Hrun : upload_and_enable core_calculate_scales core_update_dependent_regs
                   ch s2 = (s2, inl AttributeError)).
  { unfold upload_and_enable. erewrite bind_inl; [done |]. by rewrite Hf. }
  rewrite Hrun. simpl. split; [done |].
  destruct (store_filter_fields ch a (staged ch sample_rate s)) as (_ & S & _ & _ & F & _).
  split; [by exists a |]. fold s2 in S.
  split; [| rewrite S; apply staged_fields].
  subst s2. unfold store_filter, staged, stage_samplerate.
  by repeat case_decide.
Qed.

End FilterInvariant.

Lemma set_filter_keeps_filter_shape_witness :
  let s' := (set_filter plain_scales plain_hook 1 "high"
               (Some shared_rows_gain2) after_defaults).1 in
  filter_wf (filter_ch1 s') ∧ filter_wf (filter_ch2 s').
Proof.
  assert (W : filter_wf (Some allpass)).
  { split; [done |]. intros m Hm. exists [1; 1; 0; 0; 0; 0]%float.
    assert (m = 0 ∨ m = 1 ∨ m = 2 ∨ m = 3)%nat as [-> | [-> | [-> | ->]]] by lia;
      (split; [reflexivity | simpl; lia]). }
  apply (set_filter_keeps_filter_shape plain_scales plain_hook 1 "high"
           (Some shared_rows_gain2) after_defaults); exact W.
Defined.

Lemma set_filter_channel_independence_witness :
  let s := after_defaults in
  let s' := (set_filter plain_scales plain_hook 2 "low" (Some allpass_gain2)
               after_defaults).1 in
  decfilter_of 2 s' = Some (sample_rate_factor "low")
  ∧ decfilter_of (other 2) s' = decfilter_of (other 2) s
  ∧ filter_of (other 2) s' = filter_of (other 2) s
  ∧ user s' = user s.
Proof.
  apply (set_filter_channel_independence plain_scales plain_hook 2 "low"
           (Some allpass_gain2) after_defaults).
  - apply list_elem_of_further, list_elem_of_here.
  - apply list_elem_of_further, list_elem_of_here.
Defined.

Lemma set_filter_other_filter_missing_witness :
  let out := set_filter plain_scales plain_hook 1 "high" (Some allpass_gain2)
               fresh in
  out.2 = inl AttributeError
  ∧ (∃ a, reshape allpass_gain2 = inr a ∧ filter_of 1 out.1 = Some a)
  ∧ data_dat out.1 = data_dat fresh
  ∧ sent_files out.1 = sent_files fresh.
Proof.
  apply (set_filter_other_filter_missing plain_scales plain_hook 1 "high"
           allpass_gain2 fresh).
  - apply list_elem_of_here.
  - apply list_elem_of_here.
  - reflexivity.
  - reflexivity.
  - reflexivity.
Defined.

(** *** The enable and monitor-select registers *)

(** Packing a field leaves every field that does not overlap it. *)
Lemma from_reg_unsigned_put_field_other offset len offset' len' u old :
  0 ≤ offset → 0 ≤ len → 0 ≤ offset' → 0 ≤ u < 2 ^ len' →
  offset + len ≤ offset' ∨ offset' + len' ≤ offset →
  from_reg_unsigned offset len (put_field offset' len' u old)
  = from_reg_unsigned offset len old.
Proof.
  intros Hoff Hlen Hoff' Hu Hdis.
  assert (Hlen' : 0 ≤ len').
  { destruct (Z_lt_le_dec len' 0) as [Hneg | ?]; [| done].
    rewrite (Z.pow_neg_r 2 len' Hneg) in Hu. lia. }
  unfold from_reg_unsigned, put_field, field_mask.
  apply Z.bits_inj'. intros n Hn.
  rewrite !Z.land_spec, !Z.shiftr_spec, Z.lor_spec, Z.land_spec, Z.lnot_spec,
    !Z.shiftl_spec by lia.
  destruct (Z_lt_le_dec n len) as [Hlt | Hge].
  - assert (Hones : Z.testbit (Z.ones len') (n + offset - offset') = false).
    { destruct (Z_lt_le_dec (n + offset - offset') 0).
      - apply Z.testbit_neg_r. lia.
      - apply Z.ones_spec_high. lia. }
    assert (Hbit : Z.testbit u (n + offset - offset') = false).
    { destruct (Z_lt_le_dec (n + offset - offset') 0).
      - apply Z.testbit_neg_r. lia.
      - eapply testbit_small; [exact Hu | lia]. }
    rewrite Hones, Hbit. simpl. by rewrite andb_true_r, orb_false_r.
  - rewrite (Z.ones_spec_high len n) by lia. by rewrite !andb_false_r.
Qed.

Lemma reg_value_localregs s r reg :
  r !! reg = localregs s !! reg →
  reg_value (with_localregs s r) reg = reg_value s reg.
Proof. intros H. unfold reg_value. simpl. by rewrite H. Qed.

Lemma reg_value_committed s reg :
  reg_value (with_remoteregs (with_localregs s ∅) (localregs s ∪ remoteregs s)) reg
  = reg_value s reg.
Proof.
  unfold reg_value. simpl. rewrite lookup_empty, lookup_union.
  by destruct (localregs s !! reg), (remoteregs s !! reg).
Qed.

(** A register that neither the base class nor the commit-time updates
    write has the same value after a commit as before, whether the commit
    returns or raises. *)
Section RegisterFrames.
Variable core_calculate_scales : IIR → Scales.
Variable core_update_dependent_regs : Scales → IIR → option (gmap Z Z).
Variable r0 : Z.
Hypothesis hook_r0 : hook_keeps core_update_dependent_regs r0.
Hypothesis r0_not_dependent : r0 < 112 ∨ 123 < r0.

Abbreviation commit' :=
  (commit core_calculate_scales core_update_dependent_regs).

Lemma keeps_reg_update_dependent_regs scales :
  Keeps (λ s, reg_value s r0)
        (_update_dependent_regs core_update_dependent_regs scales).
Proof.
  unfold _update_dependent_regs.
  apply keeps_bind; [| intros _; apply keeps_bind; [| intros _]].
  - intros s. unfold super_update_dependent_regs.
    destruct (core_update_dependent_regs scales s) as [r |] eqn:Hr; [| done].
    simpl. apply reg_value_localregs. by eapply hook_r0.
  - unfold _update_control_matrix_regs.
    apply keeps_bind; [apply keeps_gets | intros u].
    repeat (apply keeps_bind; [apply keeps_reg_set_signed; vm_compute; lia | intros _]).
    apply keeps_reg_set_signed; vm_compute; lia.
  - unfold _update_gains_offsets_regs.
    apply keeps_bind; [apply keeps_gets | intros u].
    repeat (apply keeps_bind;
              [first [apply keeps_reg_set_signed | apply keeps_reg_set_signed_div];
               vm_compute; lia
              | intros _]).
    apply keeps_reg_set_signed_div; vm_compute; lia.
Qed.

Lemma keeps_reg_commit : Keeps (λ s, reg_value s r0) commit'.
Proof.
  unfold commit.
  apply keeps_bind; [apply keeps_read | intros scales].
  apply keeps_bind; [apply keeps_reg_update_dependent_regs | intros _].
  apply keeps_bind; [by apply keeps_transport | intros _].
  apply keeps_modify. intros s. apply reg_value_committed.
Qed.

Lemma keeps_reg_needs_commit_tail {A} (a : A) :
  Keeps (λ s, reg_value s r0) (commit' >> ret a).
Proof. apply keeps_bind; [apply keeps_reg_commit | intros _; apply keeps_ret]. Qed.

Lemma keeps_reg_set_mmap_access b :
  Keeps (λ s, reg_value s r0)
        (_set_mmap_access core_calculate_scales core_update_dependent_regs b).
Proof.
  unfold _set_mmap_access.
  apply keeps_bind; [by apply keeps_modify | intros _; apply keeps_reg_commit].
Qed.

End RegisterFrames.

(** Writing one bit of a register: the write returns, the bit reads back,
    and every other bit of the register is as before. *)
Lemma accessor_set_bit reg off b s :
  0 ≤ off →
  ∃ s1, _accessor_set reg (to_reg_bool off b) s = (s1, inr tt)
        ∧ from_reg_unsigned off 1 (reg_value s1 reg) = (if b then 1 else 0)
        ∧ (∀ off', 0 ≤ off' → off' ≠ off →
             from_reg_unsigned off' 1 (reg_value s1 reg)
             = from_reg_unsigned off' 1 (reg_value s reg))
        ∧ (∀ (X : Type) (f : IIR → X),
             (∀ s r, f (with_localregs s r) = f s) → f s1 = f s).
Proof.
  intros Hoff. unfold _accessor_set, to_reg_bool, to_reg_unsigned.
  assert (Hv : 0 ≤ (if b then 1 else 0) < 2 ^ 1) by (destruct b; lia).
  destruct (Z.leb_spec 0 (if b then 1 else 0)); [| lia].
  destruct (Z.ltb_spec (if b then 1 else 0) (2 ^ 1)); [| lia]. simpl.
  eexists. split; [done |]. rewrite reg_value_staged.
  split; [by apply from_reg_unsigned_put_field |].
  split; [| by intros X f Hf].
  intros off' Hoff' Hne. apply from_reg_unsigned_put_field_other; try done. lia.
Qed.

Section EnableBits.
Variable core_calculate_scales : IIR → Scales.
Variable core_update_dependent_regs : Scales → IIR → option (gmap Z Z).
Hypothesis hook_enable : hook_keeps core_update_dependent_regs REG_ENABLE.

Abbreviation disable_output' :=
  (disable_output core_calculate_scales core_update_dependent_regs).
Abbreviation set_filter' :=
  (set_filter core_calculate_scales core_update_dependent_regs).
Abbreviation upload_and_enable' :=
  (upload_and_enable core_calculate_scales core_update_dependent_regs).

Lemma keeps_enable_commit {A} (a : A) :
  Keeps (λ s, reg_value s REG_ENABLE)
        (commit core_calculate_scales core_update_dependent_regs >> ret a).
Proof. apply keeps_reg_needs_commit_tail; [done | unfold REG_ENABLE; lia]. Qed.

(** X14: [disable_output] checks nothing and raises no validation error:
    channel 1 clears the output bit of channel 1 and every other channel
    value clears the output bit of channel 2.  Whatever the commit that
    follows does, the cleared bit reads 0 and the other output bit and
    both input bits of the enable register read as before, provided the
    base class leaves that register alone. *)
Theorem disable_output_clears_one_bit ch s :
  let out := disable_output' ch s in
  output_en ch out.1 = 0
  ∧ output_en (other ch) out.1 = output_en (other ch) s
  ∧ input_en1 out.1 = input_en1 s
  ∧ input_en2 out.1 = input_en2 s
  ∧ ∀ d, out.2 ≠ inl (ValidationError d).
Proof.
  intros out. subst out. unfold disable_output, needs_commit.
  unfold output_en, other, input_en1, input_en2, output_en1, output_en2.
  destruct (decide (ch = 1)) as [-> | Hne].
  - destruct (accessor_set_bit REG_ENABLE 2 false s) as (s1 & Hrun & Hbit & Hrest & _);
      [lia |].
    unfold set_output_en1. rewrite (bind_inr _ _ _ _ _ Hrun).
    rewrite (keeps_enable_commit tt s1). rewrite decide_False by done.
    repeat split; try done; try (apply Hrest; lia).
    apply Quiet_needs_commit_tail.
  - destruct (accessor_set_bit REG_ENABLE 3 false s) as (s1 & Hrun & Hbit & Hrest & _);
      [lia |].
    unfold set_output_en2. rewrite (bind_inr _ _ _ _ _ Hrun).
    rewrite (keeps_enable_commit tt s1). rewrite decide_True by done.
    repeat split; try done; try (apply Hrest; lia).
    apply Quiet_needs_commit_tail.
Qed.

Lemma keeps_reg_enable_commit :
  Keeps (λ s, reg_value s REG_ENABLE)
        (commit core_calculate_scales core_update_dependent_regs).
Proof. apply keeps_reg_commit; [done | unfold REG_ENABLE; lia]. Qed.

(** The upload phase, when it returns, has reached the enable stage with
    the enable register as it found it. *)
Lemma upload_and_enable_reaches_enable ch s s' :
  upload_and_enable' ch s = (s', inr tt) →
  ∃ s7, reg_value s7 REG_ENABLE = reg_value s REG_ENABLE
        ∧ ((if decide (ch = 1)
            then set_output_en1 true >> set_input_en1 true
            else set_output_en2 true >> set_input_en2 true) >>
           commit core_calculate_scales core_update_dependent_regs) s7
          = (s', inr tt).
Proof.
  unfold upload_and_enable. intros Hrun.
  apply bind_returns in Hrun as (sa & fcs1 & Hf & Hrun).
  destruct (filter_coeffs s) as [e | fcs] eqn:Hfcs; [done |].
  injection Hf as <- <-.
  apply bind_returns in Hrun as (sb & t1 & Ht & Hrun).
  destruct (coeff_list fcs) as [e | t] eqn:Hcl; [done |].
  injection Ht as <- <-.
  apply bind_returns in Hrun as (s3 & [] & Hw & Hrun).
  apply bind_returns in Hrun as (s4 & [] & Hm & Hrun).
  apply bind_returns in Hrun as (s5 & [] & Hsend & Hrun).
  apply bind_returns in Hrun as (s6 & [] & Hm' & Hrun).
  apply bind_returns in Hrun as (s7 & [] & Hrm & Hrun).
  injection Hrm as <-.
  exists (with_data_dat s6 None). split; [| exact Hrun].
  change (reg_value (with_data_dat s6 None) REG_ENABLE)
    with (reg_value s6 REG_ENABLE).
  rewrite (keeps_run (λ s, reg_value s REG_ENABLE) _ _ _ _
             (keeps_reg_set_mmap_access _ _ REG_ENABLE hook_enable
                (or_introl eq_refl) false) Hm').
  rewrite (keeps_run (λ s, reg_value s REG_ENABLE) _ _ _ _
             (keeps_send_file (λ s, reg_value s REG_ENABLE)
                (λ _ _, eq_refl) (λ _ _, eq_refl) "j") Hsend).
  rewrite (keeps_run (λ s, reg_value s REG_ENABLE) _ _ _ _
             (keeps_reg_set_mmap_access _ _ REG_ENABLE hook_enable
                (or_introl eq_refl) true) Hm).
  by rewrite (keeps_run (λ s, reg_value s REG_ENABLE) _ _ _ _
                (keeps_write_data_dat (λ s, reg_value s REG_ENABLE)
                   (λ _ _, eq_refl) t) Hw).
Qed.

(** X15: when [set_filter] returns, the input and the output of its
    channel are enabled in the enable register, and the two enable bits
    of the other channel read as before the call, provided the base
    class leaves that register alone. *)
Theorem set_filter_enables_channel ch sample_rate filter_coefficients s s' :
  set_filter' ch sample_rate filter_coefficients s = (s', inr tt) →
  output_en ch s' = 1 ∧ input_en ch s' = 1
  ∧ output_en (other ch) s' = output_en (other ch) s
  ∧ input_en (other ch) s' = input_en (other ch) s.
Proof.
  intros Hrun.
  assert (Hup : ∃ s2, upload_and_enable' ch s2 = (s', inr tt)
                      ∧ reg_value s2 REG_ENABLE = reg_value s REG_ENABLE).
  { destruct (set_filter_courses core_calculate_scales core_update_dependent_regs
                ch sample_rate filter_coefficients s)
      as [[_ [d Hd]] | (Hch & Hrate & [(fc & e & _ & _ & He) | [[_ Hn] | (fc & a & _ & _ & _ & _ & Ha)]])].
    - congruence.
    - congruence.
    - eexists. split; [by rewrite <- Hn |].
      unfold staged, stage_samplerate. by repeat case_decide.
    - eexists. split; [by rewrite <- Ha |].
      unfold store_filter, staged, stage_samplerate. by repeat case_decide. }
  destruct Hup as (s2 & Hup & Hs2).
  destruct (upload_and_enable_reaches_enable _ _ _ Hup) as (s7 & Hs7 & Hen).
  rewrite Hs2 in Hs7. clear Hup Hs2 Hrun.
  unfold output_en, input_en, other, input_en1, input_en2, output_en1, output_en2.
  destruct (decide (ch = 1)) as [-> | Hne].
  - destruct (accessor_set_bit REG_ENABLE 2 true s7) as (s8 & R8 & B8 & O8 & _); [lia |].
    destruct (accessor_set_bit REG_ENABLE 0 true s8) as (s9 & R9 & B9 & O9 & _); [lia |].
    rewrite bind_assoc in Hen. unfold set_output_en1 in Hen.
    rewrite (bind_inr _ _ _ _ _ R8) in Hen. unfold set_input_en1 in Hen.
    rewrite (bind_inr _ _ _ _ _ R9) in Hen.
    rewrite (keeps_run (λ s, reg_value s REG_ENABLE) _ _ _ _
               keeps_reg_enable_commit Hen).
    rewrite decide_False by done.
    rewrite (O9 2), B8, B9, (O9 3), (O8 3), (O9 1), (O8 1), Hs7 by lia. done.
  - destruct (accessor_set_bit REG_ENABLE 3 true s7) as (s8 & R8 & B8 & O8 & _); [lia |].
    destruct (accessor_set_bit REG_ENABLE 1 true s8) as (s9 & R9 & B9 & O9 & _); [lia |].
    rewrite bind_assoc in Hen. unfold set_output_en2 in Hen.
    rewrite (bind_inr _ _ _ _ _ R8) in Hen. unfold set_input_en2 in Hen.
    rewrite (bind_inr _ _ _ _ _ R9) in Hen.
    rewrite (keeps_run (λ s, reg_value s REG_ENABLE) _ _ _ _
               keeps_reg_enable_commit Hen).
    rewrite decide_True by done.
    rewrite (O9 3), B8, B9, (O9 2), (O8 2), (O9 0), (O8 0), Hs7 by lia. done.
Qed.

End EnableBits.

(** Writing an unsigned field of a register: the write returns, the field
    reads back, and every field that does not overlap it is as before. *)
Lemma accessor_set_unsigned reg off len v s :
  0 ≤ off → 0 ≤ len → 0 ≤ v < 2 ^ len →
  ∃ s1, _accessor_set reg (to_reg_unsigned off len v) s = (s1, inr tt)
        ∧ from_reg_unsigned off len (reg_value s1 reg) = v
        ∧ (∀ off' len', 0 ≤ off' → 0 ≤ len' →
             off' + len' ≤ off ∨ off + len ≤ off' →
             from_reg_unsigned off' len' (reg_value s1 reg)
             = from_reg_unsigned off' len' (reg_value s reg)).
Proof.
  intros Hoff Hlen Hv. unfold _accessor_set, to_reg_unsigned.
  destruct (Z.leb_spec 0 v); [| lia].
  destruct (Z.ltb_spec v (2 ^ len)); [| lia]. simpl.
  eexists. split; [done |]. rewrite reg_value_staged.
  split; [by apply from_reg_unsigned_put_field |].
  intros off' len' Hoff' Hlen' Hdis.
  by apply from_reg_unsigned_put_field_other.
Qed.

Section Monitor.
Variable core_calculate_scales : IIR → Scales.
Variable core_update_dependent_regs : Scales → IIR → option (gmap Z Z).
Hypothesis hook_monselect : hook_keeps core_update_dependent_regs REG_MONSELECT.

Abbreviation set_monitor' :=
  (set_monitor core_calculate_scales core_update_dependent_regs).
Abbreviation commit' :=
  (commit core_calculate_scales core_update_dependent_regs).

Lemma set_monitor_invalid_run ch source s :
  monitor_request_ok ch source = false →
  ∃ d, set_monitor' ch source s = (s, inl (ValidationError d)).
Proof.
  unfold monitor_request_ok. intros Hbad.
  unfold set_monitor, needs_commit, bind, lift_sum, check_parameter_valid_set.
  destruct (decide (ch ∈ ["a"; "b"])) as [Hch | Hch]; simpl; [| eauto].
  destruct (decide (source ∈ ["adc1"; "in1"; "out1"; "adc2"; "in2"; "out2"]))
    as [Hs | Hs]; simpl; [| eauto].
  by rewrite !bool_decide_eq_true_2 in Hbad.
Qed.

Lemma set_monitor_valid_run ch source s :
  monitor_request_ok ch source = true →
  ∃ code, str_dict_get sources source = Some code ∧ 1 ≤ code ≤ 6
          ∧ set_monitor' ch source s
            = ((if decide (ch = "a")
                then set_mon1_source code else set_mon2_source code) >>
               commit' >> ret tt) s.
Proof.
  unfold monitor_request_ok. intros Hok.
  apply andb_prop in Hok as [Hch Hs].
  apply bool_decide_eq_true_1 in Hch. apply bool_decide_eq_true_1 in Hs.
  assert (Hlow : lower ch = ch).
  { repeat (apply elem_of_cons in Hch as [-> | Hch]; [reflexivity |]).
    by apply elem_of_nil in Hch. }
  assert (Hcode : lower source = source
                  ∧ ∃ code, str_dict_get sources source = Some code ∧ 1 ≤ code ≤ 6).
  { repeat (apply elem_of_cons in Hs as [-> | Hs];
              [split; [reflexivity | eexists; split; [reflexivity | split; by vm_compute]] |]).
    by apply elem_of_nil in Hs. }
  destruct Hcode as (Hlow' & code & Hcode & Hrange).
  exists code. split; [done |]. split; [done |].
  unfold set_monitor, needs_commit, check_parameter_valid_set.
  destruct (decide (ch ∈ ["a"; "b"])); [| done].
  destruct (decide (source ∈ ["adc1"; "in1"; "out1"; "adc2"; "in2"; "out2"]));
    [| done].
  rewrite Hlow, Hlow', Hcode.
  unfold bind at 1 2 3 4. simpl. unfold bind at 2.
  by destruct ((if decide (ch = "a")
                then set_mon1_source code else set_mon2_source code) s)
       as [s1 [e' | []]].
Qed.

Lemma keeps_monselect_commit {A} (a : A) :
  Keeps (λ s, reg_value s REG_MONSELECT) (commit' >> ret a).
Proof. apply keeps_reg_needs_commit_tail; [done | unfold REG_MONSELECT; lia]. Qed.

(** X16: [set_monitor] raises a validation error exactly when the channel
    is not a or b or the source is not one of adc1, in1, out1, adc2, in2,
    out2, as written: the names are compared before they are put in
    lower case, so A and none are rejected; the instrument is then as
    before the call.  A valid request selects for its channel the code of
    the source, a value from 1 to 6, and keeps the selection of the other
    channel, whatever the commit that follows does, provided the base
    class leaves the monitor-select register alone. *)
Theorem set_monitor_behaviour ch source s :
  let out := set_monitor' ch source s in
  ((∃ d, out.2 = inl (ValidationError d)) ↔ monitor_request_ok ch source = false)
  ∧ if monitor_request_ok ch source
    then ∃ code, str_dict_get sources source = Some code ∧ 1 ≤ code ≤ 6
           ∧ mon_source ch out.1 = code
           ∧ mon_source (other_monitor ch) out.1 = mon_source (other_monitor ch) s
    else out.1 = s.
Proof.
  intros out. subst out.
  destruct (monitor_request_ok ch source) eqn:Hok.
  - destruct (set_monitor_valid_run ch source s Hok) as (code & Hcode & Hrange & ->).
    split.
    { split; [| done]. intros [d Hd]. exfalso. revert Hd.
      assert (Hq : Quiet ((if decide (ch = "a")
                           then set_mon1_source code else set_mon2_source code) >>
                          commit' >> ret tt)); [| apply Hq].
      apply Quiet_bind; [| intros _; apply Quiet_needs_commit_tail].
      destruct (decide (ch = "a")); apply Quiet_accessor_set. }
    exists code. split; [done |]. split; [done |].
    unfold mon_source, other_monitor, mon1_source, mon2_source.
    destruct (decide (ch = "a")) as [-> | Hne].
    + destruct (accessor_set_unsigned REG_MONSELECT 0 3 code s)
        as (s1 & Hrun & Hfield & Hrest); [lia | lia | lia |].
      unfold set_mon1_source. rewrite (bind_inr _ _ _ _ _ Hrun).
      rewrite (keeps_monselect_commit tt s1). rewrite decide_False by done.
      split; [done |]. apply Hrest; lia.
    + destruct (accessor_set_unsigned REG_MONSELECT 3 3 code s)
        as (s1 & Hrun & Hfield & Hrest); [lia | lia | lia |].
      unfold set_mon2_source. rewrite (bind_inr _ _ _ _ _ Hrun).
      rewrite (keeps_monselect_commit tt s1). rewrite decide_True by done.
      split; [done |]. apply Hrest; lia.
  - destruct (set_monitor_invalid_run _ _ s Hok) as [d ->].
    split; [| done]. split; [done |]. eauto.
Qed.

End Monitor.

Lemma disable_output_clears_one_bit_witness :
  let s := (set_filter plain_scales plain_hook 1 "high" None after_defaults).1 in
  let out := disable_output plain_scales plain_hook 1 s in
  output_en 1 out.1 = 0
  ∧ output_en (other 1) out.1 = output_en (other 1) s
  ∧ input_en1 out.1 = input_en1 s
  ∧ input_en2 out.1 = input_en2 s
  ∧ ∀ d, out.2 ≠ inl (ValidationError d).
Proof.
  apply (disable_output_clears_one_bit plain_scales plain_hook).
  intros scales s r [= <-]. reflexivity.
Defined.

Lemma set_filter_enables_channel_witness :
  let s := after_defaults in
  let s' := (set_filter plain_scales plain_hook 2 "low" (Some allpass_gain2)
               after_defaults).1 in
  output_en 2 s' = 1 ∧ input_en 2 s' = 1
  ∧ output_en (other 2) s' = output_en (other 2) s
  ∧ input_en (other 2) s' = input_en (other 2) s.
Proof.
  apply (set_filter_enables_channel plain_scales plain_hook
           (λ scales s r (H : plain_hook scales s = Some r),
              f_equal (λ o, default ∅ o !! REG_ENABLE) (eq_sym H))
           2 "low" (Some allpass_gain2) after_defaults).
  vm_compute. reflexivity.
Defined.

Lemma set_monitor_behaviour_witness :
  let out := set_monitor plain_scales plain_hook "b" "out1" after_defaults in
  ((∃ d, out.2 = inl (ValidationError d)) ↔ monitor_request_ok "b" "out1" = false)
  ∧ if monitor_request_ok "b" "out1"
    then ∃ code, str_dict_get sources "out1" = Some code ∧ 1 ≤ code ≤ 6
           ∧ mon_source "b" out.1 = code
           ∧ mon_source (other_monitor "b") out.1
             = mon_source (other_monitor "b") after_defaults
    else out.1 = after_defaults.
Proof.
  apply (set_monitor_behaviour plain_scales plain_hook).
  intros scales s r [= <-]. reflexivity.
Defined.

(** *** The trigger source *)

Lemma ascii_lower_idemp c : ascii_lower (ascii_lower c) = ascii_lower c.
Proof. by destruct c as [[] [] [] [] [] [] [] []]. Qed.

Lemma lower_idemp s : lower (lower s) = lower s.
Proof.
  induction s as [| c s IH]; [done |].
  simpl. by rewrite ascii_lower_idemp, IH.
Qed.

Section Trigger.
Variable core_calculate_scales : IIR → Scales.
Variable core_update_dependent_regs : Scales → IIR → option (gmap Z Z).
Variable core_set_trigger :
  string → string → float → bool → bool → string → M unit.

Abbreviation set_trigger' :=
  (set_trigger core_calculate_scales core_update_dependent_regs core_set_trigger).
Abbreviation needs_commit' :=
  (needs_commit core_calculate_scales core_update_dependent_regs).

(** X17: [set_trigger] matches the source name whatever its case.  A
    name that the translation table has, in lower case, reaches the base
    class once, as the oscilloscope source of the table (a as in1, b as
    in2, in1 as out1, in2 as out2, ext as ext), and the commit follows;
    every other name raises the validation error of the trigger source,
    with the instrument as before and the base class not called.  The
    allowed names are the keys of the table, so the translation itself
    never fails. *)
Theorem set_trigger_translation source edge level hysteresis hf_reject mode s :
  let call := set_trigger' source edge level hysteresis hf_reject mode s in
  call = set_trigger' (lower source) edge level hysteresis hf_reject mode s
  ∧ match str_dict_get _str_to_osc_trig_source (lower source) with
    | Some osc =>
        call = needs_commit'
                 (core_set_trigger osc edge level hysteresis hf_reject mode) s
        ∧ osc ∈ ["in1"; "in2"; "out1"; "out2"; "ext"]
    | None => call = (s, inl (ValidationError "trigger source"))
    end.
Proof.
  intros call. subst call. split.
  { unfold set_trigger. by rewrite lower_idemp. }
  unfold set_trigger. generalize (lower source). intros src.
  destruct (decide (src ∈ ["in1"; "in2"; "a"; "b"; "ext"])) as [Hin | Hout].
  - repeat (apply elem_of_cons in Hin as [-> | Hin];
              [split; [reflexivity | set_solver] |]).
    by apply elem_of_nil in Hin.
  - assert (Hnone : str_dict_get _str_to_osc_trig_source src = None).
    { unfold str_dict_get, _str_to_osc_trig_source. cbn [find fst].
      rewrite !bool_decide_eq_false_2; [done | | | | |];
        intros <-; apply Hout; set_solver. }
    rewrite Hnone. unfold needs_commit, check_parameter_valid_set.
    rewrite decide_False by done. reflexivity.
Qed.

End Trigger.

(** *** The defaults *)

Section Defaults.
Variable core_calculate_scales : IIR → Scales.
Variable core_update_dependent_regs : Scales → IIR → option (gmap Z Z).
Variable core_set_defaults : M unit.
Variable set_frontend : Z → bool → bool → bool → M unit.

Abbreviation set_defaults' :=
  (set_defaults core_calculate_scales core_update_dependent_regs
     core_set_defaults set_frontend).
Abbreviation set_control_matrix' :=
  (set_control_matrix core_calculate_scales core_update_dependent_regs).
Abbreviation set_gains_offsets' :=
  (set_gains_offsets core_calculate_scales core_update_dependent_regs).

Lemma set_control_matrix_returns ch scale_in1 scale_in2 s s' :
  set_control_matrix' ch scale_in1 scale_in2 s = (s', inr tt) →
  user s' = with_matrix_row ch scale_in1 scale_in2 (user s)
  ∧ filter_ch1 s' = filter_ch1 s ∧ filter_ch2 s' = filter_ch2 s.
Proof.
  intros Hrun.
  destruct (matrix_request_ok ch scale_in1 scale_in2) eqn:Hok.
  - rewrite set_control_matrix_valid_run in Hrun by done.
    pose proof (keeps_run user _ _ _ _
                  (keeps_needs_commit_tail user _ _ tt (λ _ _, eq_refl)
                     (λ _ _, eq_refl) (λ _ _, eq_refl)) Hrun) as U.
    pose proof (keeps_run filter_ch1 _ _ _ _
                  (keeps_needs_commit_tail filter_ch1 _ _ tt (λ _ _, eq_refl)
                     (λ _ _, eq_refl) (λ _ _, eq_refl)) Hrun) as F1.
    pose proof (keeps_run filter_ch2 _ _ _ _
                  (keeps_needs_commit_tail filter_ch2 _ _ tt (λ _ _, eq_refl)
                     (λ _ _, eq_refl) (λ _ _, eq_refl)) Hrun) as F2.
    done.
  - destruct (set_control_matrix_invalid_run core_calculate_scales
                core_update_dependent_regs _ _ _ s Hok) as [d Hd].
    congruence.
Qed.

Lemma set_gains_offsets_returns ch input_gain output_gain input_offset output_offset s s' :
  set_gains_offsets' ch input_gain output_gain input_offset output_offset s
  = (s', inr tt) →
  user s' = with_gains_offsets ch input_gain output_gain input_offset
              output_offset (user s)
  ∧ filter_ch1 s' = filter_ch1 s ∧ filter_ch2 s' = filter_ch2 s.
Proof.
  intros Hrun.
  destruct (gains_request_ok ch input_gain output_gain input_offset output_offset)
    eqn:Hok.
  - rewrite set_gains_offsets_valid_run in Hrun by done.
    pose proof (keeps_run user _ _ _ _
                  (keeps_needs_commit_tail user _ _ tt (λ _ _, eq_refl)
                     (λ _ _, eq_refl) (λ _ _, eq_refl)) Hrun) as U.
    pose proof (keeps_run filter_ch1 _ _ _ _
                  (keeps_needs_commit_tail filter_ch1 _ _ tt (λ _ _, eq_refl)
                     (λ _ _, eq_refl) (λ _ _, eq_refl)) Hrun) as F1.
    pose proof (keeps_run filter_ch2 _ _ _ _
                  (keeps_needs_commit_tail filter_ch2 _ _ tt (λ _ _, eq_refl)
                     (λ _ _, eq_refl) (λ _ _, eq_refl)) Hrun) as F2.
    done.
  - destruct (set_gains_offsets_invalid_run core_calculate_scales
                core_update_dependent_regs _ _ _ _ _ s Hok) as [d Hd].
    congruence.
Qed.

Hypothesis frontend_user : ∀ ch fiftyr atten ac,
  Keeps user (set_frontend ch fiftyr atten ac).
Hypothesis frontend_filter_ch1 : ∀ ch fiftyr atten ac,
  Keeps filter_ch1 (set_frontend ch fiftyr atten ac).
Hypothesis frontend_filter_ch2 : ∀ ch fiftyr atten ac,
  Keeps filter_ch2 (set_frontend ch fiftyr atten ac).

(** X18: when [set_defaults] returns, the stored settings are the
    identity control matrix, unity input and output gains and zero
    offsets on both channels, and both filters are the all-pass filter
    (four references to one row), whatever the instrument held before
    and whatever the base class's own defaults did -- provided the
    inherited [set_frontend] leaves the stored settings and filters
    alone. *)
Theorem set_defaults_returns s s' :
  set_defaults' s = (s', inr tt) →
  user s' = mkSettings 1 0 0 1 1 1 0 0 1 1 0 0
  ∧ filter_ch1 s' = Some allpass
  ∧ filter_ch2 s' = Some allpass.
Proof.
  unfold set_defaults, needs_commit. intros Hrun.
  apply bind_returns in Hrun as (sA & [] & Hbody & Htail).
  apply bind_returns in Hbody as (s1 & [] & _ & Hbody).
  apply bind_returns in Hbody as (s2 & [] & _ & Hbody).
  apply bind_returns in Hbody as (s3 & [] & _ & Hbody).
  apply bind_returns in Hbody as (s4 & [] & _ & Hbody).
  apply bind_returns in Hbody as (s5 & [] & _ & Hbody).
  apply bind_returns in Hbody as (s6 & [] & Hm1 & Hbody).
  apply bind_returns in Hbody as (s7 & [] & Hm2 & Hbody).
  apply bind_returns in Hbody as (s8 & [] & Hf1 & Hbody).
  apply bind_returns in Hbody as (s9 & [] & Hf2 & Hbody).
  apply bind_returns in Hbody as (s10 & [] & Hr & Hbody).
  apply bind_returns in Hbody as (s11 & [] & Hc1 & Hbody).
  apply bind_returns in Hbody as (s12 & [] & Hc2 & Hbody).
  apply bind_returns in Hbody as (s13 & [] & Hfe1 & Hbody).
  apply bind_returns in Hbody as (s14 & [] & Hfe2 & Hbody).
  apply bind_returns in Hbody as (s15 & [] & Hg1 & Hg2).
  injection Hc1 as <-. injection Hc2 as <-.
  apply set_control_matrix_returns in Hm1 as (U6 & _ & _).
  apply set_control_matrix_returns in Hm2 as (U7 & _ & _).
  apply set_gains_offsets_returns in Hg1 as (U15 & A15 & B15).
  apply set_gains_offsets_returns in Hg2 as (UA & AA & BA).
  pose proof (keeps_run user _ _ _ _
                (keeps_accessor_set user (λ _ _, eq_refl) _ _) Hf1) as U8.
  pose proof (keeps_run user _ _ _ _
                (keeps_accessor_set user (λ _ _, eq_refl) _ _) Hf2) as U9.
  pose proof (keeps_run user _ _ _ _
                (keeps_accessor_set user (λ _ _, eq_refl) _ _) Hr) as U10.
  pose proof (keeps_run user _ _ _ _ (frontend_user _ _ _ _) Hfe1) as U13.
  pose proof (keeps_run user _ _ _ _ (frontend_user _ _ _ _) Hfe2) as U14.
  pose proof (keeps_run filter_ch1 _ _ _ _ (frontend_filter_ch1 _ _ _ _) Hfe1) as A13.
  pose proof (keeps_run filter_ch1 _ _ _ _ (frontend_filter_ch1 _ _ _ _) Hfe2) as A14.
  pose proof (keeps_run filter_ch2 _ _ _ _ (frontend_filter_ch2 _ _ _ _) Hfe1) as B13.
  pose proof (keeps_run filter_ch2 _ _ _ _ (frontend_filter_ch2 _ _ _ _) Hfe2) as B14.
  simpl in U13, A13, B13.
  rewrite (keeps_run user _ _ _ _
             (keeps_needs_commit_tail user _ _ tt (λ _ _, eq_refl)
                (λ _ _, eq_refl) (λ _ _, eq_refl)) Htail).
  rewrite (keeps_run filter_ch1 _ _ _ _
             (keeps_needs_commit_tail filter_ch1 _ _ tt (λ _ _, eq_refl)
                (λ _ _, eq_refl) (λ _ _, eq_refl)) Htail).
  rewrite (keeps_run filter_ch2 _ _ _ _
             (keeps_needs_commit_tail filter_ch2 _ _ tt (λ _ _, eq_refl)
                (λ _ _, eq_refl) (λ _ _, eq_refl)) Htail).
  split; [| split; congruence].
  rewrite UA, U15, U14, U13, U10, U9, U8, U7, U6. reflexivity.
Qed.

End Defaults.

Lemma set_defaults_returns_witness :
  let s' := (set_defaults plain_scales plain_hook (ret tt) plain_set_frontend
               fresh).1 in
  user s' = user after_defaults
  ∧ filter_ch1 s' = filter_ch1 after_defaults
  ∧ filter_ch2 s' = filter_ch2 after_defaults.
Proof.
  apply (set_defaults_returns plain_scales plain_hook (ret tt) plain_set_frontend
           (λ _ _ _ _ _, eq_refl) (λ _ _ _ _ _, eq_refl) (λ _ _ _ _ _, eq_refl)
           fresh).
  vm_compute. reflexivity.
Defined.

(** *** The file of the arbitrary waveform example *)

Lemma pack_i_is_Some v : is_Some (ArbWaveGenExample.pack_i v) ↔ int32 v.
Proof.
  unfold ArbWaveGenExample.pack_i, int32.
  destruct (Z.leb_spec (- 2 ^ 31) v), (Z.ltb_spec v (2 ^ 31)); simpl;
    (split; [intros [bs Hbs]; try done; lia | intros ?; try lia; eauto]).
Qed.

Lemma pack_i_length v bs : ArbWaveGenExample.pack_i v = Some bs → length bs = 4%nat.
Proof.
  unfold ArbWaveGenExample.pack_i.
  destruct ((- 2 ^ 31 <=? v) && (v <? 2 ^ 31)); [| done].
  by intros [= <-].
Qed.

Lemma length_channel_words table :
  length (ArbWaveGenExample.channel_words table)
  = (8 * (length table `max` ArbWaveGenExample.LENGTH))%nat.
Proof.
  unfold ArbWaveGenExample.channel_words.
  generalize ArbWaveGenExample.LENGTH. intros L.
  rewrite (flat_map_constant_length
             (c := (length table `max` L)%nat)).
  - rewrite length_seq. lia.
  - intros n _. rewrite length_app.
    rewrite !(flat_map_constant_length (c := 1%nat)) by done.
    rewrite length_seq. lia.
Qed.

Lemma Forall_channel_words (P : Z → Prop) table :
  P 0 → Forall P (ArbWaveGenExample.channel_words table) ↔ Forall P table.
Proof.
  intros H0. unfold ArbWaveGenExample.channel_words.
  generalize (ArbWaveGenExample.LENGTH - length table)%nat. intros pad.
  rewrite Forall_flat_map.
  assert (Hrow : Forall P (flat_map (λ d, [d]) table
                           ++ flat_map (λ _ : nat, [0]) (seq 0 pad))%list
                 ↔ Forall P table).
  { rewrite Forall_app, !Forall_flat_map. split.
    - intros [Ht _]. eapply Forall_impl; [exact Ht |].
      intros d Hd. by apply Forall_inv in Hd.
    - intros Ht. split.
      + eapply Forall_impl; [exact Ht |]. intros d Hd. by constructor.
      + apply Forall_forall. intros i _. by constructor. }
  split.
  - intros Hall. apply Hrow. by apply Forall_inv in Hall.
  - intros Ht. apply Forall_forall. intros n _. by apply Hrow.
Qed.

Lemma length_mjoin_packed ws bl :
  Forall2 (λ w bs, ArbWaveGenExample.pack_i w = Some bs) ws bl →
  length (mjoin bl) = (4 * length ws)%nat.
Proof.
  induction 1 as [| w bs ws bl Hw _ IH]; [done |].
  change (mjoin (bs :: bl)) with (bs ++ mjoin bl)%list.
  rewrite length_app, IH, (pack_i_length _ _ Hw). simpl. lia.
Qed.

Lemma flat_map_singleton {A} (l : list A) : flat_map (λ d, [d]) l = l.
Proof. induction l as [| a l IH]; [done |]. simpl. by rewrite IH. Qed.

Lemma flat_map_zeros a pad :
  flat_map (λ _ : nat, [0]) (seq a pad) = replicate pad 0.
Proof.
  revert a. induction pad as [| pad IH]; intros a; [done |].
  simpl. by rewrite IH.
Qed.

(** The words of one period: the table, then zeros up to [LENGTH]. *)
Lemma period_lookup table i :
  (length table ≤ ArbWaveGenExample.LENGTH)%nat →
  (i < ArbWaveGenExample.LENGTH)%nat →
  (table ++ replicate (ArbWaveGenExample.LENGTH - length table) 0)%list !! i
  = Some (nth i table 0).
Proof.
  generalize ArbWaveGenExample.LENGTH. intros L Hlen Hi.
  destruct (Nat.lt_ge_cases i (length table)) as [Hlt | Hge].
  - rewrite lookup_app_l by done.
    destruct (lookup_lt_is_Some_2 table i Hlt) as [v Hv].
    rewrite Hv. f_equal. symmetry. by apply nth_lookup_Some with (d := 0).
  - rewrite lookup_app_r by done.
    rewrite lookup_replicate_2 by lia. f_equal. symmetry.
    by apply List.nth_overflow.
Qed.

Lemma flat_map_const_lookup {A B} (b : list B) (l : list A) j i :
  (j < length l)%nat → (i < length b)%nat →
  flat_map (λ _, b) l !! (j * length b + i)%nat = b !! i.
Proof.
  revert j. induction l as [| a l IH]; intros j Hj Hi; simpl in *; [lia |].
  destruct j as [| j].
  - simpl. by rewrite lookup_app_l.
  - rewrite lookup_app_r by (simpl; lia).
    replace (S j * length b + i - length b)%nat with (j * length b + i)%nat
      by (simpl; lia).
    apply IH; lia.
Qed.

Lemma channel_words_lookup table n i :
  (length table ≤ ArbWaveGenExample.LENGTH)%nat →
  (n < 8)%nat → (i < ArbWaveGenExample.LENGTH)%nat →
  ArbWaveGenExample.channel_words table !! (n * ArbWaveGenExample.LENGTH + i)%nat
  = Some (nth i table 0).
Proof.
  intros Hlen Hn Hi. unfold ArbWaveGenExample.channel_words.
  rewrite flat_map_singleton, flat_map_zeros.
  rewrite <- (period_lookup table i Hlen Hi).
  set (b := (table ++ replicate (ArbWaveGenExample.LENGTH - length table) 0)%list).
  assert (Hb : length b = ArbWaveGenExample.LENGTH).
  { unfold b. rewrite length_app, length_replicate. lia. }
  rewrite <- Hb at 1. apply flat_map_const_lookup.
  - by rewrite length_seq.
  - by rewrite Hb.
Qed.

(** X19: the file that the arbitrary waveform example writes.  Packing
    fails exactly when a table holds a value outside the signed 32-bit
    range.  Otherwise the file has four bytes for each written word, and
    each channel takes eight periods of max(len(table), 8192) words: a
    table longer than 8192 words is written whole, neither cut nor
    refused, and the file is then longer than the 2 * 8 * 8192 words of
    the layout.  With tables of at most 8192 words, each of the eight
    periods of a channel is the table followed by zeros up to 8192
    words, channel 1 first. *)
Theorem arbwavegen_file_layout xdata ydata :
  let L := ArbWaveGenExample.LENGTH in
  let words := ArbWaveGenExample.data_dat_words xdata ydata in
  (is_Some (ArbWaveGenExample.write_file xdata ydata)
   ↔ Forall int32 xdata ∧ Forall int32 ydata)
  ∧ (∀ bytes, ArbWaveGenExample.write_file xdata ydata = Some bytes →
       length bytes = (4 * length words)%nat)
  ∧ length words = (8 * (length xdata `max` L) + 8 * (length ydata `max` L))%nat
  ∧ ((length xdata ≤ L)%nat → (length ydata ≤ L)%nat →
     ∀ n i, (n < 8)%nat → (i < L)%nat →
       words !! (n * L + i)%nat = Some (nth i xdata 0)
       ∧ words !! (8 * L + (n * L + i))%nat = Some (nth i ydata 0)).
Proof.
  intros L words. subst L words.
  unfold ArbWaveGenExample.write_file, ArbWaveGenExample.data_dat_words.
  split; [| split; [| split]].
  - rewrite fmap_is_Some, mapM_is_Some, Forall_app.
    assert (H0 : int32 0) by (unfold int32; lia).
    rewrite <- (Forall_channel_words int32 xdata H0),
            <- (Forall_channel_words int32 ydata H0).
    assert (Hiff : ∀ l, Forall (is_Some ∘ ArbWaveGenExample.pack_i) l
                        ↔ Forall int32 l).
    { intros l. apply Forall_iff. intros v. apply pack_i_is_Some. }
    by rewrite !Hiff.
  - intros bytes Hb. apply fmap_Some in Hb as (bl & Hbl & ->).
    apply mapM_Some in Hbl. by rewrite (length_mjoin_packed _ _ Hbl).
  - by rewrite length_app, !length_channel_words.
  - intros Hx Hy n i Hn Hi.
    assert (Hcx : length (ArbWaveGenExample.channel_words xdata)
                  = (8 * ArbWaveGenExample.LENGTH)%nat).
    { rewrite length_channel_words. by rewrite Nat.max_r. }
    assert (Hin : (n * ArbWaveGenExample.LENGTH + i
                   < 8 * ArbWaveGenExample.LENGTH)%nat).
    { revert Hi. generalize ArbWaveGenExample.LENGTH. intros L Hi. nia. }
    split.
    + rewrite lookup_app_l by (by rewrite Hcx).
      by apply channel_words_lookup.
    + rewrite <- Hcx. rewrite lookup_app_r by lia.
      replace (length (ArbWaveGenExample.channel_words xdata)
               + (n * ArbWaveGenExample.LENGTH + i)
               - length (ArbWaveGenExample.channel_words xdata))%nat
        with (n * ArbWaveGenExample.LENGTH + i)%nat by lia.
      by apply channel_words_lookup.
Qed.

(** *** The scalar setters and the reshape at concrete inputs *)

Lemma set_control_matrix_stores_witness :
  let s := after_defaults in
  let s' := (set_control_matrix plain_scales plain_hook 2 0.5 (-20) s).1 in
  user s' = with_matrix_row 2 0.5 (-20) (user s)
  ∧ filter_ch1 s' = filter_ch1 s ∧ filter_ch2 s' = filter_ch2 s
  ∧ _decfilter1 s' = _decfilter1 s ∧ _decfilter2 s' = _decfilter2 s
  ∧ sent_files s' = sent_files s.
Proof.
  apply (set_control_matrix_stores plain_scales plain_hook 2 0.5 (-20)
           after_defaults).
  reflexivity.
Defined.

Lemma set_filter_distinct_rows_stored_witness :
  ∃ a, filter_of 1 (set_filter plain_scales plain_hook 1 "high"
                      (Some allpass_gain2) after_defaults).1 = Some a
       ∧ length (rows a) = 4%nat
       ∧ getrow a 0 = Some [1; 1; 0; 0; 0; 0]%float
       ∧ getrow a 1 = Some [1; 1; 0; 0; 0; 0]%float
       ∧ getrow a 2 = Some [1; 1; 0; 0; 0; 0]%float
       ∧ getrow a 3 = Some [2; 1; 0; 0; 0; 0]%float.
Proof.
  apply (set_filter_distinct_rows_stored plain_scales plain_hook 1 "high"
           after_defaults (heap allpass_gain2) 0 1 2 3 4 2
           [1; 1; 0; 0; 0; 0]%float [1; 1; 0; 0; 0; 0]%float
           [1; 1; 0; 0; 0; 0]%float [1; 1; 0; 0; 0; 0]%float
           [1; 1; 0; 0; 0; 0]%float [1; 1; 0; 0; 0; 0]%float
           [1; 1; 0; 0; 0; 0]%float [2; 1; 0; 0; 0; 0]%float)%nat;
    try reflexivity.
  - apply list_elem_of_here.
  - apply list_elem_of_here.
  - apply (bool_decide_unpack _). reflexivity.
Defined.

(** *** Validation errors of [set_filter] *)

Section FilterValidation.
Variable core_calculate_scales : IIR → Scales.
Variable core_update_dependent_regs : Scales → IIR → option (gmap Z Z).

Abbreviation set_filter' :=
  (set_filter core_calculate_scales core_update_dependent_regs).

(** X21: [set_filter] raises a validation error exactly when the channel
    or the sample rate is not an allowed value, or one of the two checks
    of the array raises one.  The instrument is then as before the call
    but for the sample-rate factor, which is already staged when the
    array is what was rejected.  With no array, whatever the outcome, both
    stored filters are the ones the instrument held. *)
Theorem set_filter_validation ch sample_rate filter_coefficients s :
  let out := set_filter' ch sample_rate filter_coefficients s in
  ((∃ d, out.2 = inl (ValidationError d))
   ↔ ¬ (ch ∈ [1; 2] ∧ sample_rate ∈ ["high"; "low"])
     ∨ ∃ fc d, filter_coefficients = Some fc
               ∧ (check_dimensions fc >>? check_values fc)
                 = inl (ValidationError d))
  ∧ ((∃ d, out.2 = inl (ValidationError d)) →
     if bool_decide (ch ∈ [1; 2] ∧ sample_rate ∈ ["high"; "low"])
     then out.1 = staged ch sample_rate s
     else out.1 = s)
  ∧ (filter_coefficients = None →
     filter_ch1 out.1 = filter_ch1 s ∧ filter_ch2 out.1 = filter_ch2 s).
Proof.
  intros out. subst out.
  destruct (set_filter_courses core_calculate_scales core_update_dependent_regs
              ch sample_rate filter_coefficients s)
    as [[Hbad [d Hd]] | (Hch & Hrate & [(fc & e & Hfc & He & Hrun) | [[Hn Hrun] | (fc & a & Hfc & Hdim & Hval & Ha & Hrun)]])].
  - rewrite Hd. simpl. rewrite bool_decide_eq_false_2 by done.
    split; [split; eauto |]. split; [done |].
    done.
  - rewrite Hrun. simpl. rewrite bool_decide_eq_true_2 by done.
    split; [| split; [done |]; by rewrite Hfc].
    split.
    + intros [d [= ->]]. right. eauto.
    + intros [Hbad | (fc' & d & Hfc' & Hd)]; [by destruct Hbad |].
      assert (fc' = fc) as -> by congruence. rewrite He in Hd.
      injection Hd as ->. eauto.
  - rewrite Hrun.
    assert (Hq : ∀ d, (upload_and_enable core_calculate_scales
                         core_update_dependent_regs ch
                         (staged ch sample_rate s)).2
                      ≠ inl (ValidationError d))
      by (intros d; apply Quiet_upload_and_enable).
    split; [| split].
    + split.
      * intros [d Hd]. by apply Hq in Hd.
      * intros [Hbad | (fc & d & Hfc & _)]; [by destruct Hbad | congruence].
    + intros [d Hd]. by apply Hq in Hd.
    + intros _.
      rewrite (keeps_upload_and_enable filter_ch1),
        (keeps_upload_and_enable filter_ch2) by done.
      destruct (staged_fields ch sample_rate s) as (_ & F1 & F2 & _). done.
  - rewrite Hrun.
    assert (Hq : ∀ d, (upload_and_enable core_calculate_scales
                         core_update_dependent_regs ch
                         (store_filter ch a (staged ch sample_rate s))).2
                      ≠ inl (ValidationError d))
      by (intros d; apply Quiet_upload_and_enable).
    split; [| split].
    + split.
      * intros [d Hd]. by apply Hq in Hd.
      * intros [Hbad | (fc' & d & Hfc' & Hd)]; [by destruct Hbad |].
        assert (fc' = fc) as -> by congruence.
        rewrite Hdim in Hd. simpl in Hd. congruence.
    + intros [d Hd]. by apply Hq in Hd.
    + congruence.
Qed.

End FilterValidation.

(** *** What the payload depends on *)


Section PayloadFunction.
Variable core_calculate_scales : IIR → Scales.
Variable core_update_dependent_regs : Scales → IIR → option (gmap Z Z).

Abbreviation set_filter' :=
  (set_filter core_calculate_scales core_update_dependent_regs).
Abbreviation upload_and_enable' :=
  (upload_and_enable core_calculate_scales core_update_dependent_regs).



(** C5, as amended: a call of [set_filter] that returns -- a committed
    filter configuration -- has written and uploaded exactly one file,
    with tag j: the flat sequence of the 48 fixed-point coefficients of
    the filters that the instrument then holds, each as the eight bytes
    of a signed 64-bit little-endian integer, ordered by channel first,
    then by component (s, b0, b1, b2, a1, a2), then by section row --
    the eight bytes at integer position 24*channel + 4*component + row
    unpack to the rounded fixed-point value of that component of that row
    of that channel.  A call that does not return has uploaded nothing or
    a file of that same content. *)
Theorem set_filter_payload_channel_major ch sample_rate filter_coefficients s :
  let out := set_filter core_calculate_scales core_update_dependent_regs
               ch sample_rate filter_coefficients s in
  (out.2 = inr tt →
   ∃ fcs payload,
     filter_coeffs out.1 = inr fcs
     ∧ sent_files out.1 = (sent_files s ++ [("j", payload)])%list
     ∧ length payload = (8 * 48)%nat
     ∧ ∀ k y x, (k < 2)%nat → (y < 6)%nat → (x < 4)%nat →
         ∃ c v, source_entry fcs k x y = Some c
                ∧ quantise y c = inr v
                ∧ int64 v
                ∧ take 8 (drop (8 * (24 * k + 4 * y + x)) payload) = le64 v
                ∧ unpack_q (le64 v) = v)
  ∧ (sent_files out.1 = sent_files s
     ∨ ∃ fcs vs,
         filter_coeffs out.1 = inr fcs
         ∧ channel_major fcs vs
         ∧ sent_files out.1 = (sent_files s ++ [("j", flat_map le64 vs)])%list).
Proof.
  intros out. subst out. split; [| apply set_filter_payload_cases].
  destruct (set_filter core_calculate_scales core_update_dependent_regs
              ch sample_rate filter_coefficients s) as [s' r] eqn:Hrun.
  simpl. intros ->.
  assert (Hup : ∃ s2, upload_and_enable' ch s2 = (s', inr tt)
                      ∧ sent_files s2 = sent_files s).
  { destruct (set_filter_courses core_calculate_scales core_update_dependent_regs
                ch sample_rate filter_coefficients s)
      as [[_ [d Hd]] | (Hch & Hrate & [(fc & e & _ & _ & He) | [[_ Hn] | (fc & a & _ & _ & _ & _ & Ha)]])].
    - congruence.
    - congruence.
    - eexists. split; [by rewrite <- Hn |]. apply staged_fields.
    - eexists. split; [by rewrite <- Ha |].
      destruct (store_filter_fields ch a (staged ch sample_rate s)) as (_ & -> & _).
      apply staged_fields. }
  destruct Hup as (s2 & Hup & Hs2).
  destruct (upload_and_enable_returns _ _ _ _ _ Hup)
    as (_ & _ & fcs & vs & Hf & Hcm & Hsent).
  exists fcs, (flat_map le64 vs). split; [| split; [congruence |]].
  { rewrite <- Hf. apply filter_coeffs_ext.
    - eapply (keeps_run filter_ch1); [| exact Hup].
      by apply keeps_upload_and_enable.
    - eapply (keeps_run filter_ch2); [| exact Hup].
      by apply keeps_upload_and_enable. }
  destruct Hcm as (Hlen & H64 & Hvs).
  split; [by rewrite length_flat_map_le64, Hlen |].
  intros k y x Hk Hy Hx.
  destruct (Hvs k y x Hk Hy Hx) as (c & v & Hc & Hq & Hv).
  assert (Hint : int64 v).
  { rewrite Forall_forall in H64. apply H64. by eapply list_elem_of_lookup_2. }
  exists c, v. split; [done |]. split; [done |]. split; [exact Hint |].
  split; [by apply flat_map_le64_chunk | by apply le64_unpack_q].
Qed.

End PayloadFunction.

(** The theorem on the default filters: the call returns, and its one
    upload holds 2^24, the gain slot of section 1 of channel 1, as the
    first integer and 2^45, b0 of section 1 of channel 1, as the fifth. *)
Lemma set_filter_payload_channel_major_witness :
  let out := set_filter plain_scales plain_hook 1 "high" None after_defaults in
  out.2 = inr tt
  ∧ ∃ fcs payload,
      filter_coeffs out.1 = inr fcs
      ∧ sent_files out.1 = (sent_files after_defaults ++ [("j", payload)])%list
      ∧ length payload = (8 * 48)%nat
      ∧ ∀ k y x, (k < 2)%nat → (y < 6)%nat → (x < 4)%nat →
          ∃ c v, source_entry fcs k x y = Some c
                 ∧ quantise y c = inr v
                 ∧ int64 v
                 ∧ take 8 (drop (8 * (24 * k + 4 * y + x)) payload) = le64 v
                 ∧ unpack_q (le64 v) = v.
Proof.
  intros out.
  assert (Hret : out.2 = inr tt) by (vm_compute; reflexivity).
  split; [exact Hret |].
  exact (proj1 (set_filter_payload_channel_major plain_scales plain_hook
                  1 "high" None after_defaults) Hret).
Defined.


(** *** The reshape on one shared section row *)

(** When the four section rows of an array are one object, every pass of
    the loop and the final write of the gain act on that object. *)
Lemma reshape_shared_rows h p0 p G s b0 b1 b2 rest :
  p0 ≠ p → h !! p0 = Some [G] →
  h !! p = Some (s :: b0 :: b1 :: b2 :: rest) →
  ∃ a, reshape (mkCoeffArray h [p0; p; p; p; p]) = inr a
       ∧ length (rows a) = 4%nat
       ∧ ∀ m, (m < 4)%nat →
           getrow a m
           = Some (G :: b0 * s * 1 * 1 * 1 :: b1 * s * 1 * 1 * 1
                     :: b2 * s * 1 * 1 * 1 :: rest)%float.
Proof.
  intros Hne H0 Hp.
  pose proof (lookup_lt_Some _ _ _ H0). pose proof (lookup_lt_Some _ _ _ Hp).
  set (ra := (1 :: b0 * s :: b1 * s :: b2 * s :: rest)%float).
  set (rb := (1 :: b0 * s * 1 :: b1 * s * 1 :: b2 * s * 1 :: rest)%float).
  set (rc := (1 :: b0 * s * 1 * 1 :: b1 * s * 1 * 1 :: b2 * s * 1 * 1
                :: rest)%float).
  set (rd := (1 :: b0 * s * 1 * 1 * 1 :: b1 * s * 1 * 1 * 1
                :: b2 * s * 1 * 1 * 1 :: rest)%float).
  set (re := (G :: b0 * s * 1 * 1 * 1 :: b1 * s * 1 * 1 * 1
                :: b2 * s * 1 * 1 * 1 :: rest)%float).
  unfold reshape. change (seq 1 4) with [1; 2; 3; 4]%nat.
  cbn [fold_E].
  erewrite (update_row_at _ _ 1 _ p _ ra); [| done | exact Hp | done].
  cbn [elift ebind].
  erewrite (update_row_at _ _ 2 _ p ra rb); [| done | | done];
    [| by rewrite list_lookup_insert_eq].
  cbn [elift ebind].
  erewrite (update_row_at _ _ 3 _ p rb rc); [| done | | done];
    [| by rewrite list_lookup_insert_eq by (by rewrite !length_insert)].
  cbn [elift ebind].
  erewrite (update_row_at _ _ 4 _ p rc rd); [| done | | done];
    [| by rewrite list_lookup_insert_eq by (by rewrite !length_insert)].
  cbn [elift ebind].
  unfold getitem at 1, getrow at 1.
  cbn [rows heap lookup list_lookup mbind option_bind].
  rewrite !list_lookup_insert_ne by done. rewrite H0.
  cbn [elift ebind lookup list_lookup mbind option_bind].
  erewrite (update_row_at _ _ 4 _ p rd re); [| done | | done];
    [| by rewrite list_lookup_insert_eq by (by rewrite !length_insert)].
  cbn [elift ebind].
  eexists. split; [reflexivity |]. split; [done |].
  intros m Hm. unfold getrow.
  cbn [rows heap take drop length].
  assert (m = 0 ∨ m = 1 ∨ m = 2 ∨ m = 3)%nat as [-> | [-> | [-> | ->]]] by lia;
    cbn [lookup list_lookup mbind option_bind];
    by rewrite list_lookup_insert_eq by (by rewrite !length_insert).
Qed.

Section SharedRows.
Variable core_calculate_scales : IIR → Scales.
Variable core_update_dependent_regs : Scales → IIR → option (gmap Z Z).

(** X23: an accepted array whose four section rows are one row object,
    [[[G], b, b, b, b]] as [set_defaults] itself builds its filters, is
    not stored in the memory map format of sections with a gain slot of
    1.0: the deep copy keeps the sharing, so all four stored sections are
    the one row, with the overall gain [G] in the gain slot of every
    section and [b0], [b1], [b2] multiplied by [s], then by 1.0 three
    times. *)
Theorem set_filter_shared_rows_stored ch sample_rate st h p0 p G s b0 b1 b2 rest :
  let fc := mkCoeffArray h [p0; p; p; p; p] in
  ch ∈ [1; 2] → sample_rate ∈ ["high"; "low"] →
  check_dimensions fc = inr tt → check_values fc = inr tt →
  p0 ≠ p → h !! p0 = Some [G] →
  h !! p = Some (s :: b0 :: b1 :: b2 :: rest) →
  ∃ a, filter_of ch (set_filter core_calculate_scales core_update_dependent_regs
                       ch sample_rate (Some fc) st).1 = Some a
       ∧ length (rows a) = 4%nat
       ∧ ∀ m, (m < 4)%nat →
           getrow a m
           = Some (G :: b0 * s * 1 * 1 * 1 :: b1 * s * 1 * 1 * 1
                     :: b2 * s * 1 * 1 * 1 :: rest)%float.
Proof.
  intros fc Hch Hrate Hdim Hval Hne H0 Hp.
  destruct (reshape_shared_rows h p0 p G s b0 b1 b2 rest Hne H0 Hp)
    as (a & Hre & Hrest).
  exists a. split; [| done].
  by apply set_filter_stored.
Qed.

End SharedRows.

Lemma set_filter_shared_rows_stored_witness :
  ∃ a, filter_of 2 (set_filter plain_scales plain_hook 2 "low"
                      (Some shared_rows_gain2) after_defaults).1 = Some a
       ∧ length (rows a) = 4%nat
       ∧ ∀ m, (m < 4)%nat →
           getrow a m
           = Some (2 :: 1 * 1 * 1 * 1 * 1 :: 0 * 1 * 1 * 1 * 1
                     :: 0 * 1 * 1 * 1 * 1 :: [0; 0])%float.
Proof.
  apply (set_filter_shared_rows_stored plain_scales plain_hook 2 "low"
           after_defaults (heap shared_rows_gain2) 0 1 2 1 1 0 0
           [0; 0]%float)%nat; try reflexivity.
  - apply list_elem_of_further, list_elem_of_here.
  - apply list_elem_of_further, list_elem_of_here.
  - lia.
Defined.

(** *** A scale that the range check accepts and the register does not hold *)

Section RegisterOverflow.
Variable core_calculate_scales : IIR → Scales.
Variable core_update_dependent_regs : Scales → IIR → option (gmap Z Z).

Abbreviation set_control_matrix' :=
  (set_control_matrix core_calculate_scales core_update_dependent_regs).

(** X24: the range check of [set_control_matrix] does not bound the
    register value.  When the scale of input 1 for channel 1 passes the
    check but its register value, computed at commit time with the
    attenuation and ADC gain of the moment, does not fit 16 signed bits,
    the call raises the overflow error of the codec after the scales
    were stored: the stored row is the requested one, and nothing has
    reached the device. *)
Theorem set_control_matrix_register_overflow scale_in1 scale_in2 s scales r v :
  let s1 := with_user s (with_matrix_row 1 scale_in1 scale_in2 (user s)) in
  matrix_request_ok 1 scale_in1 scale_in2 = true →
  _calculate_scales core_calculate_scales s1 = inr scales →
  core_update_dependent_regs scales s1 = Some r →
  int_round (xform_matrixscale frontend1 adc_gain1 s scale_in1) = inr v →
  ¬ (- 2 ^ 15 ≤ v < 2 ^ 15) →
  let out := set_control_matrix' 1 scale_in1 scale_in2 s in
  out.2 = inl RangeOverflowError
  ∧ user out.1 = with_matrix_row 1 scale_in1 scale_in2 (user s)
  ∧ remoteregs out.1 = remoteregs s
  ∧ link out.1 = link s.
Proof.
  intros s1 Hok Hscales Hhook Hround Hv out. subst out.
  rewrite set_control_matrix_valid_run by done. fold s1.
  set (s2 := with_localregs s1 r).
  assert (Hset : set_matrixscale_ch1_ch1 scale_in1 s2
                 = (s2, inl RangeOverflowError)).
  { unfold set_matrixscale_ch1_ch1, set_signed.
    erewrite bind_inr by reflexivity.
    change (xform_matrixscale frontend1 adc_gain1 (id s2) scale_in1)
      with (xform_matrixscale frontend1 adc_gain1 s scale_in1).
    rewrite Hround. erewrite bind_inr by reflexivity.
    unfold _accessor_set, to_reg_signed.
    destruct (Z.leb_spec (- 2 ^ (16 - 1)) v), (Z.ltb_spec v (2 ^ (16 - 1)));
      simpl; try done.
    exfalso. apply Hv. change (16 - 1) with 15 in *. lia. }
  assert (Hupd : _update_dependent_regs core_update_dependent_regs scales s1
                 = (s2, inl RangeOverflowError)).
  { unfold _update_dependent_regs.
    erewrite bind_inr; cycle 1.
    { unfold super_update_dependent_regs. by rewrite Hhook. }
    fold s2. erewrite bind_inl; [done |].
    unfold _update_control_matrix_regs.
    erewrite bind_inr by reflexivity.
    erewrite bind_inl; [done |]. exact Hset. }
  assert (Hcommit : commit core_calculate_scales core_update_dependent_regs s1
                    = (s2, inl RangeOverflowError)).
  { unfold commit. erewrite bind_inr; cycle 1.
    { by rewrite Hscales. }
    erewrite bind_inl; [done |]. exact Hupd. }
  erewrite bind_inl by exact Hcommit. done.
Qed.

End RegisterOverflow.

Lemma set_control_matrix_register_overflow_witness :
  let e := mkEnv (mkFrontend true false false) (mkFrontend true false false)
                 (0x1p-10, 0x1p-10)%float (0x1p-15, 0x1p-15)%float false 1%float in
  let s := with_env after_defaults e in
  let out := set_control_matrix plain_scales plain_hook 1 20 0 s in
  out.2 = inl RangeOverflowError
  ∧ user out.1 = with_matrix_row 1 20 0 (user s)
  ∧ remoteregs out.1 = remoteregs s
  ∧ link out.1 = link s.
Proof.
  intros e s.
  apply (set_control_matrix_register_overflow plain_scales plain_hook 20 0 s
           (plain_scales s) ∅ 75000).
  - reflexivity.
  - vm_compute. reflexivity.
  - reflexivity.
  - vm_compute. reflexivity.
  - lia.
Defined.
